(** * mcp-youtube: caption normaliser, retry executor and TTL cache

    A shallow embedding of the three pieces of logic of the server:
    - [stripVttNonContent] (index.ts), the WebVTT text cleaner;
    - [withRetry] and [handleYtDlpError] (errors.ts), bounded retry with
      classified failures, and [parseTimeToSeconds] (index.ts);
    - [SimpleCache] (cache.ts), the file-backed TTL cache.

    JavaScript strings are sequences of UTF-16 code units; they are modelled
    as [list N], one number per code unit.  Regular expressions without the
    [u] flag work on code units, and so do the functions below. *)

From Stdlib Require Import ZArith NArith Ascii String DecimalString Lia.
From stdpp Require Import base option list gmap.

Local Open Scope N_scope.

(** ** JavaScript strings *)

Module Js.

Abbreviation jsstring := (list N).

(** A string literal of the source, code unit by code unit (the literals of
    the source are ASCII). *)
Fixpoint str (s : string) : jsstring :=
  match s with
  | EmptyString => []
  | String a s' => N_of_ascii a :: str s'
  end.

(** [a === b] on strings. *)
Definition streq (a b : jsstring) : bool := bool_decide (a = b).

(** WhiteSpace and LineTerminator of ECMAScript: what [trim] strips and what
    [\s] matches. *)
Definition isWhiteSpace (c : N) : bool :=
  (c =? 9) || (c =? 10) || (c =? 11) || (c =? 12) || (c =? 13) || (c =? 32)
  || (c =? 160) || (c =? 5760) || ((8192 <=? c) && (c <=? 8202))
  || (c =? 8232) || (c =? 8233) || (c =? 8239) || (c =? 8287)
  || (c =? 12288) || (c =? 65279).

(** [\d] *)
Definition isDigit (c : N) : bool := (48 <=? c) && (c <=? 57).

Fixpoint trimStart (s : jsstring) : jsstring :=
  match s with
  | [] => []
  | c :: s' => if isWhiteSpace c then trimStart s' else s
  end.

Definition trimEnd (s : jsstring) : jsstring := rev (trimStart (rev s)).

Definition trim (s : jsstring) : jsstring := trimEnd (trimStart s).

(** [s.startsWith(p)] *)
Fixpoint startsWith (p s : jsstring) : bool :=
  match p, s with
  | [], _ => true
  | _ :: _, [] => false
  | a :: p', b :: s' => (a =? b) && startsWith p' s'
  end.

(** [s.includes(p)] *)
Fixpoint includes (p s : jsstring) : bool :=
  startsWith p s ||
  match s with
  | [] => false
  | _ :: s' => includes p s'
  end.

(** [s.endsWith(p)] *)
Definition endsWith (p s : jsstring) : bool := startsWith (rev p) (rev s).

Definition LF : N := 10.

(** [s.split(sep)] for a separator of one code unit: never the empty array;
    the empty string gives the array of one empty string. *)
Fixpoint splitOn (sep : N) (s : jsstring) : list jsstring :=
  match s with
  | [] => [[]]
  | c :: s' =>
      if c =? sep then [] :: splitOn sep s'
      else match splitOn sep s' with
           | l :: ls => (c :: l) :: ls
           | [] => [[c]]
           end
  end.

(** [s.split("\n")] *)
Abbreviation splitLines := (splitOn LF).

(** [lines.join("\n")] *)
Fixpoint joinLines (ls : list jsstring) : jsstring :=
  match ls with
  | [] => []
  | [l] => l
  | l :: ls' => l ++ LF :: joinLines ls'
  end.

(** [s.replace(re, '')] for a global regular expression [re] that has no
    empty match: [matchLen s] is the length of the match of [re] that starts
    at the head of [s], if there is one.  After a match the scan resumes
    behind it ([skip] counts the code units of the match still to drop). *)
Fixpoint removeAllFrom (matchLen : jsstring -> option nat) (skip : nat)
    (s : jsstring) : jsstring :=
  match s with
  | [] => []
  | c :: s' =>
      match skip with
      | S k => removeAllFrom matchLen k s'
      | O =>
          match matchLen s with
          | Some (S k) => removeAllFrom matchLen k s'
          | _ => c :: removeAllFrom matchLen 0 s'
          end
      end
  end.

Definition removeAll (matchLen : jsstring -> option nat) (s : jsstring) : jsstring :=
  removeAllFrom matchLen 0 s.

(** The decimal text of an integer, as a template literal prints a number
    that is an integer below 10^21 in absolute value. *)
Definition numberToString (z : Z) : jsstring :=
  str (NilZero.string_of_int (Z.to_int z)).

(** The head of [s], if any, is no white space. *)
Definition headSolid (s : jsstring) : Prop :=
  match s with
  | [] => True
  | c :: _ => isWhiteSpace c = false
  end.

(** [s] has no line feed. *)
Definition noLF (s : jsstring) : Prop := Forall (fun c => c <> LF) s.

End Js.

Import Js.

(** ** The caption normaliser: [stripVttNonContent] *)

Module Vtt.

(** An out-of-range array read gives [undefined] in JavaScript, and calling a
    method on it raises a TypeError.  Array reads are [!!] in the option
    monad: [None] stands for such a read. *)

(** [for (let i = start; i < n; i++) body] without [break]: [count] is the
    number of iterations left. *)
Fixpoint forLoop {S : Type} (body : nat -> S -> option S) (count i : nat) (s : S)
    : option S :=
  match count with
  | O => Some s
  | S count' => s' ← body i s; forLoop body count' (i + 1)%nat s'
  end.

Definition forRange {S : Type} (body : nat -> S -> option S) (start n : nat) (s : S)
    : option S :=
  forLoop body (n - start)%nat start s.

(** *** The regular expressions of the function *)

Inductive atom :=
  | Digit            (* \d *)
  | Lit (c : N)      (* one literal code unit *)
  | Spaces.          (* \s* -- always followed by an atom that matches no white space *)

(** Match a sequence of atoms at the head of [s]: the matched text and the
    rest.  [\s*] is greedy; the atom behind it never matches white space, so
    the longest run is the only one that can succeed. *)
Fixpoint matchAtoms (re : list atom) (s : jsstring) : option (jsstring * jsstring) :=
  match re with
  | [] => Some ([], s)
  | Digit :: re' =>
      match s with
      | c :: s' =>
          if isDigit c
          then '(m, r) ← matchAtoms re' s'; Some (c :: m, r)
          else None
      | [] => None
      end
  | Lit x :: re' =>
      match s with
      | c :: s' =>
          if c =? x
          then '(m, r) ← matchAtoms re' s'; Some (c :: m, r)
          else None
      | [] => None
      end
  | Spaces :: re' =>
      let s' := trimStart s in
      '(m, r) ← matchAtoms re' s';
      Some (take (length s - length s') s ++ m, r)
  end.

Definition literal (s : string) : list atom := map Lit (str s).

(** [\d{2}:\d{2}:\d{2}\.\d{3}] *)
Definition TIMESTAMP : list atom :=
  [Digit; Digit] ++ literal ":" ++ [Digit; Digit] ++ literal ":" ++
  [Digit; Digit] ++ literal "." ++ [Digit; Digit; Digit].

(** [/(\d{2}:\d{2}:\d{2}\.\d{3})\s*-->\s*(\d{2}:\d{2}:\d{2}\.\d{3})/] at the
    head of [s]: the two captured groups. *)
Definition timingAt (s : jsstring) : option (jsstring * jsstring) :=
  '(t1, r1) ← matchAtoms TIMESTAMP s;
  '(_, r2) ← matchAtoms ([Spaces] ++ literal "-->" ++ [Spaces]) r1;
  '(t2, _) ← matchAtoms TIMESTAMP r2;
  Some (t1, t2).

(** [line.match(re)] for a regular expression without the [g] flag: the
    leftmost position at which [re] matches. *)
Fixpoint search {A : Type} (matchAt : jsstring -> option A) (s : jsstring) : option A :=
  match matchAt s with
  | Some m => Some m
  | None =>
      match s with
      | [] => None
      | _ :: s' => search matchAt s'
      end
  end.

Definition timingMatch (line : jsstring) : option (jsstring * jsstring) :=
  search timingAt line.

(** The length of the match of the first alternative that matches. *)
Fixpoint firstAlternative (alts : list (list atom)) (s : jsstring) : option nat :=
  match alts with
  | [] => None
  | re :: alts' =>
      match matchAtoms re s with
      | Some (m, _) => Some (length m)
      | None => firstAlternative alts' s
      end
  end.

(** [/<\d{2}:\d{2}:\d{2}\.\d{3}>|<\/c>/g] *)
Definition INLINE_TAGS : list (list atom) :=
  [literal "<" ++ TIMESTAMP ++ literal ">"; literal "</c>"].

(** [/<c>/g] *)
Definition OPEN_C : list (list atom) := [literal "<c>"].

(** [line.replace(/<\d{2}:\d{2}:\d{2}\.\d{3}>|<\/c>/g, '').replace(/<c>/g, '')] *)
Definition cleanLine (line : jsstring) : jsstring :=
  removeAll (firstAlternative OPEN_C) (removeAll (firstAlternative INLINE_TAGS) line).

Definition WEBVTT : jsstring := str "WEBVTT".
Definition ARROW : jsstring := str "-->".
Definition ALIGN : jsstring := str "align:".
Definition POSITION : jsstring := str "position:".

(** *** The loops of the function *)

(** The condition of the header loop:
    [lines[i].trim() === '' && i + 1 < lines.length && lines[i + 1].includes("-->")] *)
Definition headerEndsAt (lines : list jsstring) (i : nat) : option bool :=
  li ← lines !! i;
  if streq (trim li) [] && (i + 1 <? length lines)%nat
  then next ← lines !! (i + 1)%nat; Some (includes ARROW next)
  else Some false.

(** [for (let i = 1; i < lines.length; i++) { if (...) { headerEndIndex = i + 1; break; } }] *)
Fixpoint headerLoop (lines : list jsstring) (count i headerEndIndex : nat) : option nat :=
  match count with
  | O => Some headerEndIndex
  | S count' =>
      b ← headerEndsAt lines i;
      if (b : bool) then Some (i + 1)%nat
      else headerLoop lines count' (i + 1)%nat headerEndIndex
  end.

(** One iteration of the loop of the preserve-timing branch. *)
Definition preserveBody (contentLines : list jsstring) (i : nat)
    (processedLines : list jsstring) : option (list jsstring) :=
  line ← contentLines !! i;
  if includes ARROW line then
    match timingMatch line with
    | Some (t1, t2) => Some (processedLines ++ [t1 ++ str " --> " ++ t2])
    | None => Some processedLines
    end
  else if negb (streq (trim line) []) && negb (includes ALIGN line)
          && negb (includes POSITION line) then
    let cleanedLine := trim (cleanLine line) in
    if negb (streq cleanedLine []) then Some (processedLines ++ [cleanedLine])
    else Some processedLines
  else Some processedLines.

(** One iteration of the first loop of the discard-timing branch. *)
Definition discardBody (contentLines : list jsstring) (i : nat)
    (textLines : list jsstring) : option (list jsstring) :=
  line ← contentLines !! i;
  if includes ARROW line then Some textLines
  else if includes ALIGN line || includes POSITION line then Some textLines
  else if streq (trim line) [] then Some textLines
  else
    let cleanedLine := cleanLine line in
    if negb (streq (trim cleanedLine) []) then Some (textLines ++ [trim cleanedLine])
    else Some textLines.

(** One iteration of the loop that removes duplicate adjacent lines:
    [if (i === 0 || textLines[i] !== textLines[i - 1]) uniqueLines.push(textLines[i])] *)
Definition uniqueBody (textLines : list jsstring) (i : nat)
    (uniqueLines : list jsstring) : option (list jsstring) :=
  if (i =? 0)%nat || negb (bool_decide (textLines !! i = textLines !! (i - 1)%nat))
  then x ← textLines !! i; Some (uniqueLines ++ [x])
  else Some uniqueLines.

Definition stripVttNonContent (vttContent : jsstring) (preserveTiming : bool)
    : option jsstring :=
  if streq vttContent [] || streq (trim vttContent) [] then Some []
  else
    let lines := splitLines vttContent in
    if (length lines <? 2)%nat then Some []
    else
      first ← lines !! 0%nat;
      if negb (includes WEBVTT first) then Some []
      else
        headerEndIndex ← headerLoop lines (length lines - 1) 1 1;
        let contentLines := drop headerEndIndex lines in
        if preserveTiming then
          processedLines ←
            forRange (preserveBody contentLines) 0 (length contentLines) [];
          Some (joinLines processedLines)
        else
          textLines ←
            forRange (discardBody contentLines) 0 (length contentLines) [];
          uniqueLines ← forRange (uniqueBody textLines) 0 (length textLines) [];
          Some (joinLines uniqueLines).

(** *** The same function without indices

    What the loops compute, line by line; [stripVttNonContent_normalize]
    below proves that the function above returns exactly this. *)

(** The lines pushed for one source line in preserve-timing mode. *)
Definition preserveLine (line : jsstring) : list jsstring :=
  if includes ARROW line then
    match timingMatch line with
    | Some (t1, t2) => [t1 ++ str " --> " ++ t2]
    | None => []
    end
  else if negb (streq (trim line) []) && negb (includes ALIGN line)
          && negb (includes POSITION line) then
    if negb (streq (trim (cleanLine line)) []) then [trim (cleanLine line)] else []
  else [].

(** The lines pushed for one source line in discard-timing mode. *)
Definition discardLine (line : jsstring) : list jsstring :=
  if includes ARROW line then []
  else if includes ALIGN line || includes POSITION line then []
  else if streq (trim line) [] then []
  else if negb (streq (trim (cleanLine line)) []) then [trim (cleanLine line)]
  else [].

(** Keep a line unless it equals the line before it ([prev]). *)
Fixpoint dedupFrom (prev : jsstring) (textLines : list jsstring) : list jsstring :=
  match textLines with
  | [] => []
  | x :: rest =>
      if streq x prev then dedupFrom x rest else x :: dedupFrom x rest
  end.

Definition dedupAdjacent (textLines : list jsstring) : list jsstring :=
  match textLines with
  | [] => []
  | x :: rest => x :: dedupFrom x rest
  end.

(** The index behind the first blank line that is followed by a line with an
    arrow, scanning [rest = lines.slice(i)]; 1 when there is none. *)
Fixpoint headerScan (rest : list jsstring) (i : nat) : nat :=
  match rest with
  | [] => 1%nat
  | l :: rest' =>
      if streq (trim l) [] && match rest' with
                              | next :: _ => includes ARROW next
                              | [] => false
                              end
      then (i + 1)%nat
      else headerScan rest' (i + 1)%nat
  end.

Definition normalize (doc : jsstring) (preserveTiming : bool) : jsstring :=
  if streq (trim doc) [] then []
  else
    match splitLines doc with
    | first :: second :: rest =>
        if includes WEBVTT first then
          let lines := first :: second :: rest in
          let contentLines := drop (headerScan (second :: rest) 1) lines in
          if preserveTiming
          then joinLines (flat_map preserveLine contentLines)
          else joinLines (dedupAdjacent (flat_map discardLine contentLines))
        else []
    | _ => []
    end.

(** *** The properties the normaliser is checked against *)

(** The pattern has no [\s*]: it matches a fixed number of code units. *)
Definition fixedWidth (re : list atom) : bool :=
  forallb (fun a => match a with Spaces => false | _ => true end) re.

(** A document is WebVTT-like when its first line contains the marker. *)
Definition isWebVtt (doc : jsstring) : bool :=
  match splitLines doc with
  | first :: _ => includes WEBVTT first
  | [] => false
  end.

(** No two neighbours of the list are equal. *)
Definition adjacentDistinct (ls : list jsstring) : Prop :=
  forall i x y, ls !! i = Some x -> ls !! (S i) = Some y -> x <> y.

(** The line contains none of [-->], [align:], [position:]. *)
Definition tokenFree (line : jsstring) : bool :=
  negb (includes ARROW line) && negb (includes ALIGN line)
  && negb (includes POSITION line).

(** The line is exactly [HH:MM:SS.mmm --> HH:MM:SS.mmm]. *)
Definition isTimingShape (line : jsstring) : bool :=
  bool_decide
    (matchAtoms (TIMESTAMP ++ literal " --> " ++ TIMESTAMP) line = Some (line, [])).

(** A blank line immediately followed by a line with an arrow, somewhere in
    [lines]. *)
Fixpoint hasCueBoundary (lines : list jsstring) : bool :=
  match lines with
  | [] => false
  | l :: rest =>
      (streq (trim l) [] && match rest with
                            | next :: _ => includes ARROW next
                            | [] => false
                            end)
      || hasCueBoundary rest
  end.

(** Every line of the text is free of the three tokens and is left unchanged
    by the tag removal. *)
Definition stableText (text : jsstring) : bool :=
  forallb (fun u => tokenFree u && streq (cleanLine u) u) (splitLines text).

(** A minimal synthetic document around normalised text: a [WEBVTT] line
    followed by the lines of the text. *)
Definition rewrap (text : jsstring) : jsstring := WEBVTT ++ LF :: text.

(** Discard-timing output without adjacent duplicates and without the three
    tokens. *)
Definition discardOutputTokenFree (doc : jsstring) : Prop :=
  exists out,
    stripVttNonContent doc false = Some out /\
    adjacentDistinct (splitLines out) /\
    forall u, u ∈ splitLines out -> tokenFree u = true.

(** Preserve-timing output in which every line with an arrow has the exact
    timing shape. *)
Definition preserveOutputArrowsShaped (doc : jsstring) : Prop :=
  exists out,
    stripVttNonContent doc true = Some out /\
    forall u, u ∈ splitLines out -> includes ARROW u = true -> isTimingShape u = true.

(** Normalising the re-wrapped discard-timing output gives the output back. *)
Definition discardIdempotent (doc : jsstring) : Prop :=
  exists out,
    stripVttNonContent doc false = Some out /\
    stripVttNonContent (rewrap out) false = Some out.

(** The caption text of the concrete scenario of the specification. *)
Definition scenario : jsstring :=
  str "WEBVTT
Kind: captions
Language: en

00:00:01.000 --> 00:00:02.000
Hello world

00:00:02.000 --> 00:00:03.000
Hello world

00:00:03.000 --> 00:00:04.000
Goodbye".

(** A document with one tag between the pieces of an arrow. *)
Definition splitArrow : jsstring :=
  str "WEBVTT
-<c>->".

(** A document with header lines and no cue. *)
Definition headerOnly : jsstring :=
  str "WEBVTT
Kind: captions
Language: en
Hello".

End Vtt.

Import Vtt.

(** ** Classified failures and bounded retry (errors.ts) *)

Module Errors.

(** An [Error] object: a plain [Error], or a [YouTubeMCPError] with its
    code, its retryable flag and the error it wraps. *)
#[warnings="-register-all"] Inductive JsError :=
  | PlainError (message : jsstring)
  | YouTubeMCPError (message code : jsstring) (retryable : bool)
                    (originalError : option JsError).

(** [error.message] *)
Definition message (e : JsError) : jsstring :=
  match e with
  | PlainError m => m
  | YouTubeMCPError m _ _ _ => m
  end.

(** [error.code], which a plain [Error] does not have. *)
Definition code (e : JsError) : option jsstring :=
  match e with
  | PlainError _ => None
  | YouTubeMCPError _ c _ _ => Some c
  end.

(** [error.retryable], which a plain [Error] does not have. *)
Definition retryable (e : JsError) : option bool :=
  match e with
  | PlainError _ => None
  | YouTubeMCPError _ _ r _ => Some r
  end.

(** [ErrorCodes].  The kinds of the specification are these codes:
    InvalidInput is [INVALID_URL], Unclassified is [UNKNOWN_ERROR]. *)
Definition YT_DLP_NOT_FOUND : jsstring := str "YT_DLP_NOT_FOUND".
Definition VIDEO_NOT_FOUND : jsstring := str "VIDEO_NOT_FOUND".
Definition INVALID_URL : jsstring := str "INVALID_URL".
Definition NETWORK_ERROR : jsstring := str "NETWORK_ERROR".
Definition PERMISSION_DENIED : jsstring := str "PERMISSION_DENIED".
Definition FORMAT_NOT_AVAILABLE : jsstring := str "FORMAT_NOT_AVAILABLE".
Definition SUBTITLES_NOT_AVAILABLE : jsstring := str "SUBTITLES_NOT_AVAILABLE".
Definition CACHE_ERROR : jsstring := str "CACHE_ERROR".
Definition UNKNOWN_ERROR : jsstring := str "UNKNOWN_ERROR".

Definition createMCPError (message code : jsstring) (retryable : bool)
    (originalError : option JsError) : JsError :=
  YouTubeMCPError message code retryable originalError.

(** What a [throw] can carry: an [Error] object, or [undefined] (the value
    of a variable that was never assigned). *)
Inductive Thrown :=
  | Undefined
  | Err (e : JsError).

(** How an evaluation ends. *)
Inductive Completion (A : Type) :=
  | Return (a : A)
  | Throw (t : Thrown).
Arguments Return {A} a.
Arguments Throw {A} t.

(** [String.prototype.toLowerCase] restricted to ASCII letters; it is the
    whole function on ASCII text. *)
Definition toLowerCaseAscii (s : jsstring) : jsstring :=
  map (fun c => if (65 <=? c) && (c <=? 90) then c + 32 else c) s.

Section Classification.

(** [String.prototype.toLowerCase], a built-in with Unicode case mapping. *)
Variable toLowerCase : jsstring -> jsstring.

(** The substrings [handleYtDlpError] looks for, in order. *)
Definition isVideoNotFound (m : jsstring) : bool :=
  includes (str "video not found") m || includes (str "404") m.
Definition isPermission (m : jsstring) : bool :=
  includes (str "sign in to confirm") m || includes (str "age") m.
Definition isNoSubtitles (m : jsstring) : bool :=
  includes (str "no subtitles") m || includes (str "subtitles not available") m.
Definition isFormat (m : jsstring) : bool :=
  includes (str "format not available") m || includes (str "requested format") m.
Definition isNetwork (m : jsstring) : bool :=
  includes (str "network") m || includes (str "connection") m.

Definition handleYtDlpError (error : JsError) (url : jsstring) : JsError :=
  let errorMessage := toLowerCase (message error) in
  if isVideoNotFound errorMessage then
    createMCPError (str "Video not found or unavailable: " ++ url)
      VIDEO_NOT_FOUND false (Some error)
  else if isPermission errorMessage then
    createMCPError (str "Video requires authentication or age verification")
      PERMISSION_DENIED false (Some error)
  else if isNoSubtitles errorMessage then
    createMCPError (str "No subtitles available for this video")
      SUBTITLES_NOT_AVAILABLE false (Some error)
  else if isFormat errorMessage then
    createMCPError (str "Requested format not available for this video")
      FORMAT_NOT_AVAILABLE true (Some error)
  else if isNetwork errorMessage then
    createMCPError (str "Network error occurred while processing video")
      NETWORK_ERROR true (Some error)
  else
    createMCPError (str "Unexpected error: " ++ message error)
      UNKNOWN_ERROR true (Some error).

(** One of the five patterns occurs in the lower-cased message. *)
Definition knownPattern (m : jsstring) : bool :=
  isVideoNotFound m || isPermission m || isNoSubtitles m || isFormat m || isNetwork m.

(** The [catch] block of the tool handlers (index.ts): a [YouTubeMCPError]
    is reported as it is, any other error goes through [handleYtDlpError]. *)
Definition classifyCaught (error : JsError) (url : jsstring) : JsError :=
  match error with
  | YouTubeMCPError _ _ _ _ => error
  | PlainError _ => handleYtDlpError error url
  end.

End Classification.

(** *** [parseTimeToSeconds] (index.ts) *)

Section ParseTime.

(** JavaScript numbers are floating point; the function is kept generic in
    them: [Number] is the conversion of a string (it gives NaN for text that
    is no number), [ofZ] an integer literal. *)
Variable num : Type.
Variable Number : jsstring -> num.
Variable ofZ : Z -> num.
Variable add mul : num -> num -> num.

Definition COLON : N := 58.

Definition parseTimeToSeconds (timeStr : jsstring) : Completion num :=
  let parts := map Number (splitOn COLON timeStr) in
  match parts with
  | [m; s] => Return (add (mul m (ofZ 60)) s)
  | [h; m; s] => Return (add (add (mul h (ofZ 3600)) (mul m (ofZ 60))) s)
  | _ =>
      Throw (Err (PlainError
        (str "Invalid time format: " ++ timeStr ++ str ". Use MM:SS or HH:MM:SS")))
  end.

End ParseTime.

(** A time of the form MM:SS or HH:MM:SS: two or three parts of one or two
    digits each. *)
Definition isTimePart (p : jsstring) : bool :=
  forallb isDigit p && (1 <=? length p)%nat && (length p <=? 2)%nat.

Definition validTime (timeStr : jsstring) : bool :=
  let parts := splitOn COLON timeStr in
  forallb isTimePart parts && ((length parts =? 2)%nat || (length parts =? 3)%nat).

(** A malformed time string fails with a failure that the handler classifies
    as InvalidInput and non-retryable. *)
Definition malformedTimeIsInvalidInput (toLowerCase : jsstring -> jsstring)
    (num : Type) (Number : jsstring -> num) (ofZ : Z -> num)
    (add mul : num -> num -> num) (timeStr url : jsstring) : Prop :=
  validTime timeStr = false ->
  exists e,
    parseTimeToSeconds num Number ofZ add mul timeStr = Throw (Err e) /\
    code (classifyCaught toLowerCase e url) = Some INVALID_URL /\
    retryable (classifyCaught toLowerCase e url) = Some false.

(** *** [withRetry] *)

Section Retry.

(** [W] is the state of the world the operation runs in, [T] the type of its
    result.  An asynchronous operation is a function of the world: it
    completes with a value or a rejection and leaves a new world. *)
Context {W T : Type}.

(** What awaiting a timer of the given number of milliseconds does to the
    world. *)
Variable setTimeout : Z -> W -> W.

Definition Operation : Type := W -> Completion T * W.

(** What [withRetry] did, in order. *)
Inductive Event :=
  | Invoked
  | Waited (ms : Z).

Fixpoint invocations (log : list Event) : nat :=
  match log with
  | [] => O
  | Invoked :: log' => S (invocations log')
  | Waited _ :: log' => invocations log'
  end.

Definition waits (log : list Event) : list Z :=
  flat_map (fun ev => match ev with Waited ms => [ms] | Invoked => [] end) log.

(** [error instanceof YouTubeMCPError && !error.retryable] *)
Definition isNonRetryable (error : Thrown) : bool :=
  match error with
  | Err (YouTubeMCPError _ _ r _) => negb r
  | _ => false
  end.

(** The message Node gives the TypeError of a property read on [undefined]. *)
Definition READ_OF_UNDEFINED : jsstring :=
  str "Cannot read properties of undefined (reading 'message')".

(** The [throw createMCPError(...)] of the last attempt.  Reading
    [lastError.message] raises a TypeError when the operation rejected with
    [undefined]. *)
Definition exhausted (maxRetries : Z) (lastError : Thrown) : Thrown :=
  match lastError with
  | Err e =>
      Err (createMCPError
             (str "Operation failed after " ++ numberToString maxRetries
              ++ str " attempts: " ++ message e)
             UNKNOWN_ERROR false (Some e))
  | Undefined => Err (PlainError READ_OF_UNDEFINED)
  end.

(** The [for] loop, from the test of its condition for [attempt] on.
    [fuel] bounds the number of iterations; [None] stands for running out of
    it, which [withRetry] never does ([withRetry_returns]). *)
Fixpoint attempts (fuel : nat) (operation : Operation) (maxRetries delay : Z)
    (attempt : Z) (lastError : Thrown) (w : W) (log : list Event)
    : option (Completion T * W * list Event) :=
  if (attempt <=? maxRetries)%Z then
    match fuel with
    | O => None
    | S fuel' =>
        match operation w with
        | (Return v, w') => Some (Return v, w', log ++ [Invoked])
        | (Throw error, w') =>
            if isNonRetryable error then Some (Throw error, w', log ++ [Invoked])
            else if (attempt =? maxRetries)%Z then
              Some (Throw (exhausted maxRetries error), w', log ++ [Invoked])
            else
              attempts fuel' operation maxRetries delay (attempt + 1)%Z error
                (setTimeout (delay * attempt)%Z w')
                (log ++ [Invoked; Waited (delay * attempt)%Z])
        end
    end
  else Some (Throw lastError, w, log).

(** [withRetry(operation, maxRetries = 3, delay = 1000)]; an argument left
    out is [None].  The attempt budget is an integer. *)
Definition withRetry (operation : Operation) (maxRetries delay : option Z) (w : W)
    : option (Completion T * W * list Event) :=
  let maxRetries := default 3%Z maxRetries in
  let delay := default 1000%Z delay in
  attempts (Z.to_nat maxRetries) operation maxRetries delay 1 Undefined w [].

(** Attempts [attempt] to [maxRetries] all fail without a non-retryable
    classification, from the world [w] on with the waits of [withRetry]
    between them; the last of them rejects with the error [last] and leaves
    the world [w']. *)
Inductive allFail (operation : Operation) (maxRetries delay : Z)
    : Z -> W -> JsError -> W -> Prop :=
  | allFail_last w last w' :
      operation w = (Throw (Err last), w') ->
      isNonRetryable (Err last) = false ->
      allFail operation maxRetries delay maxRetries w last w'
  | allFail_more attempt w error w1 last w' :
      (attempt < maxRetries)%Z ->
      operation w = (Throw error, w1) ->
      isNonRetryable error = false ->
      allFail operation maxRetries delay (attempt + 1)%Z
        (setTimeout (delay * attempt)%Z w1) last w' ->
      allFail operation maxRetries delay attempt w last w'.

End Retry.

(** An operation on a world that only counts the invocations: it rejects
    with a plain network error until it has been invoked [failures] times,
    then resolves with 42. *)
Definition flaky (failures : nat) : @Operation nat Z :=
  fun n =>
    if (n <? failures)%nat
    then (Throw (Err (PlainError (str "network unreachable"))), S n)
    else (Return 42%Z, S n).

(** An operation that rejects with a non-retryable classified failure. *)
Definition missingTool : @Operation nat Z :=
  fun n =>
    (Throw (Err (YouTubeMCPError (str "yt-dlp is not installed")
                   YT_DLP_NOT_FOUND false None)), S n).

(** Timers leave the counting world as it is. *)
Definition noWait : Z -> nat -> nat := fun _ n => n.

End Errors.

Import Errors.

(** ** The file-backed TTL cache (cache.ts) *)

Module Cache.

(** [CacheEntry<T>] *)
Record CacheEntry (T : Type) := {
  data : T;
  timestamp : Z;
  expiresAt : Z;
}.
Arguments data {T} _.
Arguments timestamp {T} _.
Arguments expiresAt {T} _.

(** What the cache sees of the world: the clock, in milliseconds, the
    cache directory, and the longest file name the file system of that
    directory accepts (NAME_MAX: 255 bytes on ext4, for instance).  [dir] is
    [None] when the directory does not exist; otherwise it holds the content
    of each file of the directory under the name of the file. *)
Record World := {
  clock : Z;
  dir : option (gmap jsstring jsstring);
  nameMax : nat;
}.

(** [Date.now()] *)
Definition Date_now (w : World) : Z := clock w.

(** Time passes. *)
Definition advance (ms : Z) (w : World) : World :=
  {| clock := clock w + ms; dir := dir w; nameMax := nameMax w |}.

(** The file system accepts the name.  The names the cache uses are made by
    [getCacheFile] and consist of ASCII characters, one byte each, so that
    the length of the name is its length in bytes.  A system call on a
    longer name fails (ENAMETOOLONG). *)
Definition nameFits (file : jsstring) (w : World) : bool :=
  (length file <=? nameMax w)%nat.

(** The content of a file of the directory, if there is one; a name the
    file system does not accept is the name of no file. *)
Definition lookupFile (file : jsstring) (w : World) : option jsstring :=
  files ← dir w; if nameFits file w then files !! file else None.

(** *** node:fs, on the files of the cache directory

    A result [None] stands for a thrown exception. *)

Definition existsSyncDir (w : World) : bool :=
  match dir w with
  | Some _ => true
  | None => false
  end.

Definition existsSync (file : jsstring) (w : World) : bool :=
  match lookupFile file w with
  | Some _ => true
  | None => false
  end.

Definition mkdirSync (w : World) : World :=
  match dir w with
  | Some _ => w
  | None => {| clock := clock w; dir := Some ∅; nameMax := nameMax w |}
  end.

Definition readFileSync (file : jsstring) (w : World) : option jsstring :=
  lookupFile file w.

(** It fails when the directory does not exist and when the file system
    does not accept the name.  Failures that depend on more than the
    directory and the name (a full disk, a missing permission) are not
    modelled. *)
Definition writeFileSync (file content : jsstring) (w : World) : option World :=
  files ← dir w;
  if nameFits file w
  then Some {| clock := clock w; dir := Some (<[file := content]> files);
               nameMax := nameMax w |}
  else None.

Definition unlinkSync (file : jsstring) (w : World) : option World :=
  files ← dir w;
  _ ← lookupFile file w;
  Some {| clock := clock w; dir := Some (delete file files); nameMax := nameMax w |}.

(** The names of the files of the directory. *)
Definition readdirSync (w : World) : option (list jsstring) :=
  files ← dir w;
  Some (filter (fun file => nameFits file w) (map fst (map_to_list files))).

(** *** SimpleCache *)

(** [this.defaultTTL]: 24 hours. *)
Definition defaultTTL : Z := 24 * 60 * 60 * 1000.

(** The constructor: [ensureCacheDir]. *)
Definition ensureCacheDir (w : World) : World :=
  if negb (existsSyncDir w) then mkdirSync w else w.

(** [[a-zA-Z0-9_-]] *)
Definition isSafeKeyUnit (c : N) : bool :=
  ((97 <=? c) && (c <=? 122)) || ((65 <=? c) && (c <=? 90))
  || ((48 <=? c) && (c <=? 57)) || (c =? 95) || (c =? 45).

(** The name, in the cache directory, of the file of a key:
    [key.replace(/[^a-zA-Z0-9_-]/g, '_')] followed by [.json]. *)
Definition getCacheFile (key : jsstring) : jsstring :=
  let safeKey := map (fun c => if isSafeKeyUnit c then c else 95) key in
  safeKey ++ str ".json".

(** [ttl || this.defaultTTL], for an optional integer [ttl]. *)
Definition ttlOrDefault (ttl : option Z) : Z :=
  match ttl with
  | Some t => if (t =? 0)%Z then defaultTTL else t
  | None => defaultTTL
  end.

Section SimpleCache.

(** The payload type, and [JSON.stringify] and [JSON.parse] at the type
    [CacheEntry<T>] the source gives the parsed value; [JSON_parse] is
    [None] when [JSON.parse] throws. *)
Context {T : Type}.
Variable JSON_stringify : CacheEntry T -> jsstring.
Variable JSON_parse : jsstring -> option (CacheEntry T).

(** [get]: the result is [None] for [null]. *)
Definition get (key : jsstring) (w : World) : option T * World :=
  let cacheFile := getCacheFile key in
  let tried : option (option T * World) :=
    if negb (existsSync cacheFile w) then Some (None, w)
    else
      content ← readFileSync cacheFile w;
      entry ← JSON_parse content;
      if (Date_now w >? expiresAt entry)%Z then
        w' ← unlinkSync cacheFile w;
        Some (None, w')
      else Some (Some (data entry), w)
  in
  match tried with
  | Some r => r
  | None =>
      (* catch: the file is corrupted, remove it; errors of that are ignored *)
      let w' :=
        if existsSync cacheFile w then default w (unlinkSync cacheFile w) else w in
      (None, w')
  end.

Definition set (key : jsstring) (value : T) (ttl : option Z) (w : World) : World :=
  let cacheFile := getCacheFile key in
  let entry :=
    {| data := value;
       timestamp := Date_now w;
       expiresAt := Date_now w + ttlOrDefault ttl |} in
  match writeFileSync cacheFile (JSON_stringify entry) w with
  | Some w' => w'
  | None => w  (* catch: console.warn *)
  end.

Definition delete (key : jsstring) (w : World) : World :=
  let cacheFile := getCacheFile key in
  if existsSync cacheFile w then default w (unlinkSync cacheFile w) else w.

(** The loop of [clear]; an exception ends it. *)
Fixpoint clearLoop (files : list jsstring) (w : World) : World :=
  match files with
  | [] => w
  | file :: rest =>
      if endsWith (str ".json") file then
        match unlinkSync file w with
        | Some w' => clearLoop rest w'
        | None => w
        end
      else clearLoop rest w
  end.

Definition clear (w : World) : World :=
  if existsSyncDir w then
    match readdirSync w with
    | Some files => clearLoop files w
    | None => w
    end
  else w.

(** The loop of [cleanup].  The inner [try] reads and parses the file and
    removes it when it is expired; its [catch] removes the file; an
    exception of that [catch] reaches the outer [catch], which ends the
    sweep. *)
Fixpoint cleanupLoop (files : list jsstring) (now : Z) (w : World) : World :=
  match files with
  | [] => w
  | file :: rest =>
      if negb (endsWith (str ".json") file) then cleanupLoop rest now w
      else
        let tried : option World :=
          content ← readFileSync file w;
          entry ← JSON_parse content;
          if (now >? expiresAt entry)%Z then unlinkSync file w else Some w
        in
        match tried with
        | Some w' => cleanupLoop rest now w'
        | None =>
            match unlinkSync file w with
            | Some w' => cleanupLoop rest now w'
            | None => w
            end
        end
  end.

Definition cleanup (w : World) : World :=
  if negb (existsSyncDir w) then w
  else
    match readdirSync w with
    | Some files => cleanupLoop files (Date_now w) w
    | None => w
    end.

End SimpleCache.

(** *** A small serialisation of entries with an integer payload

    It stands in for JSON where a concrete one is needed: the three
    integers of the entry in decimal, separated by commas. *)

Definition COMMA : N := 44.

Fixpoint digitsToZ (acc : Z) (s : jsstring) : option Z :=
  match s with
  | [] => Some acc
  | c :: s' =>
      if isDigit c then digitsToZ (acc * 10 + Z.of_N (c - 48)) s' else None
  end.

Definition parseInteger (s : jsstring) : option Z :=
  match s with
  | [] => None
  | c :: s' =>
      if c =? 45 then
        match s' with
        | [] => None
        | _ => Z.opp <$> digitsToZ 0 s'
        end
      else digitsToZ 0 s
  end.

Definition stringifyEntry (e : CacheEntry Z) : jsstring :=
  numberToString (data e) ++ COMMA :: numberToString (timestamp e)
  ++ COMMA :: numberToString (expiresAt e).

Definition parseEntry (s : jsstring) : option (CacheEntry Z) :=
  match splitOn COMMA s with
  | [d; t; x] =>
      d' ← parseInteger d; t' ← parseInteger t; x' ← parseInteger x;
      Some {| data := d'; timestamp := t'; expiresAt := x' |}
  | _ => None
  end.

(** Time 1000 on a file system with names of up to 255 bytes, before the
    cache directory is made, and with a fresh cache directory. *)
Definition noCacheDir : World := {| clock := 1000; dir := None; nameMax := 255 |}.

Definition freshWorld : World := ensureCacheDir noCacheDir.

Definition videoKey : jsstring := str "https://youtu.be/dQw4w9WgXcQ".

(** A key of 300 characters: its file name has 305. *)
Definition longKey : jsstring := repeat 97 300.

(** The first half of the specification of the cache at a key, a value and
    a ttl: [get] right after [set] returns the value. *)
Definition getAfterSetReturns {T : Type} (JSON_stringify : CacheEntry T -> jsstring)
    (JSON_parse : jsstring -> option (CacheEntry T))
    (key : jsstring) (value : T) (ttl : Z) (w : World) : Prop :=
  (get JSON_parse key (set JSON_stringify key value (Some ttl) w)).1 = Some value.

End Cache.

Import Cache.

(** ** Further definitions: what the cache sweeps keep *)

(** [key.replace(/[^a-zA-Z0-9_-]/g, '_')], the stem of [getCacheFile]. *)
Definition sanitizeKey (key : jsstring) : jsstring :=
  map (fun c => if isSafeKeyUnit c then c else 95) key.

(** A file that [cleanup] run at time [now] leaves in place: one whose name
    does not end in [.json], or whose content parses to an entry that has
    not expired. *)
Definition keptByCleanup {T : Type} (JSON_parse : jsstring -> option (CacheEntry T))
    (now : Z) (file content : jsstring) : bool :=
  negb (endsWith (str ".json") file) ||
  match JSON_parse content with
  | Some entry => negb (now >? expiresAt entry)%Z
  | None => false
  end.

(** ** Further definitions: the schedule of [withRetry] *)

(** The log of [n] invocations, the first of them attempt [attempt], with the
    waits of [withRetry] between them. *)
Fixpoint scheduleFrom (delay attempt : Z) (n : nat) : list Event :=
  match n with
  | O => []
  | S n' =>
      match n' with
      | O => [Invoked]
      | S _ => Invoked :: Waited (delay * attempt)%Z :: scheduleFrom delay (attempt + 1)%Z n'
      end
  end.

Section RetrySuccess.

Context {W T : Type}.
Variable setTimeout : Z -> W -> W.

(** From attempt [attempt] and the world [w] on, the operation fails without
    a non-retryable classification until its [n]-th invocation, which stays
    within the budget and resolves with [v], leaving the world [w']. *)
Inductive succeedsAfter (operation : @Operation W T) (maxRetries delay : Z)
    : Z -> W -> T -> W -> nat -> Prop :=
  | succeeds_now attempt w v w' :
      (attempt <= maxRetries)%Z ->
      operation w = (Return v, w') ->
      succeedsAfter operation maxRetries delay attempt w v w' 1
  | succeeds_later attempt w error w1 v w' n :
      (attempt < maxRetries)%Z ->
      operation w = (Throw error, w1) ->
      isNonRetryable error = false ->
      succeedsAfter operation maxRetries delay (attempt + 1)%Z
        (setTimeout (delay * attempt)%Z w1) v w' n ->
      succeedsAfter operation maxRetries delay attempt w v w' (S n).

End RetrySuccess.

(** ** Further definitions: timestamps *)

(** The text is exactly one [HH:MM:SS.mmm] timestamp. *)
Definition isTimestamp (t : jsstring) : bool :=
  bool_decide (matchAtoms TIMESTAMP t = Some (t, [])).

(** The code unit [c] is one the atom matches. *)
Definition atomMatches (a : atom) (c : N) : Prop :=
  match a with
  | Digit => isDigit c = true
  | Lit x => c = x
  | Spaces => False
  end.

(** The code unit [<], with which every tag begins. *)
Definition LT : N := 60.

(** ** Further definitions: helpers and a handler of index.ts *)

Module Index.

(** [s.indexOf(ch)] from position [i] on, for one code unit; -1 when there
    is none. *)
Fixpoint indexOfFrom (c : N) (s : jsstring) (i : Z) : Z :=
  match s with
  | [] => (-1)%Z
  | x :: s' => if x =? c then i else indexOfFrom c s' (i + 1)%Z
  end.

Definition indexOf (c : N) (s : jsstring) : Z := indexOfFrom c s 0.

(** [s.lastIndexOf(ch)] *)
Fixpoint lastIndexOfFrom (c : N) (s : jsstring) (i : Z) : Z :=
  match s with
  | [] => (-1)%Z
  | x :: s' =>
      let later := lastIndexOfFrom c s' (i + 1)%Z in
      if (later =? -1)%Z then (if x =? c then i else (-1)%Z) else later
  end.

Definition lastIndexOf (c : N) (s : jsstring) : Z := lastIndexOfFrom c s 0.

(** [s.substring(a, b)]: both ends are clamped to the string and swapped
    when they are out of order. *)
Definition substring (s : jsstring) (a b : Z) : jsstring :=
  let len := Z.of_nat (length s) in
  let a' := Z.max 0 (Z.min a len) in
  let b' := Z.max 0 (Z.min b len) in
  let from := Z.min a' b' in
  let to := Z.max a' b' in
  take (Z.to_nat (to - from)) (drop (Z.to_nat from) s).

Definition LBRACE : N := 123.
Definition RBRACE : N := 125.
Definition QUOTE : N := 34.

(** The inside of a small JSON object: a title between quotes. *)
Definition sampleBody : jsstring :=
  QUOTE :: str "title" ++ QUOTE :: str ": " ++ QUOTE :: str "a" ++ [QUOTE].

(** The extraction of the JSON text from the output of yt-dlp, as the
    handlers do it in line before [JSON.parse]. *)
Definition extractJsonText (result : jsstring) : jsstring :=
  let jsonText := trim result in
  let firstBrace := indexOf LBRACE jsonText in
  let lastBrace := lastIndexOf RBRACE jsonText in
  if negb (firstBrace =? -1)%Z && negb (lastBrace =? -1)%Z && (lastBrace >? firstBrace)%Z
  then substring jsonText firstBrace (lastBrace + 1)%Z
  else jsonText.

(** [s.padStart(2, '0')] *)
Definition padStart2 (s : jsstring) : jsstring :=
  repeat (N_of_ascii "0") (2 - length s) ++ s.

(** [Number.MAX_SAFE_INTEGER], 2^53 - 1. *)
Definition MAX_SAFE_INTEGER : Z := 9007199254740991.

(** [formatSecondsToTime], for a whole number of seconds of magnitude up to
    [MAX_SAFE_INTEGER] only.  The arithmetic of the source is floating
    point.  On such a number [%] is exact, the remainder with the sign of
    the dividend; the quotient by 3600 is below 2^42 and rounded by less
    than 1/3600, the least distance of an inexact quotient from the next
    integer, so [Math.floor(x / y)] is the floor division; and hours,
    minutes and seconds print in decimal.  Beyond [MAX_SAFE_INTEGER] the
    source is inexact and, from 1e21 on, prints in exponent form: this
    definition says nothing of it there. *)
Definition formatSecondsToTime (seconds : Z) : jsstring :=
  let hours := (seconds / 3600)%Z in
  let minutes := (Z.rem seconds 3600 / 60)%Z in
  let secs := Z.rem seconds 60 in
  if (hours >? 0)%Z then
    numberToString hours ++ COLON :: padStart2 (numberToString minutes)
    ++ COLON :: padStart2 (numberToString secs)
  else
    numberToString minutes ++ COLON :: padStart2 (numberToString secs).

(** What a tool handler returns: the text of its one content item, and
    whether [isError] is set. *)
Record ToolResponse := {
  text : jsstring;
  isError : bool;
}.

Definition YT_DLP_MISSING : jsstring :=
  str "yt-dlp is not installed. Please install yt-dlp first: https://github.com/yt-dlp/yt-dlp".

(** The arguments of the tool [download_subtitles]; a property the caller
    leaves out is [None]. *)
Record SubtitleArgs := {
  url : jsstring;
  languages : option (list jsstring);
  formats : option (list jsstring);
  subtitle_types : option (list jsstring);
  time_start : option jsstring;
  time_end : option jsstring;
  include_metadata : option bool;
}.

(** An optional string used as a condition: [undefined] and the empty
    string are falsy. *)
Definition truthy (s : option jsstring) : bool :=
  match s with
  | Some (_ :: _) => true
  | _ => false
  end.

(** [array.includes(x)] on an array of strings. *)
Definition arrayIncludes (x : jsstring) (array : list jsstring) : bool :=
  existsb (streq x) array.

(** [array.join(sep)] on an array of strings. *)
Fixpoint join (sep : jsstring) (array : list jsstring) : jsstring :=
  match array with
  | [] => []
  | [x] => x
  | x :: rest => x ++ sep ++ join sep rest
  end.

(** [file.endsWith('.vtt') || file.endsWith('.srt')] *)
Definition isSubtitleFile (file : jsstring) : bool :=
  endsWith (str ".vtt") file || endsWith (str ".srt") file.

(** What [handleDownloadSubtitles] reports of one subtitle file: its name,
    marked as converted when several formats were asked for and the first is
    not [vtt], a rule, and its text without timing. *)
Definition subtitleSection (formats : list jsstring) (file fileContent : jsstring)
    : jsstring :=
  (if (1 <? length formats)%nat && negb (streq (default [] (head formats)) (str "vtt"))
   then file ++ str " (converted to text)" else file)
  ++ str "
====================
" ++ normalize fileContent false ++ str "

".

Definition NO_SUBTITLES_DOWNLOADED : jsstring :=
  str "No subtitles were downloaded. They may not be available for this video or in the requested languages.".

Section Handlers.

(** The world of a handler, the timers of [withRetry], and what the handler
    calls outside this repository: [String.prototype.toLowerCase],
    [spawnPromise(command, args, { cwd })], [fs.mkdtempSync] and
    [rimraf.sync]. *)
Context {W : Type}.
Variable setTimeout : Z -> W -> W.
Variable toLowerCase : jsstring -> jsstring.
Variable spawnPromise : jsstring -> list jsstring -> jsstring -> W -> Completion jsstring * W.
Variable mkdtempSync : W -> Completion jsstring * W.
Variable rimrafSync : jsstring -> W -> Completion unit * W.

(** [err as Error], used as the [originalError] of a new error. *)
Definition asOriginal (err : Thrown) : option JsError :=
  match err with
  | Err e => Some e
  | Undefined => None
  end.

(** The operation of the availability check: a failure of the child
    process becomes a non-retryable [YT_DLP_NOT_FOUND]. *)
Definition checkYtDlp (tempDir : jsstring) : @Operation W unit :=
  fun w =>
    match spawnPromise (str "yt-dlp") [str "--version"; str "--no-warnings"] tempDir w with
    | (Return _, w') => (Return tt, w')
    | (Throw err, w') =>
        (Throw (Err (YouTubeMCPError YT_DLP_MISSING YT_DLP_NOT_FOUND false (asOriginal err))),
         w')
    end.

Definition listSubs (url tempDir : jsstring) : @Operation W jsstring :=
  fun w =>
    spawnPromise (str "yt-dlp")
      [str "--list-subs"; str "--no-download"; str "--no-warnings"; url] tempDir w.

(** The [catch] block of a handler.  A [YouTubeMCPError] is reported with
    its message, any other error with the message of its classification;
    for a thrown [undefined], reading [error.message] raises a TypeError. *)
Definition catchBlock (error : Thrown) (url : jsstring) : Completion ToolResponse :=
  match error with
  | Err e =>
      Return {| text := str "Error: " ++ message (classifyCaught toLowerCase e url);
                isError := true |}
  | Undefined => Throw (Err (PlainError READ_OF_UNDEFINED))
  end.

(** [handleListAvailableSubtitles]: the temporary directory is made before
    the [try]; the [finally] removes it on every path.  The log holds the
    invocations and waits of the two [withRetry] calls, in order. *)
Definition handleListAvailableSubtitles (url : jsstring) (w : W)
    : option (Completion ToolResponse * W * list Event) :=
  match mkdtempSync w with
  | (Throw t, w1) => Some (Throw t, w1, [])
  | (Return tempDir, w1) =>
      '(checked, w2, log1) ← withRetry setTimeout (checkYtDlp tempDir) None None w1;
      '(body, w3, log) ←
        match checked with
        | Throw t => Some (Throw t, w2, log1)
        | Return _ =>
            '(listed, w3, log2) ←
              withRetry setTimeout (listSubs url tempDir) None None w2;
            match listed with
            | Return result =>
                Some (Return {| text := str "Available Subtitles:
" ++ result;
                                isError := false |}, w3, log1 ++ log2)
            | Throw t => Some (Throw t, w3, log1 ++ log2)
            end
        end;
      let caught :=
        match body with
        | Return response => Return response
        | Throw t => catchBlock t url
        end in
      match rimrafSync tempDir w3 with
      | (Return _, w4) => Some (caught, w4, log)
      | (Throw t, w4) => Some (Throw t, w4, log)
      end
  end.

(** *** [handleDownloadSubtitles]

    Numbers are floating point and kept abstract, as for
    [parseTimeToSeconds]: [isTruthy] is the use of a number as a condition
    (false for 0 and NaN), [geq] is [>=], [numToString] the conversion of a
    number in a template.  What the handler calls outside this repository
    besides: [fs.readdirSync], [fs.readFileSync(..., 'utf8')] and
    [path.join].  [describeVideo] stands for [JSON.parse] of the metadata
    and the two values the template reads off the parsed object, as text:
    [videoInfo.title] and [formatSecondsToTime(videoInfo.duration || 0)];
    it throws when the text is no JSON or the parsed value has no
    properties.  [thrownToString] is the conversion of a caught value in a
    template. *)
Variable num : Type.
Variable Number : jsstring -> num.
Variable ofZ : Z -> num.
Variable add mul : num -> num -> num.
Variable isTruthy : num -> bool.
Variable geq : num -> num -> bool.
Variable numToString : num -> jsstring.
Variable fs_readdirSync : jsstring -> W -> Completion (list jsstring) * W.
Variable fs_readFileSync : jsstring -> W -> Completion jsstring * W.
Variable path_join : jsstring -> jsstring -> jsstring.
Variable describeVideo : jsstring -> Completion (jsstring * jsstring).
Variable thrownToString : Thrown -> jsstring.

(** The block [if (time_start || time_end) { ... }]: the arguments it adds
    to those of yt-dlp.  An end that is left out, is 0 or is NaN is no end. *)
Definition timeRangeArgs (time_start time_end : option jsstring)
    : Completion (list jsstring) :=
  if truthy time_start || truthy time_end then
    let parsedStart :=
      match time_start with
      | Some (c :: s) => parseTimeToSeconds num Number ofZ add mul (c :: s)
      | _ => Return (ofZ 0)
      end in
    match parsedStart with
    | Throw t => Throw t
    | Return startSeconds =>
        let parsedEnd :=
          match time_end with
          | Some (c :: s) =>
              match parseTimeToSeconds num Number ofZ add mul (c :: s) with
              | Return v => Return (Some v)
              | Throw t => Throw t
              end
          | _ => Return None
          end in
        match parsedEnd with
        | Throw t => Throw t
        | Return endSeconds =>
            let hasEnd :=
              match endSeconds with
              | Some v => isTruthy v
              | None => false
              end in
            if hasEnd && geq startSeconds (default (ofZ 0) endSeconds) then
              Throw (Err (YouTubeMCPError (str "Start time must be before end time")
                            UNKNOWN_ERROR false None))
            else
              Return [str "--download-sections";
                      str "*" ++ numToString startSeconds ++ str "-"
                      ++ (if hasEnd then numToString (default (ofZ 0) endSeconds)
                          else str "inf")]
        end
    end
  else Return [].

(** The arguments of yt-dlp, built at the start of the [try] block. *)
Definition buildYtDlpArgs (args : SubtitleArgs) : Completion (list jsstring) :=
  let languages := default [str "en"] (languages args) in
  let formats := default [str "vtt"] (formats args) in
  let subtitle_types := default [str "manual"; str "auto"] (subtitle_types args) in
  let ytDlpArgs := [str "--skip-download"] in
  let ytDlpArgs :=
    if arrayIncludes (str "manual") subtitle_types
    then ytDlpArgs ++ [str "--write-subs"] else ytDlpArgs in
  let ytDlpArgs :=
    if arrayIncludes (str "auto") subtitle_types
    then ytDlpArgs ++ [str "--write-auto-subs"] else ytDlpArgs in
  let ytDlpArgs :=
    if arrayIncludes (str "live_chat") subtitle_types
    then ytDlpArgs ++ [str "--write-subs"] else ytDlpArgs in
  let languages :=
    if arrayIncludes (str "live_chat") subtitle_types
    then languages ++ [str "live_chat"] else languages in
  let ytDlpArgs :=
    if arrayIncludes (str "all") languages
    then ytDlpArgs ++ [str "--sub-langs"; str "all"]
    else ytDlpArgs ++ [str "--sub-langs"; join (str ",") languages] in
  let ytDlpArgs :=
    match formats with
    | [format] => ytDlpArgs ++ [str "--sub-format"; format]
    | _ => ytDlpArgs ++ [str "--sub-format"; str "vtt"]
    end in
  match timeRangeArgs (time_start args) (time_end args) with
  | Throw t => Throw t
  | Return range => Return (ytDlpArgs ++ range ++ [url args])
  end.

Definition downloadSubs (ytDlpArgs : list jsstring) (tempDir : jsstring)
    : @Operation W jsstring :=
  fun w => spawnPromise (str "yt-dlp") ytDlpArgs tempDir w.

Definition dumpJson (url tempDir : jsstring) : @Operation W jsstring :=
  fun w =>
    spawnPromise (str "yt-dlp")
      [str "--dump-json"; str "--no-download"; str "--no-warnings"; url] tempDir w.

(** The block [if (include_metadata) { try { ... } catch (err) { ... } }]:
    the text of [metadata].  Nothing is thrown past its [catch]. *)
Definition videoMetadata (args : SubtitleArgs) (tempDir : jsstring) (w : W)
    : option (jsstring * W * list Event) :=
  if default true (include_metadata args) then
    '(metadataResult, w', log) ←
      withRetry setTimeout (dumpJson (url args) tempDir) None None w;
    let described :=
      match metadataResult with
      | Throw err => Throw err
      | Return result => describeVideo (extractJsonText result)
      end in
    let metadata :=
      match described with
      | Return (title, duration) =>
          str "Video: " ++ title ++ str "
Duration: " ++ duration ++ str "
Time Range: "
          ++ (if truthy (time_start args) then default [] (time_start args)
              else str "0:00")
          ++ str " - "
          ++ (if truthy (time_end args) then default [] (time_end args) else duration)
          ++ str "

"
      | Throw err =>
          str "Could not retrieve video metadata: " ++ thrownToString err ++ str "

"
      end in
    Some (metadata, w', log)
  else Some ([], w, []).

(** The loop over the subtitle files, from the text gathered so far. *)
Fixpoint readSubtitleFiles (formats : list jsstring) (tempDir : jsstring)
    (subtitleFiles : list jsstring) (content : jsstring) (w : W)
    : option (Completion jsstring * W) :=
  match subtitleFiles with
  | [] => Some (Return content, w)
  | file :: rest =>
      match fs_readFileSync (path_join tempDir file) w with
      | (Throw t, w') => Some (Throw t, w')
      | (Return fileContent, w') =>
          cleanedContent ← stripVttNonContent fileContent false;
          let heading :=
            if (1 <? length formats)%nat && negb (streq (default [] (head formats)) (str "vtt"))
            then file ++ str " (converted to text)" else file in
          readSubtitleFiles formats tempDir rest
            (content ++ heading ++ str "
====================
" ++ cleanedContent ++ str "

") w'
      end
  end.

(** The [try] block, from the world in which the temporary directory
    exists.  The time range is read while the arguments of yt-dlp are
    built, before the first [withRetry]. *)
Definition downloadSubtitlesBody (args : SubtitleArgs) (tempDir : jsstring) (w : W)
    : option (Completion ToolResponse * W * list Event) :=
  match buildYtDlpArgs args with
  | Throw t => Some (Throw t, w, [])
  | Return ytDlpArgs =>
      '(downloaded, w1, log1) ←
        withRetry setTimeout (downloadSubs ytDlpArgs tempDir) None None w;
      match downloaded with
      | Throw t => Some (Throw t, w1, log1)
      | Return _ =>
          '(metadata, w2, log2) ← videoMetadata args tempDir w1;
          match fs_readdirSync tempDir w2 with
          | (Throw t, w3) => Some (Throw t, w3, log1 ++ log2)
          | (Return files, w3) =>
              let subtitleFiles := List.filter isSubtitleFile files in
              match subtitleFiles with
              | [] =>
                  Some (Throw (Err (YouTubeMCPError NO_SUBTITLES_DOWNLOADED
                                      SUBTITLES_NOT_AVAILABLE true None)),
                        w3, log1 ++ log2)
              | _ =>
                  '(read, w4) ←
                    readSubtitleFiles (default [str "vtt"] (formats args)) tempDir
                      subtitleFiles [] w3;
                  match read with
                  | Throw t => Some (Throw t, w4, log1 ++ log2)
                  | Return content =>
                      Some (Return {| text := metadata ++ str "Downloaded Subtitles:
" ++ content;
                                      isError := false |}, w4, log1 ++ log2)
                  end
              end
          end
      end
  end.

(** [handleDownloadSubtitles]: the temporary directory is made before the
    [try]; the [catch] turns a failure into a response; the [finally]
    removes the directory on every path.  The log holds the invocations and
    waits of the [withRetry] calls, in order. *)
Definition handleDownloadSubtitles (args : SubtitleArgs) (w : W)
    : option (Completion ToolResponse * W * list Event) :=
  match mkdtempSync w with
  | (Throw t, w1) => Some (Throw t, w1, [])
  | (Return tempDir, w1) =>
      '(body, w2, log) ← downloadSubtitlesBody args tempDir w1;
      let caught :=
        match body with
        | Return response => Return response
        | Throw t => catchBlock t (url args)
        end in
      match rimrafSync tempDir w2 with
      | (Return _, w3) => Some (caught, w3, log)
      | (Throw t, w3) => Some (Throw t, w3, log)
      end
  end.

End Handlers.

(** A machine without yt-dlp, on a world that counts the child processes
    started: every start fails. *)
Definition spawnFails : jsstring -> list jsstring -> jsstring -> nat -> Completion jsstring * nat :=
  fun _ _ _ n => (Throw (Err (PlainError (str "spawn yt-dlp ENOENT"))), S n).

(** A machine on which yt-dlp answers the version check and fails on every
    other call with a network error. *)
Definition spawnOffline : jsstring -> list jsstring -> jsstring -> nat -> Completion jsstring * nat :=
  fun _ args _ n =>
    if bool_decide (args = [str "--version"; str "--no-warnings"])
    then (Return (str "2024.08.06"), S n)
    else (Throw (Err (PlainError (str "network unreachable"))), S n).

Definition tempDirMade : nat -> Completion jsstring * nat :=
  fun n => (Return (str "/tmp/youtube-a1b2c3"), n).

Definition tempDirRemoved : jsstring -> nat -> Completion unit * nat :=
  fun _ n => (Return tt, n).

(** A call of [download_subtitles] with the start time [abc] and every
    other optional argument left out. *)
Definition badStartArgs : SubtitleArgs :=
  {| url := str "https://youtu.be/x";
     languages := None; formats := None; subtitle_types := None;
     time_start := Some (str "abc"); time_end := None;
     include_metadata := None |}.

(** A call with a time range that ends before it starts. *)
Definition backwardsArgs : SubtitleArgs :=
  {| url := str "https://youtu.be/x";
     languages := None; formats := None; subtitle_types := None;
     time_start := Some (str "2:00"); time_end := Some (str "1:30");
     include_metadata := None |}.

(** A call without a time range and without metadata. *)
Definition plainArgs : SubtitleArgs :=
  {| url := str "https://youtu.be/x";
     languages := None; formats := None; subtitle_types := None;
     time_start := None; time_end := None;
     include_metadata := Some false |}.

(** Whole numbers in place of the floating-point numbers of JavaScript, for
    times of whole minutes and seconds: text that is no number reads as 0
    here. *)
Definition wholeNumber (s : jsstring) : Z := default 0%Z (parseInteger s).

Definition nonZero (v : Z) : bool := negb (v =? 0)%Z.

(** A machine on which yt-dlp succeeds at once. *)
Definition spawnDone : jsstring -> list jsstring -> jsstring -> nat -> Completion jsstring * nat :=
  fun _ _ _ n => (Return (str "done"), S n).

(** A temporary directory with one caption track and one other file. *)
Definition oneTrack : jsstring -> nat -> Completion (list jsstring) * nat :=
  fun _ n => (Return [str "video.en.vtt"; str "video.info.json"], n).

Definition helloTrack : jsstring -> nat -> Completion jsstring * nat :=
  fun _ n => (Return (str "WEBVTT

00:00:01.000 --> 00:00:02.000
Hello <c>world</c>"), n).

Definition joinPath (dir file : jsstring) : jsstring := dir ++ str "/" ++ file.

(** A temporary directory that stays empty. *)
Definition noFiles : jsstring -> nat -> Completion (list jsstring) * nat :=
  fun _ n => (Return [], n).

Definition emptyFile : jsstring -> nat -> Completion jsstring * nat :=
  fun _ n => (Return [], n).

End Index.

Import Index.

(** ** Facts about the string functions *)

Section JsFacts.

Implicit Types (s p : jsstring) (c : N).

Lemma trimStart_suffix s : exists pre, s = pre ++ trimStart s.
Proof.
  induction s as [|c s [pre IH]]; simpl.
  - by exists [].
  - destruct (isWhiteSpace c).
    + exists (c :: pre). simpl. by f_equal.
    + by exists [].
Qed.

Lemma trimEnd_prefix s : exists post, s = trimEnd s ++ post.
Proof.
  unfold trimEnd. destruct (trimStart_suffix (rev s)) as [pre E].
  exists (rev pre). rewrite <- rev_app_distr, <- E. by rewrite rev_involutive.
Qed.

Lemma trimStart_headSolid s : headSolid (trimStart s).
Proof.
  induction s as [|c s IH]; simpl; [done|].
  destruct (isWhiteSpace c) eqn:E; [done|]. simpl. done.
Qed.

Lemma trimStart_id s : headSolid s -> trimStart s = s.
Proof. destruct s as [|c s]; simpl; [done|]. by intros ->. Qed.

Lemma headSolid_prefix s1 s2 : headSolid (s1 ++ s2) -> s1 <> [] -> headSolid s1.
Proof. destruct s1; simpl; done. Qed.

Lemma trimStart_idemp s : trimStart (trimStart s) = trimStart s.
Proof. apply trimStart_id, trimStart_headSolid. Qed.

Lemma trimEnd_idemp s : trimEnd (trimEnd s) = trimEnd s.
Proof. unfold trimEnd. by rewrite rev_involutive, trimStart_idemp. Qed.

Lemma trimStart_trimEnd s : headSolid s -> trimStart (trimEnd s) = trimEnd s.
Proof.
  intros H. apply trimStart_id.
  destruct (trimEnd_prefix s) as [post E].
  destruct (trimEnd s) as [|c t] eqn:Et; [done|].
  rewrite E in H. simpl in *. done.
Qed.

Lemma trim_idemp s : trim (trim s) = trim s.
Proof.
  unfold trim.
  rewrite (trimStart_trimEnd (trimStart s)) by apply trimStart_headSolid.
  apply trimEnd_idemp.
Qed.

Lemma trimStart_Forall (P : N -> Prop) s : Forall P s -> Forall P (trimStart s).
Proof.
  induction 1 as [|c s Hc Hs IH]; simpl; [constructor|].
  destruct (isWhiteSpace c); [done|by constructor].
Qed.

Lemma trim_Forall (P : N -> Prop) s : Forall P s -> Forall P (trim s).
Proof.
  intros H. unfold trim, trimEnd.
  apply Forall_rev, trimStart_Forall, Forall_rev, trimStart_Forall, H.
Qed.

Lemma trimStart_nil_iff s : trimStart s = [] <-> Forall (fun c => isWhiteSpace c = true) s.
Proof.
  induction s as [|c s IH]; simpl.
  - split; [constructor|done].
  - destruct (isWhiteSpace c) eqn:E.
    + rewrite IH. split; [by constructor|by inversion 1].
    + split; [done|]. inversion 1; congruence.
Qed.

(** [s.trim() === ''] exactly when [s] is made of white space only. *)
Lemma trim_nil_iff s : trim s = [] <-> Forall (fun c => isWhiteSpace c = true) s.
Proof.
  split.
  - intros H. unfold trim, trimEnd in H.
    apply (f_equal (@rev N)) in H. rewrite rev_involutive in H. simpl in H.
    apply trimStart_nil_iff in H. apply Forall_rev in H.
    rewrite rev_involutive in H.
    apply trimStart_nil_iff.
    pose proof (trimStart_headSolid s) as Hs.
    destruct H as [|c t Hc _]; [done|]. simpl in Hs. congruence.
  - intros H. unfold trim.
    apply trimStart_nil_iff in H. by rewrite H.
Qed.

Lemma removeAllFrom_Forall (P : N -> Prop) m k s :
  Forall P s -> Forall P (removeAllFrom m k s).
Proof.
  intros H. revert k. induction H as [|c s Hc Hs IH]; intros k; simpl; [constructor|].
  destruct k; [|apply IH].
  destruct (m (c :: s)) as [[|n]|]; try (constructor; [done|apply IH]).
  apply IH.
Qed.

Lemma removeAll_Forall (P : N -> Prop) m s : Forall P s -> Forall P (removeAll m s).
Proof. apply removeAllFrom_Forall. Qed.

(** *** [split] and [join] *)

Lemma splitLines_cons s : exists l ls, splitLines s = l :: ls.
Proof.
  induction s as [|c s (l & ls & IH)]; simpl; [by eauto|].
  destruct (c =? LF); [by eauto|]. rewrite IH. by eauto.
Qed.

Lemma splitLines_noLF s : Forall noLF (splitLines s).
Proof.
  induction s as [|c s IH]; simpl.
  - repeat constructor.
  - destruct (N.eqb_spec c LF) as [->|Hc].
    + constructor; [constructor|done].
    + destruct (splitLines s) as [|l ls]; [repeat constructor; done|].
      inversion IH; subst. constructor; [by constructor|done].
Qed.

Lemma splitLines_line s : noLF s -> splitLines s = [s].
Proof.
  induction 1 as [|c s Hc Hs IH]; simpl; [done|].
  destruct (N.eqb_spec c LF); [done|]. by rewrite IH.
Qed.

Lemma splitLines_app_LF s t : noLF s -> splitLines (s ++ LF :: t) = s :: splitLines t.
Proof.
  induction 1 as [|c s Hc Hs IH]; simpl; [done|].
  destruct (N.eqb_spec c LF); [done|]. by rewrite IH.
Qed.

(** Splitting what was joined gives the lines back, for lines without a
    line feed (and at least one line: joining no line gives the empty string,
    which splits into one empty line). *)
Lemma splitLines_joinLines ls : ls <> [] -> Forall noLF ls -> splitLines (joinLines ls) = ls.
Proof.
  intros Hne H. induction H as [|l ls Hl Hls IH]; [done|].
  destruct ls as [|l' ls'].
  - simpl. by apply splitLines_line.
  - change (joinLines (l :: l' :: ls')) with (l ++ LF :: joinLines (l' :: ls')).
    rewrite splitLines_app_LF by done. f_equal. by apply IH.
Qed.

Lemma joinLines_splitLines s : joinLines (splitLines s) = s.
Proof.
  induction s as [|c s IH]; simpl; [done|].
  destruct (N.eqb_spec c LF) as [->|Hc].
  - destruct (splitLines_cons s) as (l & ls & E). rewrite E in *.
    simpl. by rewrite <- IH.
  - destruct (splitLines_cons s) as (l & ls & E). rewrite E in *.
    rewrite <- IH. by destruct ls.
Qed.

End JsFacts.

(** ** The loops of [stripVttNonContent] never read out of range *)

Section VttLoops.

Implicit Types (line : jsstring) (lines : list jsstring).

Lemma streq_true (a b : jsstring) : streq a b = true <-> a = b.
Proof. unfold streq. apply bool_decide_eq_true. Qed.

Lemma streq_false (a b : jsstring) : streq a b = false <-> a <> b.
Proof. unfold streq. apply bool_decide_eq_false. Qed.

Lemma streq_refl (a : jsstring) : streq a a = true.
Proof. by apply streq_true. Qed.

(** A loop whose body pushes [g x] for the element [x] it reads. *)
Lemma forLoop_flat_map {A B : Type} (l : list A) (g : A -> list B)
    (body : nat -> list B -> option (list B)) :
  (forall i acc x, l !! i = Some x -> body i acc = Some (acc ++ g x)) ->
  forall n i acc, (i + n = length l)%nat ->
    forLoop body n i acc = Some (acc ++ flat_map g (drop i l)).
Proof.
  intros Hbody. induction n as [|n IH]; intros i acc Hlen; simpl.
  - rewrite drop_ge by lia. simpl. by rewrite app_nil_r.
  - destruct (lookup_lt_is_Some_2 l i) as [x Hx]; [lia|].
    rewrite (Hbody _ _ _ Hx). simpl.
    rewrite IH by lia. rewrite (drop_S _ _ _ Hx). simpl.
    replace (i + 1)%nat with (S i) by lia. by rewrite app_assoc.
Qed.

Lemma forRange_flat_map {A B : Type} (l : list A) (g : A -> list B)
    (body : nat -> list B -> option (list B)) :
  (forall i acc x, l !! i = Some x -> body i acc = Some (acc ++ g x)) ->
  forRange body 0 (length l) [] = Some (flat_map g l).
Proof.
  intros Hbody. unfold forRange. rewrite Nat.sub_0_r.
  by rewrite (forLoop_flat_map l g body Hbody).
Qed.

Lemma preserveBody_line lines i acc line :
  lines !! i = Some line ->
  preserveBody lines i acc = Some (acc ++ preserveLine line).
Proof.
  intros H. unfold preserveBody, preserveLine. rewrite H. simpl.
  destruct (includes ARROW line).
  - destruct (timingMatch line) as [[t1 t2]|]; [done|by rewrite app_nil_r].
  - destruct (negb (streq (trim line) []) && negb (includes ALIGN line)
              && negb (includes POSITION line)); [|by rewrite app_nil_r].
    destruct (negb (streq (trim (cleanLine line)) [])); [done|by rewrite app_nil_r].
Qed.

Lemma discardBody_line lines i acc line :
  lines !! i = Some line ->
  discardBody lines i acc = Some (acc ++ discardLine line).
Proof.
  intros H. unfold discardBody, discardLine. rewrite H. simpl.
  repeat (match goal with
          | |- context [if ?b then _ else _] => destruct b
          end; try by rewrite app_nil_r); done.
Qed.

Lemma uniqueBody_step (textLines : list jsstring) i acc prev x :
  textLines !! i = Some prev ->
  textLines !! S i = Some x ->
  uniqueBody textLines (S i) acc = Some (if streq x prev then acc else acc ++ [x]).
Proof.
  intros Hprev Hx. unfold uniqueBody. simpl. rewrite Nat.sub_0_r, Hx, Hprev.
  destruct (decide (x = prev)) as [->|Hne].
  - rewrite bool_decide_eq_true_2 by done. by rewrite streq_refl.
  - rewrite bool_decide_eq_false_2 by congruence.
    by rewrite (proj2 (streq_false x prev)).
Qed.

Lemma uniqueLoop_from (textLines : list jsstring) n : forall i acc prev,
  (S i + n = length textLines)%nat ->
  textLines !! i = Some prev ->
  forLoop (uniqueBody textLines) n (S i) acc
  = Some (acc ++ dedupFrom prev (drop (S i) textLines)).
Proof.
  induction n as [|n IH]; intros i acc prev Hlen Hprev.
  - simpl. rewrite drop_ge by lia. simpl. by rewrite app_nil_r.
  - destruct (lookup_lt_is_Some_2 textLines (S i)) as [x Hx]; [lia|].
    cbn [forLoop]. rewrite (uniqueBody_step _ _ _ _ _ Hprev Hx).
    rewrite (drop_S _ _ _ Hx). cbn [dedupFrom mbind option_bind].
    replace (S i + 1)%nat with (S (S i)) by lia.
    rewrite (IH (S i) _ x) by (done || lia).
    destruct (streq x prev); [done|]. by rewrite <- app_assoc.
Qed.

Lemma uniqueLoop (textLines : list jsstring) :
  forRange (uniqueBody textLines) 0 (length textLines) []
  = Some (dedupAdjacent textLines).
Proof.
  unfold forRange. rewrite Nat.sub_0_r.
  destruct textLines as [|x rest]; [done|].
  simpl. rewrite (uniqueLoop_from (x :: rest) (length rest) 0 [x] x) by (done || simpl; lia).
  done.
Qed.

Lemma headerLoop_scan lines n : forall i,
  (i + n = length lines)%nat ->
  headerLoop lines n i 1 = Some (headerScan (drop i lines) i).
Proof.
  induction n as [|n IH]; intros i Hlen; simpl.
  - by rewrite drop_ge by lia.
  - destruct (lookup_lt_is_Some_2 lines i) as [l Hl]; [lia|].
    rewrite (drop_S _ _ _ Hl). simpl.
    unfold headerEndsAt. rewrite Hl. simpl.
    destruct (decide (i + 1 < length lines)%nat) as [Hlt|Hge].
    + destruct (lookup_lt_is_Some_2 lines (i + 1)) as [next Hnext]; [lia|].
      replace (S i) with (i + 1)%nat by lia.
      rewrite (drop_S _ _ _ Hnext).
      rewrite (proj2 (Nat.ltb_lt _ _)) by lia. rewrite andb_true_r.
      destruct (streq (trim l) []); simpl.
      * rewrite Hnext. simpl. destruct (includes ARROW next); [done|].
        rewrite IH by lia. by rewrite (drop_S _ _ _ Hnext).
      * rewrite IH by lia. by rewrite (drop_S _ _ _ Hnext).
    + rewrite (proj2 (Nat.ltb_ge _ _)) by lia. rewrite andb_false_r.
      rewrite drop_ge by lia. rewrite andb_false_r.
      rewrite IH by lia. by rewrite drop_ge by lia.
Qed.

(** The function returns on every input, and what it returns is [normalize]:
    no array is read out of range. *)
Lemma stripVttNonContent_normalize (doc : jsstring) (preserveTiming : bool) :
  stripVttNonContent doc preserveTiming = Some (normalize doc preserveTiming).
Proof.
  unfold stripVttNonContent, normalize.
  destruct (streq doc []) eqn:E0; simpl.
  { apply streq_true in E0. by subst. }
  destruct (streq (trim doc) []); [done|].
  destruct (splitLines doc) as [|first [|second rest]] eqn:Elines; try done.
  cbn [length Nat.ltb Nat.leb lookup list_lookup mbind option_bind].
  destruct (includes WEBVTT first); cbn [negb]; [|done].
  rewrite (headerLoop_scan (first :: second :: rest) _ 1) by (simpl; lia).
  cbn [mbind option_bind].
  change (drop 1 (first :: second :: rest)) with (second :: rest).
  set (contentLines := drop (headerScan _ 1) _).
  destruct preserveTiming.
  - by rewrite (forRange_flat_map contentLines preserveLine)
      by (intros; by apply preserveBody_line).
  - rewrite (forRange_flat_map contentLines discardLine)
      by (intros; by apply discardBody_line).
    cbn [mbind option_bind]. by rewrite uniqueLoop.
Qed.

End VttLoops.

(** ** The regular expressions *)

Section Regex.

Implicit Types (re : list atom) (s m r : jsstring).

(** What a match consumed and what it left make up the input. *)
Lemma matchAtoms_split re : forall s m r,
  matchAtoms re s = Some (m, r) -> s = m ++ r.
Proof.
  induction re as [|a re IH]; intros s m r H; simpl in H.
  - by inversion H.
  - destruct a.
    + destruct s as [|c s]; [done|]. destruct (isDigit c); [|done].
      destruct (matchAtoms re s) as [[m' r']|] eqn:E; [|done].
      inversion H; subst. simpl. f_equal. by apply IH.
    + destruct s as [|c' s]; [done|]. destruct (c' =? c); [|done].
      destruct (matchAtoms re s) as [[m' r']|] eqn:E; [|done].
      inversion H; subst. simpl. f_equal. by apply IH.
    + destruct (matchAtoms re (trimStart s)) as [[m' r']|] eqn:E; [|done].
      inversion H; subst. apply IH in E.
      destruct (trimStart_suffix s) as [pre Hpre].
      rewrite <- app_assoc, <- E.
      assert (length s = length pre + length (trimStart s))%nat as Hlen
        by (rewrite Hpre at 1; apply length_app).
      replace (length s - length (trimStart s))%nat with (length pre) by lia.
      assert (take (length pre) s = pre) as ->
        by (rewrite Hpre at 1; apply take_app_length).
      done.
Qed.

Lemma matchAtoms_app re1 re2 : forall s,
  matchAtoms (re1 ++ re2) s =
  '(m1, r1) ← matchAtoms re1 s; '(m2, r2) ← matchAtoms re2 r1; Some (m1 ++ m2, r2).
Proof.
  induction re1 as [|a re1 IH]; intros s; simpl.
  - by destruct (matchAtoms re2 s) as [[m2 r2]|].
  - destruct a.
    + destruct s as [|c s]; [done|]. destruct (isDigit c); [|done].
      rewrite IH. destruct (matchAtoms re1 s) as [[m1 r1]|]; [|done]. simpl.
      by destruct (matchAtoms re2 r1) as [[m2 r2]|].
    + destruct s as [|c' s]; [done|]. destruct (c' =? c); [|done].
      rewrite IH. destruct (matchAtoms re1 s) as [[m1 r1]|]; [|done]. simpl.
      by destruct (matchAtoms re2 r1) as [[m2 r2]|].
    + rewrite IH. destruct (matchAtoms re1 (trimStart s)) as [[m1 r1]|]; [|done]. simpl.
      destruct (matchAtoms re2 r1) as [[m2 r2]|]; [|done]. simpl.
      by rewrite app_assoc.
Qed.

(** A fixed-width match does not depend on what follows it. *)
Lemma matchAtoms_rematch re : fixedWidth re = true -> forall s m r r',
  matchAtoms re s = Some (m, r) -> matchAtoms re (m ++ r') = Some (m, r').
Proof.
  induction re as [|a re IH]; intros Hfix s m r r' H; simpl in *.
  - by inversion H.
  - apply andb_prop in Hfix as [Ha Hre]. destruct a; [| |done].
    + destruct s as [|c s]; [done|]. destruct (isDigit c) eqn:Ec; [|done].
      destruct (matchAtoms re s) as [[m' r0]|] eqn:E; [|done].
      inversion H; subst. simpl. rewrite Ec.
      by rewrite (IH Hre s m' r r' E).
    + destruct s as [|c' s]; [done|]. destruct (c' =? c) eqn:Ec; [|done].
      destruct (matchAtoms re s) as [[m' r0]|] eqn:E; [|done].
      inversion H; subst. simpl. rewrite Ec.
      by rewrite (IH Hre s m' r r' E).
Qed.

Lemma search_Some {A : Type} (f : jsstring -> option A) s x :
  search f s = Some x -> exists pre s', s = pre ++ s' /\ f s' = Some x.
Proof.
  induction s as [|c s IH]; simpl.
  - destruct (f []) eqn:E; [|done]. intros [= <-]. by exists [], [].
  - destruct (f (c :: s)) eqn:E.
    + intros [= <-]. by exists [], (c :: s).
    + intros (pre & s' & -> & H)%IH. by exists (c :: pre), s'.
Qed.

(** The two groups captured by the timing expression, put back around
    [" --> "], have the exact timing shape. *)
Lemma timingAt_shape s t1 t2 :
  timingAt s = Some (t1, t2) -> isTimingShape (t1 ++ str " --> " ++ t2) = true.
Proof.
  unfold timingAt. intros H.
  destruct (matchAtoms TIMESTAMP s) as [[m1 r1]|] eqn:E1; [|done].
  cbn [mbind option_bind] in H.
  destruct (matchAtoms ([Spaces] ++ literal "-->" ++ [Spaces]) r1) as [[m2 r2]|];
    [|done].
  cbn [mbind option_bind] in H.
  destruct (matchAtoms TIMESTAMP r2) as [[m3 r3]|] eqn:E3; [|done].
  injection H as <- <-.
  apply bool_decide_eq_true.
  rewrite matchAtoms_app.
  rewrite (matchAtoms_rematch TIMESTAMP eq_refl _ _ _ (str " --> " ++ m3) E1).
  cbn [mbind option_bind]. rewrite matchAtoms_app.
  rewrite (matchAtoms_rematch (literal " --> ") eq_refl (str " --> ") (str " --> ") [] m3 eq_refl).
  cbn [mbind option_bind].
  rewrite <- (app_nil_r m3) at 1.
  rewrite (matchAtoms_rematch TIMESTAMP eq_refl _ _ _ [] E3).
  done.
Qed.

Lemma timingMatch_shape line t1 t2 :
  timingMatch line = Some (t1, t2) -> isTimingShape (t1 ++ str " --> " ++ t2) = true.
Proof.
  intros (pre & s' & _ & H)%search_Some. by apply timingAt_shape in H.
Qed.

(** The captured groups are pieces of the line. *)
Lemma timingMatch_Forall (P : N -> Prop) line t1 t2 :
  timingMatch line = Some (t1, t2) -> Forall P line -> Forall P t1 /\ Forall P t2.
Proof.
  intros (pre & s' & -> & H)%search_Some HP.
  apply Forall_app in HP as [_ HP].
  unfold timingAt in H.
  destruct (matchAtoms TIMESTAMP s') as [[m1 r1]|] eqn:E1; [|done].
  cbn [mbind option_bind] in H.
  destruct (matchAtoms ([Spaces] ++ literal "-->" ++ [Spaces]) r1) as [[m2 r2]|] eqn:E2;
    [|done].
  cbn [mbind option_bind] in H.
  destruct (matchAtoms TIMESTAMP r2) as [[m3 r3]|] eqn:E3; [|done].
  injection H as <- <-.
  apply matchAtoms_split in E1, E2, E3. subst.
  rewrite !Forall_app in HP. tauto.
Qed.

End Regex.

(** ** The emitted lines *)

Section VttLines.

Implicit Types (line u : jsstring) (lines : list jsstring).

Lemma cleanLine_Forall (P : N -> Prop) line : Forall P line -> Forall P (cleanLine line).
Proof. intros H. unfold cleanLine. by do 2 apply removeAll_Forall. Qed.

(** A line pushed in discard-timing mode. *)
Lemma discardLine_elem line u :
  u ∈ discardLine line ->
  tokenFree line = true /\ u = trim (cleanLine line) /\ u <> [].
Proof.
  unfold discardLine, tokenFree.
  destruct (includes ARROW line); [by intros ?%elem_of_nil|].
  destruct (includes ALIGN line); [by intros ?%elem_of_nil|].
  destruct (includes POSITION line); [by intros ?%elem_of_nil|].
  simpl.
  destruct (streq (trim line) []); [by intros ?%elem_of_nil|].
  destruct (streq (trim (cleanLine line)) []) eqn:E; simpl;
    [by intros ?%elem_of_nil|].
  intros ->%list_elem_of_singleton. by apply streq_false in E.
Qed.

(** A line pushed in preserve-timing mode: a timing line of the exact shape
    for a source line with an arrow, the cleaned text for any other. *)
Lemma preserveLine_elem line u :
  u ∈ preserveLine line ->
  (includes ARROW line = true /\ isTimingShape u = true) \/
  (includes ARROW line = false /\ u = trim (cleanLine line) /\ u <> []).
Proof.
  unfold preserveLine.
  destruct (includes ARROW line).
  - destruct (timingMatch line) as [[t1 t2]|] eqn:E; [|by intros ?%elem_of_nil].
    intros ->%list_elem_of_singleton. left. split; [done|].
    by apply timingMatch_shape in E.
  - destruct (negb (streq (trim line) []) && negb (includes ALIGN line)
              && negb (includes POSITION line)); [|by intros ?%elem_of_nil].
    destruct (streq (trim (cleanLine line)) []) eqn:E; simpl;
      [by intros ?%elem_of_nil|].
    intros ->%list_elem_of_singleton. right. by apply streq_false in E.
Qed.

Lemma discardLine_noLF line : noLF line -> Forall noLF (discardLine line).
Proof.
  intros H. apply Forall_forall. intros u (_ & -> & _)%discardLine_elem.
  by apply trim_Forall, cleanLine_Forall.
Qed.

Lemma preserveLine_noLF line : noLF line -> Forall noLF (preserveLine line).
Proof.
  intros H. unfold preserveLine.
  destruct (includes ARROW line).
  - destruct (timingMatch line) as [[t1 t2]|] eqn:E; [|constructor].
    destruct (timingMatch_Forall _ _ _ _ E H) as [H1 H2].
    repeat constructor. unfold noLF. rewrite !Forall_app. split; [done|].
    split; [|done]. by repeat constructor.
  - destruct (_ && _); [|constructor].
    destruct (negb _); [|constructor].
    repeat constructor. by apply trim_Forall, cleanLine_Forall.
Qed.

Lemma flat_map_Forall {A B : Type} (P : A -> Prop) (Q : B -> Prop) (g : A -> list B)
    (l : list A) :
  (forall x, P x -> Forall Q (g x)) -> Forall P l -> Forall Q (flat_map g l).
Proof.
  intros Hg. induction 1 as [|x l Hx Hl IH]; simpl; [constructor|].
  apply Forall_app. split; [by apply Hg|done].
Qed.

Lemma elem_of_flat_map {A B : Type} (g : A -> list B) (l : list A) (y : B) :
  y ∈ flat_map g l <-> exists x, x ∈ l /\ y ∈ g x.
Proof.
  rewrite list_elem_of_In, in_flat_map.
  split; intros (x & Hx & Hy); exists x; by rewrite ?list_elem_of_In in *.
Qed.

(** *** Duplicate suppression *)

Lemma adjacentDistinct_nil : adjacentDistinct [].
Proof. intros i x y H. by rewrite lookup_nil in H. Qed.

Lemma adjacentDistinct_one u : adjacentDistinct [u].
Proof. intros i x y H1 H2. by destruct i. Qed.

Lemma adjacentDistinct_cons u v lines :
  adjacentDistinct (u :: v :: lines) <-> u <> v /\ adjacentDistinct (v :: lines).
Proof.
  split.
  - intros H. split; [by apply (H 0%nat)|].
    intros i x y Hx Hy. by apply (H (S i)).
  - intros [Hne H] [|i] x y Hx Hy.
    + simpl in *. congruence.
    + by apply (H i).
Qed.

Lemma dedupFrom_adjacent lines : forall prev,
  adjacentDistinct (prev :: dedupFrom prev lines).
Proof.
  induction lines as [|x lines IH]; intros prev; simpl.
  - apply adjacentDistinct_one.
  - destruct (streq x prev) eqn:E.
    + apply streq_true in E. subst. apply IH.
    + apply streq_false in E. apply adjacentDistinct_cons. split; [done|apply IH].
Qed.

Lemma dedupAdjacent_adjacent lines : adjacentDistinct (dedupAdjacent lines).
Proof.
  destruct lines as [|x lines]; [apply adjacentDistinct_nil|apply dedupFrom_adjacent].
Qed.

Lemma dedupFrom_elem lines : forall prev u,
  u ∈ lines <-> u ∈ dedupFrom prev lines \/ (u = prev /\ u ∈ lines).
Proof.
  induction lines as [|x lines IH]; intros prev u; simpl.
  - split; [by intros ?%elem_of_nil|]. by intros [?%elem_of_nil|[_ ?%elem_of_nil]].
  - destruct (streq x prev) eqn:E.
    + apply streq_true in E. subst x. rewrite elem_of_cons, (IH prev u).
      split; [|tauto]. intros [->|H]; [|tauto].
      right. split; [done|]. by left.
    + apply streq_false in E. rewrite !elem_of_cons, (IH x u). 
      split; [|tauto]. intros [->|[H|[-> H]]]; tauto.
Qed.

(** Suppression drops repetitions only: the lines are the same set. *)
Lemma dedupAdjacent_elem lines u : u ∈ dedupAdjacent lines <-> u ∈ lines.
Proof.
  destruct lines as [|x lines]; [done|]. simpl.
  rewrite !elem_of_cons, (dedupFrom_elem lines x u). tauto.
Qed.

Lemma dedupAdjacent_subset lines u : u ∈ dedupAdjacent lines -> u ∈ lines.
Proof. apply dedupAdjacent_elem. Qed.

Lemma dedupAdjacent_keeps lines u : u ∈ lines -> u ∈ dedupAdjacent lines.
Proof. apply dedupAdjacent_elem. Qed.

Lemma dedupFrom_id lines : forall prev,
  adjacentDistinct (prev :: lines) -> dedupFrom prev lines = lines.
Proof.
  induction lines as [|x lines IH]; intros prev H; simpl; [done|].
  apply adjacentDistinct_cons in H as [Hne H].
  rewrite (proj2 (streq_false x prev)) by congruence.
  by rewrite IH.
Qed.

Lemma dedupAdjacent_id lines : adjacentDistinct lines -> dedupAdjacent lines = lines.
Proof. destruct lines as [|x lines]; [done|]. simpl. intros H. by rewrite dedupFrom_id. Qed.

(** *** The lines of the output *)

(** A non-empty line of the joined text is one of the joined lines. *)
Lemma splitLines_joinLines_elem lines u :
  Forall noLF lines -> u ∈ splitLines (joinLines lines) -> u <> [] -> u ∈ lines.
Proof.
  intros H Hu Hne. destruct lines as [|l lines].
  - simpl in Hu. apply list_elem_of_singleton in Hu. done.
  - by rewrite splitLines_joinLines in Hu.
Qed.

Lemma joinLines_adjacentDistinct lines :
  Forall noLF lines -> adjacentDistinct lines ->
  adjacentDistinct (splitLines (joinLines lines)).
Proof.
  intros H Hd. destruct lines as [|l lines].
  - apply adjacentDistinct_one.
  - by rewrite splitLines_joinLines.
Qed.

End VttLines.

(** ** Whole documents *)

Section VttDocuments.

Implicit Types (doc line u : jsstring) (lines : list jsstring).

Lemma elem_of_drop_list {A : Type} (x : A) n (l : list A) : x ∈ drop n l -> x ∈ l.
Proof.
  rewrite !list_elem_of_lookup. intros [i H]. rewrite lookup_drop in H. eauto.
Qed.

Lemma startsWith_app p : forall s, startsWith p s = true -> exists r, s = p ++ r.
Proof.
  induction p as [|a p IH]; intros s H; [by exists s|].
  destruct s as [|b s]; [done|]. simpl in H.
  apply andb_prop in H as [Hab H]. apply N.eqb_eq in Hab as ->.
  destruct (IH s H) as [r ->]. by exists r.
Qed.

Lemma includes_app p s : includes p s = true -> exists a b, s = a ++ p ++ b.
Proof.
  induction s as [|c s IH]; simpl.
  - rewrite orb_false_r. intros [r ->]%startsWith_app. by exists [], r.
  - intros [H|H]%orb_prop.
    + apply startsWith_app in H as [r ->]. by exists [], r.
    + destruct (IH H) as (a & b & ->). by exists (c :: a), b.
Qed.

(** A text that contains the marker is not blank. *)
Lemma marker_not_blank (s : jsstring) : includes WEBVTT s = true -> trim s <> [].
Proof.
  intros (a & b & ->)%includes_app Hblank.
  apply trim_nil_iff in Hblank.
  rewrite !Forall_app in Hblank. destruct Hblank as (_ & HW & _).
  by inversion HW.
Qed.

Lemma first_line_prefix doc first rest :
  splitLines doc = first :: rest -> exists post, doc = first ++ post.
Proof.
  intros H. rewrite <- (joinLines_splitLines doc), H.
  destruct rest as [|second rest]; [by exists []; rewrite app_nil_r|].
  by eexists.
Qed.

Lemma marked_not_blank doc : isWebVtt doc = true -> trim doc <> [].
Proof.
  unfold isWebVtt. destruct (splitLines doc) as [|first rest] eqn:E; [done|].
  intros (a & b & ->)%includes_app.
  destruct (first_line_prefix _ _ _ E) as [post ->].
  intros Hblank%trim_nil_iff.
  rewrite !Forall_app in Hblank. destruct Hblank as ((_ & HW & _) & _).
  by inversion HW.
Qed.

Lemma headerScan_none lines : forall i,
  hasCueBoundary lines = false -> headerScan lines i = 1%nat.
Proof.
  induction lines as [|l lines IH]; intros i H; simpl in *; [done|].
  apply orb_false_elim in H as [H1 H2]. rewrite H1. by apply IH.
Qed.

Lemma hasCueBoundary_no_blank lines :
  Forall (fun u => trim u <> []) lines -> hasCueBoundary lines = false.
Proof.
  induction 1 as [|l lines Hl _ IH]; simpl; [done|].
  by rewrite (proj2 (streq_false (trim l) [])), IH.
Qed.

(** The result is empty, or the joined lines pushed for the content lines. *)
Lemma normalize_cases doc preserveTiming :
  normalize doc preserveTiming = [] \/
  exists first second rest,
    splitLines doc = first :: second :: rest /\
    trim doc <> [] /\
    includes WEBVTT first = true /\
    let contentLines := drop (headerScan (second :: rest) 1) (first :: second :: rest) in
    normalize doc preserveTiming =
      if preserveTiming then joinLines (flat_map preserveLine contentLines)
      else joinLines (dedupAdjacent (flat_map discardLine contentLines)).
Proof.
  unfold normalize.
  destruct (streq (trim doc) []) eqn:E; [by left|]. apply streq_false in E.
  destruct (splitLines doc) as [|first [|second rest]]; [by left|by left|].
  destruct (includes WEBVTT first) eqn:EW; [|by left].
  right. by exists first, second, rest.
Qed.

(** In discard-timing mode the result is the join of lines without adjacent
    duplicates, each the non-empty cleaned text of a token-free source line. *)
Lemma normalize_discard_structure doc :
  exists pushed,
    normalize doc false = joinLines pushed /\
    Forall noLF pushed /\ adjacentDistinct pushed /\
    forall u, u ∈ pushed ->
      u <> [] /\ trim u = u /\
      exists line, line ∈ splitLines doc /\ tokenFree line = true /\
                   u = trim (cleanLine line).
Proof.
  destruct (normalize_cases doc false) as [->|(first & second & rest & E & _ & _ & ->)].
  { exists []. split; [done|]. split; [constructor|].
    split; [apply adjacentDistinct_nil|]. by intros u ?%elem_of_nil. }
  rewrite <- E. set (contentLines := drop _ (splitLines doc)).
  exists (dedupAdjacent (flat_map discardLine contentLines)).
  split; [done|].
  assert (Forall noLF (flat_map discardLine contentLines)) as HT.
  { apply (flat_map_Forall noLF); [apply discardLine_noLF|].
    apply Forall_drop, splitLines_noLF. }
  split.
  { apply Forall_forall. intros u Hu%dedupAdjacent_subset.
    revert u Hu. by apply Forall_forall. }
  split; [apply dedupAdjacent_adjacent|].
  intros u Hu.
  apply dedupAdjacent_subset, elem_of_flat_map in Hu as (line & Hline & Hu).
  apply discardLine_elem in Hu as (Htok & -> & Hne).
  split; [done|]. split; [apply trim_idemp|].
  exists line. split; [by apply elem_of_drop_list in Hline|done].
Qed.

Lemma normalize_discard_lines doc :
  adjacentDistinct (splitLines (normalize doc false)) /\
  forall u, u ∈ splitLines (normalize doc false) -> u <> [] ->
    exists line, line ∈ splitLines doc /\ tokenFree line = true /\
                 u = trim (cleanLine line).
Proof.
  destruct (normalize_discard_structure doc) as (pushed & -> & HLF & Hdist & Hsrc).
  split; [by apply joinLines_adjacentDistinct|].
  intros u Hu Hne. apply splitLines_joinLines_elem in Hu; [|done..].
  by destruct (Hsrc u Hu) as (_ & _ & ?).
Qed.

(** In preserve-timing mode each line of the result is a timing line of the
    exact shape, or the cleaned text of a source line without an arrow. *)
Lemma normalize_preserve_lines doc :
  forall u, u ∈ splitLines (normalize doc true) -> u <> [] ->
    isTimingShape u = true \/
    exists line, line ∈ splitLines doc /\ includes ARROW line = false /\
                 u = trim (cleanLine line).
Proof.
  destruct (normalize_cases doc true) as [->|(first & second & rest & E & _ & _ & ->)].
  { by intros u ->%list_elem_of_singleton. }
  rewrite <- E. set (contentLines := drop _ (splitLines doc)).
  intros u Hu Hne.
  apply splitLines_joinLines_elem in Hu; [|
    by apply (flat_map_Forall noLF);
      [apply preserveLine_noLF|apply Forall_drop, splitLines_noLF] | done].
  apply elem_of_flat_map in Hu as (line & Hline & Hu).
  apply preserveLine_elem in Hu as [[_ Hshape]|(Harrow & -> & _)]; [by left|].
  right. exists line. split; [by apply elem_of_drop_list in Hline|done].
Qed.

(** A content line: no token, and text left after cleaning. *)
Lemma content_line_pushed line :
  tokenFree line = true -> trim (cleanLine line) <> [] ->
  discardLine line = [trim (cleanLine line)] /\
  preserveLine line = [trim (cleanLine line)].
Proof.
  unfold tokenFree, discardLine, preserveLine.
  intros Htok Hclean.
  apply andb_prop in Htok as [[H1 H2]%andb_prop H3].
  apply negb_true_iff in H1, H2, H3. rewrite H1, H2, H3. simpl.
  assert (trim line <> []) as Hline.
  { intros Hblank%trim_nil_iff. apply Hclean, trim_nil_iff.
    by apply cleanLine_Forall. }
  rewrite (proj2 (streq_false (trim line) [])) by done.
  rewrite (proj2 (streq_false (trim (cleanLine line)) [])) by done.
  done.
Qed.

(** Without a cue boundary the content is everything behind the first line,
    and every content line there reaches the output. *)
Lemma normalize_without_boundary doc preserveTiming line :
  isWebVtt doc = true ->
  hasCueBoundary (splitLines doc) = false ->
  line ∈ drop 1 (splitLines doc) ->
  tokenFree line = true -> trim (cleanLine line) <> [] ->
  trim (cleanLine line) ∈ splitLines (normalize doc preserveTiming).
Proof.
  intros Hweb Hnb Hline Htok Hclean.
  pose proof (marked_not_blank doc Hweb) as Hdoc.
  unfold normalize, isWebVtt in *.
  rewrite (proj2 (streq_false (trim doc) [])) by done.
  destruct (splitLines doc) as [|first [|second rest]] eqn:E; [done| |].
  { by apply elem_of_nil in Hline. }
  rewrite Hweb. simpl in Hnb. apply orb_false_elim in Hnb as [_ Hnb].
  rewrite (headerScan_none (second :: rest) 1) by done.
  cbn [drop] in *.
  pose proof (splitLines_noLF doc) as HLF. rewrite E in HLF.
  apply Forall_cons in HLF as [_ HLF].
  destruct (content_line_pushed line Htok Hclean) as [Hd Hp].
  destruct preserveTiming.
  - assert (trim (cleanLine line) ∈ flat_map preserveLine (second :: rest)) as Hin.
    { apply elem_of_flat_map. exists line. split; [done|]. rewrite Hp. by left. }
    rewrite splitLines_joinLines; [done| |].
    + intros Hnil. rewrite Hnil in Hin. by apply elem_of_nil in Hin.
    + by apply (flat_map_Forall noLF); [apply preserveLine_noLF|].
  - assert (trim (cleanLine line)
            ∈ dedupAdjacent (flat_map discardLine (second :: rest))) as Hin.
    { apply dedupAdjacent_keeps, elem_of_flat_map.
      exists line. split; [done|]. rewrite Hd. by left. }
    rewrite splitLines_joinLines; [done| |].
    + intros Hnil. rewrite Hnil in Hin. by apply elem_of_nil in Hin.
    + apply Forall_forall. intros u Hu%dedupAdjacent_subset.
      revert u Hu. apply Forall_forall.
      by apply (flat_map_Forall noLF); [apply discardLine_noLF|].
Qed.

Lemma flat_map_singletons {A : Type} (g : A -> list A) (l : list A) :
  (forall x, x ∈ l -> g x = [x]) -> flat_map g l = l.
Proof.
  induction l as [|x l IH]; intros H; simpl; [done|].
  rewrite (H x) by by left. simpl. f_equal. apply IH. intros y Hy. apply H. by right.
Qed.

Lemma stableText_elem text u :
  stableText text = true -> u ∈ splitLines text ->
  tokenFree u = true /\ cleanLine u = u.
Proof.
  unfold stableText. rewrite forallb_forall. intros H Hu%list_elem_of_In.
  apply H in Hu. apply andb_prop in Hu as [? ?%streq_true]. done.
Qed.

(** Normalising stable, already normalised lines again changes nothing. *)
Lemma normalize_rewrap lines :
  lines <> [] -> Forall noLF lines -> adjacentDistinct lines ->
  (forall u, u ∈ lines -> trim u = u /\ u <> [] /\ tokenFree u = true /\ cleanLine u = u) ->
  normalize (rewrap (joinLines lines)) false = joinLines lines.
Proof.
  intros Hne HLF Hdist Hstable.
  unfold normalize.
  assert (trim (rewrap (joinLines lines)) <> []) as Hdoc.
  { apply marker_not_blank. unfold rewrap. simpl. done. }
  rewrite (proj2 (streq_false _ [])) by done.
  unfold rewrap. rewrite splitLines_app_LF by (by repeat constructor).
  rewrite splitLines_joinLines by done.
  destruct lines as [|u lines]; [done|].
  change (includes WEBVTT WEBVTT) with true. cbv iota.
  rewrite headerScan_none.
  2:{ apply hasCueBoundary_no_blank, Forall_forall. intros v Hv.
      destruct (Hstable v Hv) as (-> & ? & _). done. }
  cbn [drop].
  rewrite flat_map_singletons.
  - by rewrite dedupAdjacent_id.
  - intros v Hv. destruct (Hstable v Hv) as (Htrim & Hv0 & Htok & Hclean).
    destruct (content_line_pushed v Htok) as [-> _]; rewrite Hclean, Htrim; done.
Qed.

End VttDocuments.

(** ** Facts about [withRetry] and the classification *)

Section RetryFacts.

Context {W T : Type}.
Variable setTimeout : Z -> W -> W.
Implicit Types (operation : @Operation W T) (w : W) (log : list Event).

Lemma invocations_app log1 log2 :
  invocations (log1 ++ log2) = (invocations log1 + invocations log2)%nat.
Proof.
  induction log1 as [|[|ms] log1 IH]; simpl; [done|by rewrite IH|done].
Qed.

(** The loop ends within the fuel [withRetry] gives it. *)
Lemma attempts_returns operation maxRetries delay fuel :
  forall attempt lastError w log,
    (maxRetries - attempt + 1 <= Z.of_nat fuel)%Z ->
    exists r,
      attempts setTimeout fuel operation maxRetries delay attempt lastError w log = Some r.
Proof.
  induction fuel as [|fuel IH]; intros attempt lastError w log Hfuel.
  - simpl. destruct (Z.leb_spec attempt maxRetries); [lia|by eauto].
  - simpl. destruct (Z.leb_spec attempt maxRetries); [|by eauto].
    destruct (operation w) as [[v|error] w']; [by eauto|].
    destruct (isNonRetryable error); [by eauto|].
    destruct (attempt =? maxRetries)%Z; [by eauto|].
    apply IH. lia.
Qed.

(** [withRetry] always completes: with a value or with a thrown value. *)
Lemma withRetry_returns operation maxRetries delay w :
  exists r, withRetry setTimeout operation maxRetries delay w = Some r.
Proof. unfold withRetry. apply attempts_returns. lia. Qed.

(** When every remaining attempt fails, the loop throws the wrapped last
    failure after invoking the operation once per remaining attempt. *)
Lemma attempts_allFail operation maxRetries delay attempt w last w' :
  allFail setTimeout operation maxRetries delay attempt w last w' ->
  forall fuel lastError log,
    (maxRetries - attempt + 1 <= Z.of_nat fuel)%Z ->
    exists log',
      attempts setTimeout fuel operation maxRetries delay attempt lastError w log
      = Some (Throw (exhausted maxRetries (Err last)), w', log ++ log') /\
      Z.of_nat (invocations log') = (maxRetries - attempt + 1)%Z.
Proof.
  induction 1 as [w last w' Hop Hretry
                 |attempt w error w1 last w' Hlt Hop Hretry Hrest IH];
    intros fuel lastError log Hfuel.
  - destruct fuel as [|fuel]; [lia|]. simpl.
    rewrite Z.leb_refl, Hop, Hretry, Z.eqb_refl.
    exists [Invoked]. split; [done|]. simpl. lia.
  - destruct fuel as [|fuel]; [lia|]. simpl.
    rewrite (proj2 (Z.leb_le attempt maxRetries)) by lia.
    rewrite Hop, Hretry.
    rewrite (proj2 (Z.eqb_neq attempt maxRetries)) by lia.
    destruct (IH fuel error (log ++ [Invoked; Waited (delay * attempt)%Z]))
      as (log' & Hrun & Hcount); [lia|].
    exists ([Invoked; Waited (delay * attempt)%Z] ++ log').
    split; [by rewrite Hrun, <- app_assoc|].
    simpl. lia.
Qed.

Lemma allFail_budget operation maxRetries delay attempt w last w' :
  allFail setTimeout operation maxRetries delay attempt w last w' ->
  (attempt <= maxRetries)%Z.
Proof. destruct 1; lia. Qed.

End RetryFacts.

Section ClassificationFacts.

Variable toLowerCase : jsstring -> jsstring.

(** [handleYtDlpError] gives one of six codes, the retryable flag set for
    three of them; [INVALID_URL] is none of them. *)
Lemma handleYtDlpError_codes (error : JsError) (url : jsstring) :
  let c := handleYtDlpError toLowerCase error url in
  (code c, retryable c) ∈
    [(Some VIDEO_NOT_FOUND, Some false); (Some PERMISSION_DENIED, Some false);
     (Some SUBTITLES_NOT_AVAILABLE, Some false); (Some FORMAT_NOT_AVAILABLE, Some true);
     (Some NETWORK_ERROR, Some true); (Some UNKNOWN_ERROR, Some true)].
Proof.
  unfold handleYtDlpError.
  repeat (match goal with
          | |- context [if ?b then _ else _] => destruct b
          end; [cbn [code retryable createMCPError]; set_solver|]).
  cbn [code retryable createMCPError]. set_solver.
Qed.

Lemma handleYtDlpError_not_invalid (error : JsError) (url : jsstring) :
  code (handleYtDlpError toLowerCase error url) <> Some INVALID_URL.
Proof.
  pose proof (handleYtDlpError_codes error url) as H. cbv zeta in H.
  intros E.
  destruct (retryable (handleYtDlpError toLowerCase error url)) as [r|];
    rewrite E in H;
    repeat (apply elem_of_cons in H as [H|H]; [by vm_compute in H|]);
    by apply elem_of_nil in H.
Qed.

Lemma handleYtDlpError_unknown (error : JsError) (url : jsstring) :
  knownPattern (toLowerCase (message error)) = false ->
  handleYtDlpError toLowerCase error url
  = YouTubeMCPError (str "Unexpected error: " ++ message error) UNKNOWN_ERROR true
      (Some error).
Proof.
  unfold knownPattern, handleYtDlpError, isVideoNotFound, isPermission,
    isNoSubtitles, isFormat, isNetwork.
  intros H.
  repeat (apply orb_false_elim in H as [H ?]).
  by repeat match goal with E : _ = false |- _ => rewrite E; clear E end.
Qed.

End ClassificationFacts.

Section ParseTimeFacts.

Variable num : Type.
Variable Number : jsstring -> num.
Variable ofZ : Z -> num.
Variable add mul : num -> num -> num.

(** The parser rejects a string exactly when it has neither two nor three
    parts; what the parts are plays no role. *)
Lemma parseTimeToSeconds_throws (timeStr : jsstring) :
  length (splitOn COLON timeStr) <> 2%nat ->
  length (splitOn COLON timeStr) <> 3%nat ->
  parseTimeToSeconds num Number ofZ add mul timeStr
  = Throw (Err (PlainError
      (str "Invalid time format: " ++ timeStr ++ str ". Use MM:SS or HH:MM:SS"))).
Proof.
  unfold parseTimeToSeconds. intros H2 H3.
  destruct (splitOn COLON timeStr) as [|a [|b [|c [|d rest]]]]; simpl in *; done.
Qed.

Lemma parseTimeToSeconds_accepts (timeStr : jsstring) :
  length (splitOn COLON timeStr) = 2%nat \/ length (splitOn COLON timeStr) = 3%nat ->
  exists v, parseTimeToSeconds num Number ofZ add mul timeStr = Return v.
Proof.
  unfold parseTimeToSeconds. intros H.
  destruct (splitOn COLON timeStr) as [|a [|b [|c [|d rest]]]]; simpl in *;
    try (destruct H; discriminate); by eauto.
Qed.

End ParseTimeFacts.

(** ** Facts about the cache *)

Section CacheFacts.

Context {T : Type}.
Variable JSON_stringify : CacheEntry T -> jsstring.
Variable JSON_parse : jsstring -> option (CacheEntry T).
Implicit Types (w : World) (file key : jsstring).

Lemma ensureCacheDir_exists w : existsSyncDir (ensureCacheDir w) = true.
Proof. by destruct w as [c [files|] m]. Qed.

Lemma lookupFile_advance file ms w : lookupFile file (advance ms w) = lookupFile file w.
Proof. done. Qed.

(** What [lookupFile] finds in an existing directory. *)
Lemma lookupFile_dir file w (files : gmap jsstring jsstring) :
  dir w = Some files ->
  lookupFile file w = if nameFits file w then files !! file else None.
Proof. unfold lookupFile. by intros ->. Qed.

(** A file that is found has a name the file system accepts. *)
Lemma lookupFile_fits file content w :
  lookupFile file w = Some content -> nameFits file w = true.
Proof.
  unfold lookupFile. destruct (dir w) as [files|]; [|done]. simpl.
  by destruct (nameFits file w).
Qed.

Lemma lookupFile_too_long file w : nameFits file w = false -> lookupFile file w = None.
Proof.
  unfold lookupFile. intros ->. by destruct (dir w).
Qed.

Lemma writeFileSync_exists file content w :
  existsSyncDir w = true ->
  nameFits file w = true ->
  exists w',
    writeFileSync file content w = Some w' /\ clock w' = clock w /\
    lookupFile file w' = Some content.
Proof.
  unfold existsSyncDir, writeFileSync. intros H Hfits.
  destruct (dir w) as [files|] eqn:Hdir; [|done]. simpl. rewrite Hfits.
  eexists. split; [done|]. split; [done|].
  rewrite (lookupFile_dir _ _ (<[file:=content]> files)) by done.
  unfold nameFits in *. simpl. rewrite Hfits. apply lookup_insert_eq.
Qed.

(** The file system refuses to write under a name it does not accept. *)
Lemma writeFileSync_too_long file content w :
  nameFits file w = false -> writeFileSync file content w = None.
Proof.
  unfold writeFileSync. intros ->. by destruct (dir w).
Qed.

Lemma unlinkSync_present file content w :
  lookupFile file w = Some content ->
  exists w',
    unlinkSync file w = Some w' /\ clock w' = clock w /\ lookupFile file w' = None.
Proof.
  unfold unlinkSync. intros H. rewrite H.
  destruct (dir w) as [files|] eqn:Hdir; [|by unfold lookupFile in H; rewrite Hdir in H].
  simpl. eexists. split; [done|]. split; [done|].
  rewrite (lookupFile_dir _ _ (base.delete file files)) by done.
  rewrite lookup_delete_eq. by destruct (nameFits _ _).
Qed.

(** Removing a file creates none. *)
Lemma unlinkSync_absent file other w w' :
  unlinkSync file w = Some w' ->
  lookupFile other w = None -> lookupFile other w' = None.
Proof.
  unfold unlinkSync. intros H Habs.
  destruct (dir w) as [files|] eqn:Hdir; [|done]. simpl in H.
  destruct (lookupFile file w); [|done]. simpl in H. injection H as <-.
  rewrite (lookupFile_dir _ _ files) in Habs by done.
  rewrite (lookupFile_dir _ _ (base.delete file files)) by done.
  change (nameFits other {| clock := clock w; dir := Some (base.delete file files);
                            nameMax := nameMax w |})
    with (nameFits other w).
  destruct (nameFits other w); [|done].
  destruct (decide (file = other)) as [->|Hne].
  - apply lookup_delete_eq.
  - by rewrite lookup_delete_ne.
Qed.

(** A live entry is returned and the store is left as it is. *)
Lemma get_live key content entry w :
  lookupFile (getCacheFile key) w = Some content ->
  JSON_parse content = Some entry ->
  (clock w <= expiresAt entry)%Z ->
  get JSON_parse key w = (Some (data entry), w).
Proof.
  intros Hfile Hparse Hlive. unfold get, existsSync, readFileSync, Date_now.
  rewrite Hfile. simpl. rewrite Hparse. simpl.
  rewrite Z.gtb_ltb. by rewrite (proj2 (Z.ltb_ge _ _)) by lia.
Qed.


(** An expired entry is reported absent and its file is removed. *)
Lemma get_expired key content entry w :
  lookupFile (getCacheFile key) w = Some content ->
  JSON_parse content = Some entry ->
  (expiresAt entry < clock w)%Z ->
  exists w',
    get JSON_parse key w = (None, w') /\
    unlinkSync (getCacheFile key) w = Some w' /\
    clock w' = clock w /\
    lookupFile (getCacheFile key) w' = None.
Proof.
  intros Hfile Hparse Hexp.
  destruct (unlinkSync_present _ _ _ Hfile) as (w' & Hunlink & Hclock & Hgone).
  exists w'. unfold get, existsSync, readFileSync, Date_now.
  rewrite Hfile. simpl. rewrite Hparse. simpl.
  rewrite Z.gtb_ltb. rewrite (proj2 (Z.ltb_lt _ _)) by lia.
  by rewrite Hunlink.
Qed.

(** A corrupted file is reported absent and removed. *)
Lemma get_corrupted key content w :
  lookupFile (getCacheFile key) w = Some content ->
  JSON_parse content = None ->
  exists w',
    get JSON_parse key w = (None, w') /\ lookupFile (getCacheFile key) w' = None.
Proof.
  intros Hfile Hparse.
  destruct (unlinkSync_present _ _ _ Hfile) as (w' & Hunlink & Hclock & Hgone).
  exists w'. unfold get, existsSync, readFileSync.
  rewrite Hfile. simpl. rewrite Hparse. simpl. by rewrite Hunlink.
Qed.

Lemma get_missing key w :
  lookupFile (getCacheFile key) w = None -> get JSON_parse key w = (None, w).
Proof. intros Hfile. unfold get, existsSync. by rewrite Hfile. Qed.

(** The sweep removes files and creates none. *)
Lemma cleanupLoop_absent (files : list jsstring) now : forall w other,
  lookupFile other w = None ->
  lookupFile other (cleanupLoop JSON_parse files now w) = None.
Proof.
  induction files as [|file rest IH]; intros w other Habs; [done|].
  cbn [cleanupLoop].
  destruct (negb (endsWith _ file)); [by apply IH|].
  assert (forall w', unlinkSync file w = Some w' ->
            lookupFile other (cleanupLoop JSON_parse rest now w') = None) as Hrm.
  { intros w' Hunlink. apply IH. by apply (unlinkSync_absent file other w). }
  destruct (readFileSync file w) as [content|]; cbn [mbind option_bind].
  - destruct (JSON_parse content) as [entry|]; cbn [mbind option_bind].
    + destruct (now >? expiresAt entry)%Z.
      * destruct (unlinkSync file w) as [w'|]; [by apply Hrm|done].
      * by apply IH.
    + destruct (unlinkSync file w) as [w'|]; [by apply Hrm|done].
  - destruct (unlinkSync file w) as [w'|]; [by apply Hrm|done].
Qed.

Lemma cleanup_absent other w :
  lookupFile other w = None -> lookupFile other (cleanup JSON_parse w) = None.
Proof.
  intros Habs. unfold cleanup.
  destruct (negb (existsSyncDir w)); [done|].
  destruct (readdirSync w) as [files|]; [|done].
  by apply cleanupLoop_absent.
Qed.

(** [set] writes the entry when the directory exists and the file system
    accepts the name of the file; otherwise the failed write is swallowed and
    the world is left as it is. *)
Lemma set_written key value ttl w :
  existsSyncDir w = true ->
  nameFits (getCacheFile key) w = true ->
  clock (set JSON_stringify key value ttl w) = clock w /\
  lookupFile (getCacheFile key) (set JSON_stringify key value ttl w)
  = Some (JSON_stringify
            {| data := value; timestamp := clock w;
               expiresAt := clock w + ttlOrDefault ttl |}).
Proof.
  intros Hdir Hfits. unfold set, Date_now.
  destruct (writeFileSync_exists (getCacheFile key)
              (JSON_stringify {| data := value; timestamp := clock w;
                                 expiresAt := clock w + ttlOrDefault ttl |}) w Hdir Hfits)
    as (w' & -> & Hclock & Hfile).
  done.
Qed.

(** [set] under a key whose file name the file system does not accept
    stores nothing: the failed write is swallowed. *)
Lemma set_too_long key value ttl w :
  nameFits (getCacheFile key) w = false -> set JSON_stringify key value ttl w = w.
Proof.
  intros Hlong. unfold set. by rewrite writeFileSync_too_long.
Qed.

Lemma set_without_dir key value ttl w :
  existsSyncDir w = false -> set JSON_stringify key value ttl w = w.
Proof.
  unfold existsSyncDir, set, writeFileSync. by destruct (dir w).
Qed.

End CacheFacts.

(** ** The caption normaliser against its specification *)

(** The two concrete scenarios of the specification. *)
Example scenario_discard :
  stripVttNonContent scenario false = Some (str "Hello world
Goodbye").
Proof. vm_compute. reflexivity. Qed.

Example scenario_preserve :
  stripVttNonContent scenario true = Some (str "00:00:01.000 --> 00:00:02.000
Hello world
00:00:02.000 --> 00:00:03.000
Hello world
00:00:03.000 --> 00:00:04.000
Goodbye").
Proof. vm_compute. reflexivity. Qed.

Example splitArrow_discard : stripVttNonContent splitArrow false = Some (str "-->").
Proof. vm_compute. reflexivity. Qed.

Example splitArrow_preserve : stripVttNonContent splitArrow true = Some (str "-->").
Proof. vm_compute. reflexivity. Qed.

(** C1, as stated, fails: the document [splitArrow] is WebVTT-like, its one
    content line ["-<c>->"] contains none of the three tokens, and removing
    the tag leaves the emitted line ["-->"]. *)
Lemma discard_tokens_counterexample :
  isWebVtt splitArrow = true /\ ~ discardOutputTokenFree splitArrow.
Proof.
  split; [by vm_compute|].
  intros (out & Hout & _ & Htok).
  rewrite splitArrow_discard in Hout. injection Hout as <-.
  specialize (Htok (str "-->")).
  assert (str "-->" ∈ splitLines (str "-->")) as Hin by (vm_compute; by left).
  apply Htok in Hin. by vm_compute in Hin.
Qed.

(** C1, amended: for every document, discard-timing normalisation returns,
    no two adjacent lines of its output are identical, and every non-empty
    line of the output is the trimmed, tag-stripped text of a source line
    that itself contains none of [-->], [align:], [position:]. *)
Theorem discard_lines_distinct_and_sourced (doc : jsstring) :
  exists out,
    stripVttNonContent doc false = Some out /\
    adjacentDistinct (splitLines out) /\
    forall u, u ∈ splitLines out -> u <> [] ->
      exists line, line ∈ splitLines doc /\ tokenFree line = true /\
                   u = trim (cleanLine line).
Proof.
  exists (normalize doc false).
  split; [apply stripVttNonContent_normalize|].
  destruct (normalize_discard_lines doc) as [Hdist Hsrc].
  split; [done|].
  done.
Qed.

Lemma discard_lines_distinct_and_sourced_witness :
  exists line, line ∈ splitLines scenario /\ tokenFree line = true /\
               str "Goodbye" = trim (cleanLine line).
Proof.
  destruct (discard_lines_distinct_and_sourced scenario) as (out & Hout & _ & Hsrc).
  rewrite scenario_discard in Hout. injection Hout as <-.
  apply Hsrc.
  - vm_compute. right. by left.
  - by vm_compute.
Defined.

(** C2, as stated, fails: in preserve-timing mode too the content line
    ["-<c>->"] of [splitArrow] is emitted as ["-->"], a line with an arrow
    that is no timing line. *)
Lemma preserve_arrows_counterexample :
  isWebVtt splitArrow = true /\ ~ preserveOutputArrowsShaped splitArrow.
Proof.
  split; [by vm_compute|].
  intros (out & Hout & Hshape).
  rewrite splitArrow_preserve in Hout. injection Hout as <-.
  specialize (Hshape (str "-->")).
  assert (str "-->" ∈ splitLines (str "-->")) as Hin by (vm_compute; by left).
  apply Hshape in Hin; by vm_compute in Hin.
Qed.

(** C2, amended: for every document, preserve-timing normalisation returns,
    and every non-empty line of its output is either exactly of the shape
    [HH:MM:SS.mmm --> HH:MM:SS.mmm] or the trimmed, tag-stripped text of a
    source line without [-->]; and the loop body, on a source line with
    [-->], pushes nothing when the timing pattern does not match and exactly
    one line of that shape when it does. *)
Theorem preserve_lines_shaped_or_content (doc : jsstring) :
  (exists out,
     stripVttNonContent doc true = Some out /\
     forall u, u ∈ splitLines out -> u <> [] ->
       isTimingShape u = true \/
       exists line, line ∈ splitLines doc /\ includes ARROW line = false /\
                    u = trim (cleanLine line)) /\
  (forall contentLines i processedLines line,
     contentLines !! i = Some line -> includes ARROW line = true ->
     (timingMatch line = None /\
      preserveBody contentLines i processedLines = Some processedLines) \/
     (exists t, timingMatch line <> None /\ isTimingShape t = true /\
        preserveBody contentLines i processedLines = Some (processedLines ++ [t]))).
Proof.
  split.
  - exists (normalize doc true).
    split; [apply stripVttNonContent_normalize|apply normalize_preserve_lines].
  - intros contentLines i processedLines line Hline Harrow.
    unfold preserveBody. rewrite Hline. cbn [mbind option_bind]. rewrite Harrow.
    destruct (timingMatch line) as [[t1 t2]|] eqn:E; [right|by left].
    exists (t1 ++ str " --> " ++ t2).
    split; [done|]. split; [by apply timingMatch_shape in E|done].
Qed.

Lemma preserve_lines_shaped_or_content_witness :
  (isTimingShape (str "00:00:01.000 --> 00:00:02.000") = true \/
   exists line, line ∈ splitLines scenario /\ includes ARROW line = false /\
                str "00:00:01.000 --> 00:00:02.000" = trim (cleanLine line)) /\
  ((timingMatch (str "1:02 --> 1:05") = None /\
    preserveBody [str "1:02 --> 1:05"] 0 [] = Some []) \/
   (exists t, timingMatch (str "1:02 --> 1:05") <> None /\ isTimingShape t = true /\
      preserveBody [str "1:02 --> 1:05"] 0 [] = Some ([] ++ [t]))).
Proof.
  destruct (preserve_lines_shaped_or_content scenario) as [(out & Hout & Hlines) Hbody].
  rewrite scenario_preserve in Hout. injection Hout as <-.
  split.
  - apply Hlines.
    + vm_compute. by left.
    + by vm_compute.
  - apply Hbody.
    + reflexivity.
    + vm_compute. reflexivity.
Defined.

(** C6: an input that is empty, made of white space only, or whose first
    line lacks the marker [WEBVTT] gives the empty string in both modes; and
    the function returns a string on every input (no array is read out of
    range, so no TypeError is raised). *)
Theorem unmarked_gives_empty_and_total (doc : jsstring) (preserveTiming : bool) :
  (doc = [] \/ trim doc = [] \/ isWebVtt doc = false ->
   stripVttNonContent doc preserveTiming = Some []) /\
  (exists out, stripVttNonContent doc preserveTiming = Some out).
Proof.
  rewrite stripVttNonContent_normalize. split; [|by eauto].
  intros H. f_equal. unfold normalize.
  assert (trim doc = [] \/ isWebVtt doc = false) as [E|E].
  { destruct H as [->|[H|H]]; [by left|by left|by right]. }
  - by rewrite E.
  - destruct (streq (trim doc) []); [done|]. unfold isWebVtt in E.
    destruct (splitLines doc) as [|first [|second rest]]; [done..|].
    by rewrite E.
Qed.

Lemma unmarked_gives_empty_and_total_witness :
  stripVttNonContent (str "1
00:00:01.000 --> 00:00:02.000
Hello world") true = Some [] /\
  stripVttNonContent (str "  ") false = Some [].
Proof.
  split.
  - apply (proj1 (unmarked_gives_empty_and_total _ _)).
    right. right. vm_compute. reflexivity.
  - apply (proj1 (unmarked_gives_empty_and_total _ _)).
    right. left. vm_compute. reflexivity.
Defined.

(** C7, as stated, fails: the discard-timing output of [splitArrow] is
    ["-->"]; re-wrapped, that line is a timing line and is dropped, so the
    second normalisation gives the empty string. *)
Lemma discard_idempotent_counterexample : ~ discardIdempotent splitArrow.
Proof.
  intros (out & Hout & Hagain).
  rewrite splitArrow_discard in Hout. injection Hout as <-.
  by vm_compute in Hagain.
Qed.

(** C7, amended: for every document, discard-timing normalisation returns
    an output, and when no line of that output contains [-->], [align:] or
    [position:] or a tag that cleaning would remove, normalising the
    re-wrapped output again in discard-timing mode returns exactly the
    output. *)
Theorem discard_idempotent_when_stable (doc : jsstring) :
  exists out,
    stripVttNonContent doc false = Some out /\
    (stableText out = true -> stripVttNonContent (rewrap out) false = Some out).
Proof.
  exists (normalize doc false).
  split; [apply stripVttNonContent_normalize|].
  intros Hstable. rewrite stripVttNonContent_normalize. f_equal.
  destruct (normalize_discard_structure doc) as (pushed & E & HLF & Hdist & Hsrc).
  rewrite E in *.
  destruct (decide (pushed = [])) as [->|Hne]; [by vm_compute|].
  apply normalize_rewrap; [done..|].
  intros u Hu. destruct (Hsrc u Hu) as (Hu0 & Htrim & _).
  destruct (stableText_elem (joinLines pushed) u Hstable) as [Htok Hclean];
    [by rewrite splitLines_joinLines|done].
Qed.

Lemma discard_idempotent_when_stable_witness :
  stripVttNonContent (rewrap (str "Hello world
Goodbye")) false = Some (str "Hello world
Goodbye").
Proof.
  destruct (discard_idempotent_when_stable scenario) as (out & Hout & Hagain).
  rewrite scenario_discard in Hout. injection Hout as <-.
  apply Hagain. vm_compute. reflexivity.
Defined.

(** C10: for a document whose first line contains [WEBVTT] and in which no
    blank line is immediately followed by a line containing [-->], the
    header loop leaves [headerEndIndex] at 1, so only the first line is
    skipped, and in both modes every later line that is a content line
    (none of the three tokens, text left after cleaning) appears, cleaned
    and trimmed, in the output: header lines such as [Kind: captions] and
    [Language: en] are emitted as text. *)
Theorem header_kept_without_cue_boundary (doc : jsstring) (preserveTiming : bool) :
  isWebVtt doc = true ->
  hasCueBoundary (splitLines doc) = false ->
  headerLoop (splitLines doc) (length (splitLines doc) - 1) 1 1 = Some 1%nat /\
  exists out,
    stripVttNonContent doc preserveTiming = Some out /\
    forall line,
      line ∈ drop 1 (splitLines doc) ->
      tokenFree line = true -> trim (cleanLine line) <> [] ->
      trim (cleanLine line) ∈ splitLines out.
Proof.
  intros Hweb Hnb. split.
  - destruct (splitLines_cons doc) as (first & rest & E).
    rewrite (headerLoop_scan _ _ 1) by (rewrite E; simpl; lia).
    rewrite headerScan_none; [done|].
    rewrite E in Hnb |- *. simpl in Hnb. by apply orb_false_elim in Hnb as [_ ?].
  - exists (normalize doc preserveTiming).
    split; [apply stripVttNonContent_normalize|].
    intros line. by apply normalize_without_boundary.
Qed.

Example headerOnly_discard :
  stripVttNonContent headerOnly false = Some (str "Kind: captions
Language: en
Hello").
Proof. vm_compute. reflexivity. Qed.

Example headerOnly_preserve :
  stripVttNonContent headerOnly true = Some (str "Kind: captions
Language: en
Hello").
Proof. vm_compute. reflexivity. Qed.

Lemma header_kept_without_cue_boundary_witness :
  str "Kind: captions" ∈ splitLines (str "Kind: captions
Language: en
Hello").
Proof.
  destruct (header_kept_without_cue_boundary headerOnly true) as (_ & out & Hout & Hkept).
  - vm_compute. reflexivity.
  - vm_compute. reflexivity.
  - rewrite headerOnly_preserve in Hout. injection Hout as <-.
    apply (Hkept (str "Kind: captions")).
    + vm_compute. by left.
    + vm_compute. reflexivity.
    + by vm_compute.
Defined.

(** ** The retry executor against its specification *)

Section RetryClaims.

Context {W T : Type}.
Variable setTimeout : Z -> W -> W.

(** C3: with the default budget of three attempts, an operation that fails
    twice with a failure that is not classified non-retryable and succeeds
    on its third invocation makes [withRetry] return the success value after
    exactly three invocations (with waits of 1000 and 2000 ms between them);
    and an operation whose first failure is classified non-retryable is
    invoked exactly once, that failure being thrown as it is. *)
Theorem retry_default_budget (operation : @Operation W T) (w0 : W) :
  (forall e1 w1 e2 w2 v w3,
     operation w0 = (Throw e1, w1) -> isNonRetryable e1 = false ->
     operation (setTimeout 1000 w1) = (Throw e2, w2) -> isNonRetryable e2 = false ->
     operation (setTimeout 2000 w2) = (Return v, w3) ->
     exists log,
       withRetry setTimeout operation None None w0 = Some (Return v, w3, log) /\
       log = [Invoked; Waited 1000; Invoked; Waited 2000; Invoked] /\
       invocations log = 3%nat) /\
  (forall e w1,
     operation w0 = (Throw e, w1) -> isNonRetryable e = true ->
     exists log,
       withRetry setTimeout operation None None w0 = Some (Throw e, w1, log) /\
       invocations log = 1%nat).
Proof.
  split.
  - intros e1 w1 e2 w2 v w3 H1 R1 H2 R2 H3.
    eexists. split; [|split; [reflexivity|reflexivity]].
    unfold withRetry. simpl. rewrite H1, R1. simpl.
    change (1000 * 1)%Z with 1000%Z. change (1000 * (1 + 1))%Z with 2000%Z.
    rewrite H2, R2.
    by rewrite H3.
  - intros e w1 H1 R1. exists [Invoked]. split; [|done].
    unfold withRetry. simpl. by rewrite H1, R1.
Qed.

(** C5: when all [maxRetries] attempts fail without a non-retryable
    classification, the last of them with the error [last], [withRetry]
    invokes the operation [maxRetries] times and throws a new
    [YouTubeMCPError] with code [UNKNOWN_ERROR], not retryable, whose
    message carries the attempt count and the message of [last], and which
    wraps [last]. *)
Theorem retry_exhausted_wraps_last (operation : @Operation W T)
    (maxRetries : Z) (delay : option Z) (w w' : W) (last : JsError) :
  allFail setTimeout operation maxRetries (default 1000%Z delay) 1 w last w' ->
  exists log,
    withRetry setTimeout operation (Some maxRetries) delay w
    = Some (Throw (Err (YouTubeMCPError
                          (str "Operation failed after " ++ numberToString maxRetries
                           ++ str " attempts: " ++ message last)
                          UNKNOWN_ERROR false (Some last))),
            w', log) /\
    Z.of_nat (invocations log) = maxRetries.
Proof.
  intros Hfail. pose proof (allFail_budget _ _ _ _ _ _ _ _ Hfail) as Hbudget.
  unfold withRetry. change (default 3%Z (Some maxRetries)) with maxRetries.
  destruct (attempts_allFail _ _ _ _ _ _ _ _ Hfail (Z.to_nat maxRetries) Undefined [])
    as (log & Hrun & Hcount); [lia|].
  exists log. split; [by rewrite Hrun|lia].
Qed.

(** C9: with an attempt budget of zero or less, [withRetry] never invokes
    the operation and returns no value: it throws [undefined], the value
    [lastError] has before any assignment, which is no classified failure. *)
Theorem retry_without_budget (operation : @Operation W T) (maxRetries : Z)
    (delay : option Z) (w : W) :
  (maxRetries <= 0)%Z ->
  exists log,
    withRetry setTimeout operation (Some maxRetries) delay w
    = Some (Throw Undefined, w, log) /\
    invocations log = 0%nat.
Proof.
  intros H. exists []. split; [|done]. unfold withRetry. change (default 3%Z (Some maxRetries)) with maxRetries.
  destruct (Z.to_nat maxRetries); simpl;
    by rewrite (proj2 (Z.leb_gt 1 maxRetries)) by lia.
Qed.

End RetryClaims.

Lemma retry_default_budget_witness :
  (exists log,
     withRetry noWait (flaky 2) None None 0%nat = Some (Return 42%Z, 3%nat, log) /\
     log = [Invoked; Waited 1000; Invoked; Waited 2000; Invoked] /\
     invocations log = 3%nat) /\
  (exists log,
     withRetry noWait missingTool None None 0%nat
     = Some (Throw (Err (YouTubeMCPError (str "yt-dlp is not installed")
                           YT_DLP_NOT_FOUND false None)), 1%nat, log) /\
     invocations log = 1%nat).
Proof.
  split.
  - apply (proj1 (retry_default_budget noWait (flaky 2) 0%nat)
             (Err (PlainError (str "network unreachable"))) 1%nat
             (Err (PlainError (str "network unreachable"))) 2%nat);
      reflexivity.
  - apply (proj2 (retry_default_budget noWait missingTool 0%nat)); reflexivity.
Defined.

Lemma retry_exhausted_wraps_last_witness :
  exists log,
    withRetry noWait (flaky 5) (Some 2%Z) None 0%nat
    = Some (Throw (Err (YouTubeMCPError
                          (str "Operation failed after 2 attempts: network unreachable")
                          UNKNOWN_ERROR false
                          (Some (PlainError (str "network unreachable"))))),
            2%nat, log) /\
    Z.of_nat (invocations log) = 2%Z.
Proof.
  apply (retry_exhausted_wraps_last noWait (flaky 5) 2 None 0%nat 2%nat
           (PlainError (str "network unreachable"))).
  apply (allFail_more noWait (flaky 5) 2 1000 1 0%nat
           (Err (PlainError (str "network unreachable"))) 1%nat);
    [lia|reflexivity|reflexivity|].
  apply (allFail_last noWait (flaky 5) 2 1000 1%nat); reflexivity.
Defined.

Lemma retry_without_budget_witness :
  exists log,
    withRetry noWait (flaky 0) (Some 0%Z) None 0%nat = Some (Throw Undefined, 0%nat, log) /\
    invocations log = 0%nat.
Proof. apply retry_without_budget. lia. Defined.

(** The operation is invoked at most [maxRetries] times, whatever it does
    (for a positive budget). *)
Lemma attempts_invocations_bound {W T : Type} (setTimeout : Z -> W -> W)
    (operation : @Operation W T) (maxRetries delay : Z) (fuel : nat) :
  forall attempt lastError w log r,
    attempts setTimeout fuel operation maxRetries delay attempt lastError w log = Some r ->
    (1 <= attempt)%Z ->
    (Z.of_nat (invocations log) <= attempt - 1)%Z ->
    (Z.of_nat (invocations r.2) <= Z.max maxRetries (attempt - 1))%Z.
Proof.
  induction fuel as [|fuel IH]; intros attempt lastError w log r Hrun Hatt Hlog;
    simpl in Hrun.
  - destruct (Z.leb_spec attempt maxRetries); [done|].
    injection Hrun as <-. simpl. lia.
  - destruct (Z.leb_spec attempt maxRetries); [|injection Hrun as <-; simpl; lia].
    destruct (operation w) as [[v|error] w'].
    { injection Hrun as <-. simpl. rewrite invocations_app. simpl. lia. }
    destruct (isNonRetryable error).
    { injection Hrun as <-. simpl. rewrite invocations_app. simpl. lia. }
    destruct (attempt =? maxRetries)%Z.
    { injection Hrun as <-. simpl. rewrite invocations_app. simpl. lia. }
    apply IH in Hrun; [lia|lia|].
    rewrite invocations_app. simpl. lia.
Qed.

(** ** The classification of a malformed time against its specification *)

(** C8, as stated, fails: the time string ["abc"] is no MM:SS or HH:MM:SS
    time; [parseTimeToSeconds] rejects it with a plain [Error], and the
    handler classifies that as [UNKNOWN_ERROR] with the retryable flag set,
    not as InvalidInput and non-retryable. *)
Lemma malformed_time_counterexample :
  ~ malformedTimeIsInvalidInput toLowerCaseAscii unit (fun _ => tt) (fun _ => tt)
      (fun _ _ => tt) (fun _ _ => tt) (str "abc") (str "https://youtu.be/x").
Proof.
  intros H. destruct H as (e & Hthrow & Hcode & _); [by vm_compute|].
  vm_compute in Hthrow. injection Hthrow as <-.
  by vm_compute in Hcode.
Qed.

Section MalformedTime.

Context {W : Type}.
Variable setTimeout : Z -> W -> W.
Variable toLowerCase : jsstring -> jsstring.
Variable spawnPromise : jsstring -> list jsstring -> jsstring -> W -> Completion jsstring * W.
Variable mkdtempSync : W -> Completion jsstring * W.
Variable rimrafSync : jsstring -> W -> Completion unit * W.
Variable num : Type.
Variable Number : jsstring -> num.
Variable ofZ : Z -> num.
Variable add mul : num -> num -> num.
Variable isTruthy : num -> bool.
Variable geq : num -> num -> bool.
Variable numToString : num -> jsstring.
Variable fs_readdirSync : jsstring -> W -> Completion (list jsstring) * W.
Variable fs_readFileSync : jsstring -> W -> Completion jsstring * W.
Variable path_join : jsstring -> jsstring -> jsstring.
Variable describeVideo : jsstring -> Completion (jsstring * jsstring).
Variable thrownToString : Thrown -> jsstring.

(** The time range is rejected with the error of the first of the two time
    strings that [parseTimeToSeconds] does not accept. *)
Lemma timeRangeArgs_rejects (time_start time_end : option jsstring) (timeStr : jsstring) :
  timeStr <> [] ->
  length (splitOn COLON timeStr) <> 2%nat ->
  length (splitOn COLON timeStr) <> 3%nat ->
  time_start = Some timeStr \/
  (time_end = Some timeStr /\
   (truthy time_start = false \/
    exists start,
      time_start = Some start /\
      (length (splitOn COLON start) = 2%nat \/ length (splitOn COLON start) = 3%nat))) ->
  timeRangeArgs num Number ofZ add mul isTruthy geq numToString time_start time_end
  = Throw (Err (PlainError
      (str "Invalid time format: " ++ timeStr ++ str ". Use MM:SS or HH:MM:SS"))).
Proof.
  intros Hne H2 H3 Hwhich.
  pose proof (parseTimeToSeconds_throws num Number ofZ add mul timeStr H2 H3) as Hthrow.
  destruct timeStr as [|c s]; [done|]. unfold timeRangeArgs.
  destruct Hwhich as [->|[-> Hstart]].
  - cbn [truthy orb]. by rewrite Hthrow.
  - cbn [truthy]. rewrite orb_true_r.
    destruct Hstart as [Hfalsy|(start & -> & Hparts)].
    + destruct time_start as [[|c' s']|]; [|done|]; by rewrite Hthrow.
    + destruct (parseTimeToSeconds_accepts num Number ofZ add mul start Hparts)
        as [v Hv].
      destruct start as [|c' s']; [by destruct Hparts|].
      rewrite Hv. by rewrite Hthrow.
Qed.

(** C8, amended: a time_start or time_end string that does not split at
    [:] into two or three parts makes [parseTimeToSeconds] throw a plain
    [Error] with the message [Invalid time format: ... Use MM:SS or
    HH:MM:SS].  In [handleDownloadSubtitles] the failure is propagated on
    first occurrence without consuming retry attempts: the time range is
    read before the first [withRetry], so no child process is started and
    nothing is waited for or retried; the temporary directory is removed
    and the caller gets an error response.  The failure is not classified as
    InvalidInput ([INVALID_URL]): it goes through [handleYtDlpError], and
    when its lower-cased message contains none of the five patterns it is
    Unclassified ([UNKNOWN_ERROR]). *)
Theorem malformed_time_propagated_at_once (args : SubtitleArgs)
    (timeStr tempDir : jsstring) (w w1 w2 : W) :
  let e := PlainError
             (str "Invalid time format: " ++ timeStr ++ str ". Use MM:SS or HH:MM:SS") in
  let classified := classifyCaught toLowerCase e (url args) in
  timeStr <> [] ->
  length (splitOn COLON timeStr) <> 2%nat ->
  length (splitOn COLON timeStr) <> 3%nat ->
  time_start args = Some timeStr \/
  (time_end args = Some timeStr /\
   (truthy (time_start args) = false \/
    exists start,
      time_start args = Some start /\
      (length (splitOn COLON start) = 2%nat \/ length (splitOn COLON start) = 3%nat))) ->
  mkdtempSync w = (Return tempDir, w1) ->
  rimrafSync tempDir w1 = (Return tt, w2) ->
  parseTimeToSeconds num Number ofZ add mul timeStr = Throw (Err e) /\
  handleDownloadSubtitles setTimeout toLowerCase spawnPromise mkdtempSync rimrafSync
    num Number ofZ add mul isTruthy geq numToString fs_readdirSync fs_readFileSync
    path_join describeVideo thrownToString args w
  = Some (Return {| text := str "Error: " ++ message classified; isError := true |},
          w2, []) /\
  code classified <> Some INVALID_URL /\
  (knownPattern (toLowerCase (message e)) = false ->
   code classified = Some UNKNOWN_ERROR /\
   message classified = str "Unexpected error: " ++ message e).
Proof.
  intros e classified Hne H2 H3 Hwhich Hmk Hrm.
  split; [by apply parseTimeToSeconds_throws|]. split.
  - unfold handleDownloadSubtitles. rewrite Hmk.
    unfold downloadSubtitlesBody, buildYtDlpArgs. cbv zeta.
    rewrite (timeRangeArgs_rejects _ _ timeStr Hne H2 H3 Hwhich).
    cbn [mbind option_bind catchBlock]. by rewrite Hrm.
  - split; [apply handleYtDlpError_not_invalid|].
    intros Hunknown. subst classified e. cbn [classifyCaught].
    by rewrite (handleYtDlpError_unknown toLowerCase _ (url args) Hunknown).
Qed.

End MalformedTime.

Lemma malformed_time_propagated_at_once_witness :
  parseTimeToSeconds unit (fun _ => tt) (fun _ => tt) (fun _ _ => tt) (fun _ _ => tt)
    (str "abc")
  = Throw (Err (PlainError (str "Invalid time format: abc. Use MM:SS or HH:MM:SS"))) /\
  handleDownloadSubtitles noWait toLowerCaseAscii spawnFails tempDirMade tempDirRemoved
    unit (fun _ => tt) (fun _ => tt) (fun _ _ => tt) (fun _ _ => tt)
    (fun _ => false) (fun _ _ => false) (fun _ => str "NaN")
    noFiles emptyFile (fun dir file => dir ++ str "/" ++ file)
    (fun _ => Throw Undefined) (fun _ => str "undefined") badStartArgs 0%nat
  = Some (Return {| text := str "Error: Unexpected error: Invalid time format: abc."
                            ++ str " Use MM:SS or HH:MM:SS";
                    isError := true |}, 0%nat, []).
Proof.
  destruct (malformed_time_propagated_at_once noWait toLowerCaseAscii spawnFails
              tempDirMade tempDirRemoved
              unit (fun _ => tt) (fun _ => tt) (fun _ _ => tt) (fun _ _ => tt)
              (fun _ => false) (fun _ _ => false) (fun _ => str "NaN")
              noFiles emptyFile (fun dir file => dir ++ str "/" ++ file)
              (fun _ => Throw Undefined) (fun _ => str "undefined")
              badStartArgs (str "abc") (str "/tmp/youtube-a1b2c3") 0%nat 0%nat 0%nat)
    as (Hthrow & Hrun & _ & Hclass).
  - discriminate.
  - vm_compute. lia.
  - vm_compute. lia.
  - left. reflexivity.
  - reflexivity.
  - reflexivity.
  - split; [exact Hthrow|]. rewrite Hrun.
    destruct Hclass as [_ ->]; [vm_compute; reflexivity|]. reflexivity.
Defined.

(** A string of two or three parts is accepted whatever its parts are. *)
Example parseTimeToSeconds_accepts_letters :
  exists v, parseTimeToSeconds unit (fun _ => tt) (fun _ => tt) (fun _ _ => tt)
              (fun _ _ => tt) (str "ab:cd") = Return v.
Proof. apply parseTimeToSeconds_accepts. left. vm_compute. reflexivity. Qed.

(** ** The cache against its specification *)

Section CacheClaims.

Context {T : Type}.
Variable JSON_stringify : CacheEntry T -> jsstring.
Variable JSON_parse : jsstring -> option (CacheEntry T).

(** C4, amended: in an existing cache directory, for a key whose file name
    the file system accepts, a value that survives serialisation and a
    positive ttl, [get] right after [set] (and at any time up to the expiry
    instant) returns the value and changes nothing; under a key whose file
    name the file system does not accept [set] stores nothing, and [get]
    returns absent; and [get] of a stored entry whose [expiresAt] has passed
    returns absent and removes the file of the key, which is then absent
    before and after any later [cleanup]: the sweep has nothing to do for
    that key. *)
Theorem cache_get_after_set_and_expiry (key : jsstring) :
  (forall (value : T) (ttl elapsed : Z) (w : World),
     existsSyncDir w = true ->
     nameFits (getCacheFile key) w = true ->
     (0 < ttl)%Z -> (0 <= elapsed <= ttl)%Z ->
     JSON_parse (JSON_stringify {| data := value; timestamp := clock w;
                                   expiresAt := clock w + ttl |})
     = Some {| data := value; timestamp := clock w; expiresAt := clock w + ttl |} ->
     let w1 := advance elapsed (set JSON_stringify key value (Some ttl) w) in
     get JSON_parse key w1 = (Some value, w1)) /\
  (forall (value : T) (ttl : option Z) (w : World),
     nameFits (getCacheFile key) w = false ->
     set JSON_stringify key value ttl w = w /\
     get JSON_parse key (set JSON_stringify key value ttl w) = (None, w)) /\
  (forall (w : World) (content : jsstring) (entry : CacheEntry T),
     lookupFile (getCacheFile key) w = Some content ->
     JSON_parse content = Some entry ->
     (expiresAt entry < clock w)%Z ->
     exists w',
       get JSON_parse key w = (None, w') /\
       existsSync (getCacheFile key) w' = false /\
       forall later, (0 <= later)%Z ->
         existsSync (getCacheFile key) (advance later w') = false /\
         existsSync (getCacheFile key) (cleanup JSON_parse (advance later w')) = false).
Proof.
  split; [|split].
  - intros value ttl elapsed w Hdir Hfits Httl Helapsed Hround w1.
    destruct (set_written JSON_stringify key value (Some ttl) w Hdir Hfits)
      as [Hclock Hfile].
    assert (ttlOrDefault (Some ttl) = ttl) as Ettl.
    { unfold ttlOrDefault. by rewrite (proj2 (Z.eqb_neq ttl 0)) by lia. }
    rewrite Ettl in Hfile.
    apply (get_live JSON_parse key _ _ w1 Hfile Hround).
    subst w1. simpl. lia.
  - intros value ttl w Hlong.
    rewrite (set_too_long JSON_stringify key value ttl w Hlong).
    split; [done|]. apply get_missing. by apply lookupFile_too_long.
  - intros w content entry Hfile Hparse Hexp.
    destruct (get_expired JSON_parse key content entry w Hfile Hparse Hexp)
      as (w' & Hget & _ & _ & Hgone).
    exists w'. split; [done|].
    unfold existsSync. rewrite Hgone. split; [done|].
    intros later _. rewrite lookupFile_advance, Hgone. split; [done|].
    by rewrite (cleanup_absent JSON_parse _ (advance later w')).
Qed.

End CacheClaims.

(** C4, as stated, fails: [set] swallows a failed write, and the file
    system refuses a file name longer than it accepts.  The sanitised name
    of a key is as long as the key, so under a key of 300 characters, on a
    file system with names of up to 255 bytes, nothing is stored and [get]
    right after [set] returns absent. *)
Lemma cache_long_key_counterexample :
  ~ getAfterSetReturns stringifyEntry parseEntry longKey 212%Z 500%Z freshWorld.
Proof.
  unfold getAfterSetReturns.
  rewrite (set_too_long stringifyEntry longKey 212%Z (Some 500%Z) freshWorld)
    by (vm_compute; reflexivity).
  rewrite (get_missing parseEntry longKey freshWorld) by (vm_compute; reflexivity).
  discriminate.
Qed.

Example cache_roundtrip_scenario :
  get parseEntry videoKey (set stringifyEntry videoKey 212%Z (Some 500%Z) freshWorld)
  = (Some 212%Z, set stringifyEntry videoKey 212%Z (Some 500%Z) freshWorld).
Proof. vm_compute. reflexivity. Qed.

Lemma cache_get_after_set_and_expiry_witness :
  (let w1 := advance 0 (set stringifyEntry videoKey 212%Z (Some 500%Z) freshWorld) in
   get parseEntry videoKey w1 = (Some 212%Z, w1)) /\
  (set stringifyEntry longKey 212%Z (Some 500%Z) freshWorld = freshWorld /\
   get parseEntry longKey (set stringifyEntry longKey 212%Z (Some 500%Z) freshWorld)
   = (None, freshWorld)) /\
  (exists w',
     get parseEntry videoKey
       (advance 501 (set stringifyEntry videoKey 212%Z (Some 500%Z) freshWorld))
     = (None, w') /\
     existsSync (getCacheFile videoKey) w' = false /\
     forall later, (0 <= later)%Z ->
       existsSync (getCacheFile videoKey) (advance later w') = false /\
       existsSync (getCacheFile videoKey) (cleanup parseEntry (advance later w')) = false).
Proof.
  split; [|split].
  - apply (proj1 (cache_get_after_set_and_expiry stringifyEntry parseEntry videoKey)).
    + reflexivity.
    + reflexivity.
    + lia.
    + lia.
    + vm_compute. reflexivity.
  - apply (proj1 (proj2 (cache_get_after_set_and_expiry stringifyEntry parseEntry longKey))).
    vm_compute. reflexivity.
  - apply (proj2 (proj2 (cache_get_after_set_and_expiry stringifyEntry parseEntry videoKey))
             (advance 501 (set stringifyEntry videoKey 212%Z (Some 500%Z) freshWorld))
             (str "212,1000,1500")
             {| data := 212%Z; timestamp := 1000%Z; expiresAt := 1500%Z |}).
    + vm_compute. reflexivity.
    + vm_compute. reflexivity.
    + vm_compute. reflexivity.
Defined.

(** ** More about the cache *)

Section CacheSweeps.

Context {T : Type}.
Variable JSON_stringify : CacheEntry T -> jsstring.
Variable JSON_parse : jsstring -> option (CacheEntry T).
Implicit Types (w : World) (file key : jsstring) (files : gmap jsstring jsstring).

Lemma world_eq w1 w2 :
  clock w1 = clock w2 -> dir w1 = dir w2 -> nameMax w1 = nameMax w2 -> w1 = w2.
Proof. destruct w1, w2. simpl. by intros -> -> ->. Qed.

(** Two worlds with the same clock, the same limit on names and the same
    content of the directory are the same. *)
Lemma world_ext w1 w2 files1 files2 :
  clock w1 = clock w2 -> nameMax w1 = nameMax w2 ->
  dir w1 = Some files1 -> dir w2 = Some files2 ->
  (forall file, files1 !! file = files2 !! file) -> w1 = w2.
Proof.
  intros Hclock Hmax Hdir1 Hdir2 Hfiles. apply world_eq; [done| |done].
  rewrite Hdir1, Hdir2. f_equal. by apply map_eq.
Qed.

Lemma startsWith_prefix (p r : jsstring) : startsWith p (p ++ r) = true.
Proof.
  induction p as [|a p IH]; simpl; [by destruct r|]. by rewrite N.eqb_refl.
Qed.

Lemma endsWith_suffix (p s : jsstring) : endsWith p (s ++ p) = true.
Proof. unfold endsWith. rewrite rev_app_distr. apply startsWith_prefix. Qed.

Lemma getCacheFile_sanitizeKey key : getCacheFile key = sanitizeKey key ++ str ".json".
Proof. done. Qed.

Lemma getCacheFile_json key : endsWith (str ".json") (getCacheFile key) = true.
Proof. rewrite getCacheFile_sanitizeKey. apply endsWith_suffix. Qed.

Lemma readdirSync_names w files :
  dir w = Some files ->
  exists names,
    readdirSync w = Some names /\ NoDup names /\
    forall file, file ∈ names <-> is_Some (files !! file) /\ nameFits file w = true.
Proof.
  intros Hdir. unfold readdirSync. rewrite Hdir. simpl.
  eexists. split; [done|]. split; [apply NoDup_filter, NoDup_fst_map_to_list|].
  intros file. rewrite list_elem_of_filter, list_elem_of_fmap, Is_true_true. split.
  - intros [Hfits ([name content] & -> & Hin)]. apply elem_of_map_to_list in Hin.
    split; [by eexists|done].
  - intros [[content Hc] Hfits]. split; [done|]. exists (file, content).
    split; [done|]. by apply elem_of_map_to_list.
Qed.

(** Removing a file that is there, in terms of the content of the
    directory. *)
Lemma unlinkSync_dir name w files content :
  dir w = Some files -> files !! name = Some content -> nameFits name w = true ->
  unlinkSync name w
  = Some {| clock := clock w; dir := Some (base.delete name files);
            nameMax := nameMax w |}.
Proof.
  intros Hdir Hc Hfits. unfold unlinkSync.
  rewrite (lookupFile_dir _ _ files Hdir), Hdir, Hfits, Hc. done.
Qed.

(** The loop of [clear] over distinct names of existing files removes those
    that end in [.json] and nothing else. *)
Lemma clearLoop_exact (names : list jsstring) : forall w files,
  dir w = Some files ->
  NoDup names ->
  (forall file, file ∈ names -> is_Some (files !! file) /\ nameFits file w = true) ->
  clock (clearLoop names w) = clock w /\
  nameMax (clearLoop names w) = nameMax w /\
  exists files',
    dir (clearLoop names w) = Some files' /\
    forall file,
      files' !! file
      = if bool_decide (file ∈ names) && endsWith (str ".json") file
        then None else files !! file.
Proof.
  induction names as [|name names IH]; intros w files Hdir Hnodup Hpresent.
  { split; [done|]. split; [done|]. exists files. split; [done|]. intros file.
    by rewrite (bool_decide_eq_false_2 (file ∈ [])) by apply not_elem_of_nil. }
  apply NoDup_cons in Hnodup as [Hfresh Hnodup].
  cbn [clearLoop].
  destruct (endsWith (str ".json") name) eqn:Ejson.
  - destruct (Hpresent name) as [[content Hc] Hfits]; [by left|].
    rewrite (unlinkSync_dir name w files content Hdir Hc Hfits).
    set (w' := {| clock := clock w; dir := Some (base.delete name files);
                  nameMax := nameMax w |}).
    destruct (IH w' (base.delete name files))
      as (Hclock & Hmax & files' & Hdir' & Hfiles); [done..| |].
    { intros file Hin. rewrite lookup_delete_ne; [apply Hpresent; by right|].
      intros ->. done. }
    split; [done|]. split; [done|]. exists files'. split; [done|].
    intros file. rewrite Hfiles.
    destruct (decide (file = name)) as [->|Hne].
    + rewrite lookup_delete_eq, Ejson.
      rewrite (bool_decide_eq_true_2 (name ∈ name :: names)) by by left.
      by destruct (bool_decide (name ∈ names)).
    + rewrite lookup_delete_ne by done.
      rewrite (bool_decide_ext (file ∈ name :: names) (file ∈ names)); [done|].
      rewrite elem_of_cons. split; [by intros [?|?]|by right].
  - destruct (IH w files) as (Hclock & Hmax & files' & Hdir' & Hfiles); [done..| |].
    { intros file Hin. apply Hpresent. by right. }
    split; [done|]. split; [done|]. exists files'. split; [done|].
    intros file. rewrite Hfiles.
    destruct (decide (file = name)) as [->|Hne].
    + rewrite Ejson, !andb_false_r. done.
    + rewrite (bool_decide_ext (file ∈ name :: names) (file ∈ names)); [done|].
      rewrite elem_of_cons. split; [by intros [?|?]|by right].
Qed.

(** X1: [clear] removes every file of the cache directory whose name ends in
    [.json] and leaves every other file and the clock as they are; after it
    [get] finds no key. *)
Theorem clear_removes_json_files (w : World) :
  clock (clear w) = clock w /\
  (forall file,
     lookupFile file (clear w)
     = if endsWith (str ".json") file then None else lookupFile file w) /\
  (forall key, get JSON_parse key (clear w) = (None, clear w)).
Proof.
  assert (clock (clear w) = clock w /\
          forall file,
            lookupFile file (clear w)
            = if endsWith (str ".json") file then None else lookupFile file w)
    as [Hclock Hfiles].
  { unfold clear, existsSyncDir.
    destruct (dir w) as [files|] eqn:Hdir.
    - destruct (readdirSync_names w files Hdir) as (names & -> & Hnodup & Hnames).
      destruct (clearLoop_exact names w files Hdir Hnodup)
        as (Hclock & Hmax & files' & Hdir' & Hfiles).
      { intros file. apply Hnames. }
      split; [done|]. intros file.
      rewrite (lookupFile_dir _ _ files' Hdir'), (lookupFile_dir _ _ files Hdir).
      assert (nameFits file (clearLoop names w) = nameFits file w) as ->
        by (unfold nameFits; by rewrite Hmax).
      rewrite Hfiles.
      destruct (nameFits file w) eqn:Hfits; [|by destruct (endsWith _ file)].
      destruct (files !! file) as [content|] eqn:Hc.
      + rewrite bool_decide_eq_true_2; [done|]. apply Hnames. split; [by eexists|done].
      + by destruct (_ && _), (endsWith _ file).
    - split; [done|]. intros file. unfold lookupFile. rewrite Hdir.
      by destruct (endsWith _ file). }
  split; [done|]. split; [done|].
  intros key. apply get_missing. by rewrite Hfiles, getCacheFile_json.
Qed.

(** One pass of the loop of [cleanup] over an existing file. *)
Lemma cleanupLoop_step name names now w files content :
  dir w = Some files -> files !! name = Some content -> nameFits name w = true ->
  cleanupLoop JSON_parse (name :: names) now w
  = cleanupLoop JSON_parse names now
      (if keptByCleanup JSON_parse now name content then w
       else {| clock := clock w; dir := Some (base.delete name files);
               nameMax := nameMax w |}).
Proof.
  intros Hdir Hc Hfits. cbn [cleanupLoop]. unfold keptByCleanup.
  destruct (endsWith (str ".json") name); cbn [negb orb]; [|done].
  rewrite (unlinkSync_dir name w files content Hdir Hc Hfits).
  unfold readFileSync. rewrite (lookupFile_dir _ _ files Hdir), Hfits, Hc.
  cbn [mbind option_bind].
  destruct (JSON_parse content) as [entry|]; cbn [mbind option_bind]; [|done].
  by destruct (now >? expiresAt entry)%Z.
Qed.

Lemma cleanupLoop_exact (names : list jsstring) now : forall w files,
  dir w = Some files ->
  NoDup names ->
  (forall file, file ∈ names -> is_Some (files !! file) /\ nameFits file w = true) ->
  clock (cleanupLoop JSON_parse names now w) = clock w /\
  nameMax (cleanupLoop JSON_parse names now w) = nameMax w /\
  exists files',
    dir (cleanupLoop JSON_parse names now w) = Some files' /\
    forall file,
      files' !! file
      = match files !! file with
        | Some content =>
            if bool_decide (file ∈ names)
               && negb (keptByCleanup JSON_parse now file content)
            then None else Some content
        | None => None
        end.
Proof.
  induction names as [|name names IH]; intros w files Hdir Hnodup Hpresent.
  { split; [done|]. split; [done|]. exists files. split; [done|]. intros file.
    destruct (files !! file); [|done].
    by rewrite (bool_decide_eq_false_2 (file ∈ [])) by apply not_elem_of_nil. }
  apply NoDup_cons in Hnodup as [Hfresh Hnodup].
  destruct (Hpresent name) as [[content Hc] Hfits]; [by left|].
  rewrite (cleanupLoop_step name names now w files content Hdir Hc Hfits).
  destruct (keptByCleanup JSON_parse now name content) eqn:Ekept.
  - destruct (IH w files) as (Hclock & Hmax & files' & Hdir' & Hfiles); [done..| |].
    { intros file Hin. apply Hpresent. by right. }
    split; [done|]. split; [done|]. exists files'. split; [done|].
    intros file. rewrite Hfiles.
    destruct (files !! file) as [c|] eqn:Hf; [|done].
    destruct (decide (file = name)) as [->|Hne].
    + assert (c = content) as -> by congruence. rewrite Ekept, !andb_false_r. done.
    + rewrite (bool_decide_ext (file ∈ name :: names) (file ∈ names)); [done|].
      rewrite elem_of_cons. split; [by intros [?|?]|by right].
  - set (w' := {| clock := clock w; dir := Some (base.delete name files);
                  nameMax := nameMax w |}).
    destruct (IH w' (base.delete name files))
      as (Hclock & Hmax & files' & Hdir' & Hfiles); [done..| |].
    { intros file Hin. rewrite lookup_delete_ne; [apply Hpresent; by right|].
      intros ->. done. }
    split; [done|]. split; [done|]. exists files'. split; [done|].
    intros file. rewrite Hfiles.
    destruct (decide (file = name)) as [->|Hne].
    + rewrite lookup_delete_eq, Hc, Ekept.
      by rewrite (bool_decide_eq_true_2 (name ∈ name :: names)) by by left.
    + rewrite lookup_delete_ne by done.
      destruct (files !! file) as [c|]; [|done].
      rewrite (bool_decide_ext (file ∈ name :: names) (file ∈ names)); [done|].
      rewrite elem_of_cons. split; [by intros [?|?]|by right].
Qed.

(** What the sweep leaves in an existing directory: every file of the
    directory that it keeps, and whatever the directory holds besides. *)
Lemma cleanup_files (w : World) files :
  dir w = Some files ->
  clock (cleanup JSON_parse w) = clock w /\
  nameMax (cleanup JSON_parse w) = nameMax w /\
  exists files',
    dir (cleanup JSON_parse w) = Some files' /\
    forall file,
      files' !! file
      = match files !! file with
        | Some content =>
            if nameFits file w && negb (keptByCleanup JSON_parse (clock w) file content)
            then None else Some content
        | None => None
        end.
Proof.
  intros Hdir. unfold cleanup, existsSyncDir, Date_now. rewrite Hdir. cbn [negb].
  destruct (readdirSync_names w files Hdir) as (names & -> & Hnodup & Hnames).
  destruct (cleanupLoop_exact names (clock w) w files Hdir Hnodup)
    as (Hclock & Hmax & files' & Hdir' & Hfiles).
  { intros file. apply Hnames. }
  split; [done|]. split; [done|]. exists files'. split; [done|].
  intros file. rewrite Hfiles.
  destruct (files !! file) as [content|] eqn:Hc; [|done].
  destruct (nameFits file w) eqn:Hfits.
  - rewrite bool_decide_eq_true_2; [done|]. apply Hnames. split; [by eexists|done].
  - rewrite bool_decide_eq_false_2; [done|]. rewrite Hnames. intros [_ ?]. congruence.
Qed.

Lemma cleanup_without_dir (w : World) : dir w = None -> cleanup JSON_parse w = w.
Proof. intros Hdir. unfold cleanup, existsSyncDir. by rewrite Hdir. Qed.

Lemma cleanup_dir (w : World) : existsSyncDir (cleanup JSON_parse w) = existsSyncDir w.
Proof.
  destruct (dir w) as [files|] eqn:Hdir.
  - destruct (cleanup_files w files Hdir) as (_ & _ & files' & Hdir' & _).
    unfold existsSyncDir. by rewrite Hdir, Hdir'.
  - by rewrite cleanup_without_dir.
Qed.

Lemma cleanup_exact (w : World) :
  clock (cleanup JSON_parse w) = clock w /\
  forall file,
    lookupFile file (cleanup JSON_parse w)
    = match lookupFile file w with
      | Some content =>
          if keptByCleanup JSON_parse (clock w) file content then Some content else None
      | None => None
      end.
Proof.
  destruct (dir w) as [files|] eqn:Hdir.
  - destruct (cleanup_files w files Hdir) as (Hclock & Hmax & files' & Hdir' & Hfiles).
    split; [done|]. intros file.
    rewrite (lookupFile_dir _ _ files' Hdir'), (lookupFile_dir _ _ files Hdir).
    assert (nameFits file (cleanup JSON_parse w) = nameFits file w) as ->
      by (unfold nameFits; by rewrite Hmax).
    rewrite Hfiles.
    destruct (nameFits file w); [|done]. cbn [andb].
    destruct (files !! file) as [content|]; [|done].
    by destruct (keptByCleanup _ _ _ _).
  - rewrite cleanup_without_dir by done. split; [done|]. intros file.
    unfold lookupFile. by rewrite Hdir.
Qed.


(** X2: [cleanup] removes exactly the [.json] files that are expired at the
    time of the sweep or do not parse; every other file keeps its content,
    and the clock and the directory itself are left as they are. *)
Theorem cleanup_removes_expired_and_corrupted (w : World) :
  clock (cleanup JSON_parse w) = clock w /\
  existsSyncDir (cleanup JSON_parse w) = existsSyncDir w /\
  forall file,
    lookupFile file (cleanup JSON_parse w)
    = match lookupFile file w with
      | Some content =>
          if keptByCleanup JSON_parse (clock w) file content then Some content else None
      | None => None
      end.
Proof.
  destruct (cleanup_exact w) as [Hclock Hfiles].
  split; [done|]. split; [apply cleanup_dir|done].
Qed.

End CacheSweeps.

Section CacheOperations.

Context {T : Type}.
Variable JSON_stringify : CacheEntry T -> jsstring.
Variable JSON_parse : jsstring -> option (CacheEntry T).
Implicit Types (w : World) (file key : jsstring) (files : gmap jsstring jsstring).

Lemma unlinkSync_exact file content w :
  lookupFile file w = Some content ->
  exists w',
    unlinkSync file w = Some w' /\ clock w' = clock w /\
    existsSyncDir w' = true /\
    forall other,
      lookupFile other w' = if decide (other = file) then None else lookupFile other w.
Proof.
  intros H. pose proof (lookupFile_fits _ _ _ H) as Hfits.
  destruct (dir w) as [files|] eqn:Hdir; [|by unfold lookupFile in H; rewrite Hdir in H].
  rewrite (lookupFile_dir _ _ files Hdir), Hfits in H.
  rewrite (unlinkSync_dir file w files content Hdir H Hfits).
  eexists. split; [done|]. split; [done|]. split; [done|].
  intros other.
  rewrite (lookupFile_dir other _ (base.delete file files)) by done.
  rewrite (lookupFile_dir other w files Hdir).
  change (nameFits other {| clock := clock w; dir := Some (base.delete file files);
                            nameMax := nameMax w |})
    with (nameFits other w).
  rewrite lookup_delete.
  destruct (decide (file = other)) as [->|Hne].
  - rewrite decide_True by done. by destruct (nameFits other w).
  - by rewrite decide_False by congruence.
Qed.

Lemma writeFileSync_exact file content w :
  existsSyncDir w = true ->
  nameFits file w = true ->
  exists w',
    writeFileSync file content w = Some w' /\ clock w' = clock w /\
    existsSyncDir w' = true /\
    forall other,
      lookupFile other w'
      = if decide (other = file) then Some content else lookupFile other w.
Proof.
  unfold writeFileSync, existsSyncDir. intros H Hfits.
  destruct (dir w) as [files|] eqn:Hdir; [|done]. cbn [mbind option_bind].
  rewrite Hfits.
  eexists. split; [done|]. split; [done|]. split; [done|].
  intros other.
  rewrite (lookupFile_dir other _ (<[file:=content]> files)) by done.
  rewrite (lookupFile_dir other w files Hdir).
  change (nameFits other {| clock := clock w; dir := Some (<[file:=content]> files);
                            nameMax := nameMax w |})
    with (nameFits other w).
  rewrite lookup_insert.
  destruct (decide (file = other)) as [->|Hne].
  - rewrite decide_True by done. by rewrite Hfits.
  - by rewrite decide_False by congruence.
Qed.

(** The four ways [get] can go. *)
Lemma get_cases key w :
  let file := getCacheFile key in
  (lookupFile file w = None /\ get JSON_parse key w = (None, w)) \/
  (exists content w',
     lookupFile file w = Some content /\
     (JSON_parse content = None \/
      exists entry, JSON_parse content = Some entry /\ (expiresAt entry < clock w)%Z) /\
     unlinkSync file w = Some w' /\ get JSON_parse key w = (None, w')) \/
  (exists content entry,
     lookupFile file w = Some content /\ JSON_parse content = Some entry /\
     (clock w <= expiresAt entry)%Z /\ get JSON_parse key w = (Some (data entry), w)).
Proof.
  intros file.
  destruct (lookupFile file w) as [content|] eqn:Hfile.
  - right. destruct (JSON_parse content) as [entry|] eqn:Hparse.
    + destruct (Z.lt_ge_cases (expiresAt entry) (clock w)) as [Hexp|Hlive].
      * left. destruct (get_expired JSON_parse key content entry w Hfile Hparse Hexp)
          as (w' & Hget & Hunlink & _).
        exists content, w'. split; [done|]. split; [right; by exists entry|done].
      * right. exists content, entry. split; [done|]. split; [done|]. split; [done|].
        by apply (get_live JSON_parse key content).
    + left. destruct (unlinkSync_present _ _ _ Hfile) as (w' & Hunlink & _).
      exists content, w'. split; [done|]. split; [by left|]. split; [done|].
      unfold get, existsSync, readFileSync. fold file.
      rewrite Hfile. cbn [negb mbind option_bind]. rewrite Hparse.
      cbn [mbind option_bind]. by rewrite Hunlink.
  - left. split; [done|]. by apply get_missing.
Qed.

(** X4: [get] leaves the clock and every file but the one of its key as
    they are; when it returns a value it changes nothing at all, and when it
    answers absent the file of the key does not exist afterwards (it was
    missing, or it was corrupted or expired and has been removed). *)
Theorem get_touches_only_its_file (key : jsstring) (w : World) :
  let r := get JSON_parse key w in
  clock r.2 = clock w /\
  (forall other, other <> getCacheFile key -> lookupFile other r.2 = lookupFile other w) /\
  match r.1 with
  | Some _ => r.2 = w
  | None => lookupFile (getCacheFile key) r.2 = None
  end.
Proof.
  destruct (get_cases key w)
    as [[Hfile ->]|[(content & w' & Hfile & _ & Hunlink & ->)
                   |(content & entry & _ & _ & _ & ->)]];
    cbn [fst snd]; [done| |done].
  destruct (unlinkSync_exact _ _ _ Hfile) as (w'' & Hunlink' & Hclock & _ & Hfiles).
  assert (w'' = w') as -> by congruence.
  split; [done|]. split.
  - intros other Hne. rewrite Hfiles. by rewrite decide_False.
  - rewrite Hfiles. by rewrite decide_True.
Qed.

(** X5: [delete] removes the file of the key and nothing else, so that a
    following [get] answers absent; deleting a key that has no file changes
    nothing. *)
Theorem delete_removes_only_its_file (key : jsstring) (w : World) :
  clock (delete key w) = clock w /\
  (forall other,
     lookupFile other (delete key w)
     = if decide (other = getCacheFile key) then None else lookupFile other w) /\
  get JSON_parse key (delete key w) = (None, delete key w) /\
  (lookupFile (getCacheFile key) w = None -> delete key w = w).
Proof.
  assert (clock (delete key w) = clock w /\
          forall other,
            lookupFile other (delete key w)
            = if decide (other = getCacheFile key) then None else lookupFile other w)
    as [Hclock Hfiles].
  { unfold delete, existsSync.
    destruct (lookupFile (getCacheFile key) w) as [content|] eqn:Hfile.
    - destruct (unlinkSync_exact _ _ _ Hfile) as (w' & -> & Hclock & _ & Hfiles).
      done.
    - split; [done|]. intros other. by destruct (decide _) as [->|]. }
  split; [done|]. split; [done|]. split.
  - apply get_missing. rewrite Hfiles. by rewrite decide_True.
  - intros Hfile. unfold delete, existsSync. by rewrite Hfile.
Qed.

(** X6: [set] changes the file of its key only: the clock and every other
    file are as before, and [get] of a key with another file returns what it
    returned before. *)
Theorem set_touches_only_its_file (key : jsstring) (value : T) (ttl : option Z)
    (w : World) :
  let w' := set JSON_stringify key value ttl w in
  clock w' = clock w /\
  (forall other, other <> getCacheFile key -> lookupFile other w' = lookupFile other w) /\
  (forall key', getCacheFile key' <> getCacheFile key ->
     (get JSON_parse key' w').1 = (get JSON_parse key' w).1).
Proof.
  intros w'.
  assert (clock w' = clock w /\
          forall other, other <> getCacheFile key ->
            lookupFile other w' = lookupFile other w) as [Hclock Hfiles].
  { subst w'.
    destruct (nameFits (getCacheFile key) w) eqn:Hfits;
      [|by rewrite set_too_long].
    destruct (existsSyncDir w) eqn:Hdir; [|by rewrite set_without_dir].
    unfold set.
    destruct (writeFileSync_exact (getCacheFile key)
                (JSON_stringify {| data := value; timestamp := Date_now w;
                                   expiresAt := Date_now w + ttlOrDefault ttl |})
                w Hdir Hfits) as (w1 & -> & Hclock & _ & Hfiles).
    split; [done|]. intros other Hne. rewrite Hfiles. by rewrite decide_False. }
  split; [done|]. split; [done|].
  intros key' Hne.
  pose proof (Hfiles _ Hne) as Hsame.
  destruct (get_cases key' w)
    as [[Hfile ->]|[(content & w1 & Hfile & Hbad & _ & ->)
                   |(content & entry & Hfile & Hparse & Hlive & ->)]];
    cbn [fst]; rewrite <- Hsame in Hfile.
  - by rewrite (get_missing JSON_parse key' w' Hfile).
  - destruct Hbad as [Hparse|(entry & Hparse & Hexp)].
    + by destruct (get_corrupted JSON_parse key' content w' Hfile Hparse) as (? & -> & _).
    + rewrite <- Hclock in Hexp.
      by destruct (get_expired JSON_parse key' content entry w' Hfile Hparse Hexp)
        as (? & -> & _).
  - rewrite <- Hclock in Hlive.
    by rewrite (get_live JSON_parse key' content entry w' Hfile Hparse Hlive).
Qed.


(** X3: [cleanup] is idempotent, and it never changes what [get] returns:
    for every key, [get] after the sweep gives the value it gave before. *)
Theorem cleanup_idempotent_and_transparent (w : World) :
  cleanup JSON_parse (cleanup JSON_parse w) = cleanup JSON_parse w /\
  forall key, (get JSON_parse key (cleanup JSON_parse w)).1 = (get JSON_parse key w).1.
Proof.
  destruct (cleanup_exact JSON_parse w) as [Hclock Hfiles].
  split.
  - destruct (dir w) as [files|] eqn:Hdir; [|do 2 rewrite (cleanup_without_dir JSON_parse w Hdir); done].
    destruct (cleanup_files JSON_parse w files Hdir)
      as (_ & Hmax & files1 & Hdir1 & Hfiles1).
    destruct (cleanup_files JSON_parse (cleanup JSON_parse w) files1 Hdir1)
      as (Hclock2 & Hmax2 & files2 & Hdir2 & Hfiles2).
    apply (world_ext _ _ files2 files1); [done..|].
    intros file. rewrite Hfiles2, Hfiles1, Hclock.
    assert (nameFits file (cleanup JSON_parse w) = nameFits file w) as ->
      by (unfold nameFits; by rewrite Hmax).
    destruct (files !! file) as [content|]; [|done].
    destruct (nameFits file w && negb (keptByCleanup JSON_parse (clock w) file content))
      eqn:E; [done|]. by rewrite E.
  - intros key.
    pose proof (Hfiles (getCacheFile key)) as Hfile'.
    unfold keptByCleanup in Hfile'. rewrite getCacheFile_json in Hfile'.
    cbn [negb orb] in Hfile'.
    destruct (get_cases key w)
      as [[Hfile ->]|[(content & w1 & Hfile & Hbad & _ & ->)
                     |(content & entry & Hfile & Hparse & Hlive & ->)]];
      cbn [fst]; rewrite Hfile in Hfile'.
    + by rewrite (get_missing JSON_parse key _ Hfile').
    + rewrite (get_missing JSON_parse key (cleanup JSON_parse w)); [done|].
      rewrite Hfile'. destruct Hbad as [->|(entry & -> & Hexp)]; [done|].
      by rewrite (proj2 (Z.gtb_lt _ _)) by lia.
    + rewrite Hparse in Hfile'.
      rewrite Z.gtb_ltb, (proj2 (Z.ltb_ge _ _)) in Hfile' by lia.
      rewrite (get_live JSON_parse key content entry _ Hfile' Hparse); [done|].
      by rewrite Hclock.
Qed.

End CacheOperations.

Section CacheKeysAndTtl.

Context {T : Type}.
Variable JSON_stringify : CacheEntry T -> jsstring.
Variable JSON_parse : jsstring -> option (CacheEntry T).
Implicit Types (w : World) (file key : jsstring).

(** X7: two keys with the same sanitised form share one file.  When the
    file system accepts its name, a value stored under one key is what
    [get] returns for the other (until it expires), and deleting the other
    key removes the entry of the first. *)
Theorem colliding_keys_share_entry (key1 key2 : jsstring) (value : T)
    (ttl elapsed : Z) (w : World) :
  sanitizeKey key1 = sanitizeKey key2 ->
  existsSyncDir w = true ->
  nameFits (getCacheFile key1) w = true ->
  (0 < ttl)%Z -> (0 <= elapsed <= ttl)%Z ->
  JSON_parse (JSON_stringify {| data := value; timestamp := clock w;
                                expiresAt := clock w + ttl |})
  = Some {| data := value; timestamp := clock w; expiresAt := clock w + ttl |} ->
  let w1 := advance elapsed (set JSON_stringify key1 value (Some ttl) w) in
  get JSON_parse key2 w1 = (Some value, w1) /\
  get JSON_parse key1 (delete key2 w1) = (None, delete key2 w1).
Proof.
  intros Hsame Hdir Hfits Httl Helapsed Hround w1.
  assert (getCacheFile key1 = getCacheFile key2) as Hfile
    by (by rewrite !getCacheFile_sanitizeKey, Hsame).
  destruct (set_written JSON_stringify key1 value (Some ttl) w Hdir Hfits)
    as [Hclock Hwritten].
  assert (ttlOrDefault (Some ttl) = ttl) as Ettl.
  { unfold ttlOrDefault. by rewrite (proj2 (Z.eqb_neq ttl 0)) by lia. }
  rewrite Ettl, Hfile in Hwritten.
  rewrite <- (lookupFile_advance _ elapsed) in Hwritten. fold w1 in Hwritten.
  split.
  - apply (get_live JSON_parse key2 _ _ w1 Hwritten Hround).
    subst w1. simpl. lia.
  - destruct (unlinkSync_present _ _ _ Hwritten) as (w' & Hunlink & _ & Hgone).
    unfold delete, existsSync. rewrite Hwritten, Hunlink. cbn [default].
    apply get_missing. by rewrite Hfile.
Qed.

(** X8: a ttl of zero, like a ttl left out, means the default of 24 hours,
    not immediate expiry: under a key whose file name the file system
    accepts, the value is returned up to 86400000 ms after the write. *)
Theorem zero_or_missing_ttl_is_one_day (key : jsstring) (value : T) (ttl : option Z)
    (elapsed : Z) (w : World) :
  ttl = None \/ ttl = Some 0%Z ->
  existsSyncDir w = true ->
  nameFits (getCacheFile key) w = true ->
  (0 <= elapsed <= 86400000)%Z ->
  JSON_parse (JSON_stringify {| data := value; timestamp := clock w;
                                expiresAt := clock w + 86400000 |})
  = Some {| data := value; timestamp := clock w; expiresAt := clock w + 86400000 |} ->
  let w1 := advance elapsed (set JSON_stringify key value ttl w) in
  get JSON_parse key w1 = (Some value, w1).
Proof.
  intros Httl Hdir Hfits Helapsed Hround w1.
  destruct (set_written JSON_stringify key value ttl w Hdir Hfits) as [Hclock Hwritten].
  assert (ttlOrDefault ttl = 86400000%Z) as Ettl by (by destruct Httl as [->| ->]).
  rewrite Ettl in Hwritten.
  apply (get_live JSON_parse key _ _ w1 Hwritten Hround).
  subst w1. simpl. lia.
Qed.

(** X9: a negative ttl writes an entry that is already expired: [get] right
    after [set] answers absent and removes the file. *)
Theorem negative_ttl_expires_at_once (key : jsstring) (value : T) (ttl : Z)
    (w : World) :
  (ttl < 0)%Z ->
  existsSyncDir w = true ->
  JSON_parse (JSON_stringify {| data := value; timestamp := clock w;
                                expiresAt := clock w + ttl |})
  = Some {| data := value; timestamp := clock w; expiresAt := clock w + ttl |} ->
  exists w',
    get JSON_parse key (set JSON_stringify key value (Some ttl) w) = (None, w') /\
    lookupFile (getCacheFile key) w' = None.
Proof.
  intros Httl Hdir Hround.
  destruct (nameFits (getCacheFile key) w) eqn:Hfits; cycle 1.
  { exists w. rewrite (set_too_long JSON_stringify key value (Some ttl) w Hfits).
    pose proof (lookupFile_too_long _ _ Hfits) as Hnone.
    by rewrite (get_missing JSON_parse key w Hnone). }
  destruct (set_written JSON_stringify key value (Some ttl) w Hdir Hfits)
    as [Hclock Hwritten].
  assert (ttlOrDefault (Some ttl) = ttl) as Ettl.
  { unfold ttlOrDefault. by rewrite (proj2 (Z.eqb_neq ttl 0)) by lia. }
  rewrite Ettl in Hwritten.
  destruct (get_expired JSON_parse key _ _ _ Hwritten Hround) as (w' & Hget & _ & _ & Hgone).
  { rewrite Hclock. simpl. lia. }
  by exists w'.
Qed.

(** X10: without a cache directory every operation leaves the world as it
    is: the failed write of [set] is swallowed, [get] answers absent, and
    the sweeps do nothing; [ensureCacheDir] then creates an empty directory. *)
Theorem missing_directory_is_tolerated (key : jsstring) (value : T) (ttl : option Z)
    (w : World) :
  existsSyncDir w = false ->
  set JSON_stringify key value ttl w = w /\
  get JSON_parse key w = (None, w) /\
  delete key w = w /\ clear w = w /\ cleanup JSON_parse w = w /\
  existsSyncDir (ensureCacheDir w) = true /\
  forall file, lookupFile file (ensureCacheDir w) = None.
Proof.
  intros Hdir.
  assert (forall file, lookupFile file w = None) as Hnone.
  { intros file. unfold lookupFile, existsSyncDir in *. by destruct (dir w). }
  split; [by apply set_without_dir|].
  split; [by apply get_missing|].
  split; [unfold delete, existsSync; by rewrite Hnone|].
  split; [unfold clear; by rewrite Hdir|].
  split; [unfold cleanup; by rewrite Hdir|].
  split; [apply ensureCacheDir_exists|].
  intros file. unfold ensureCacheDir, mkdirSync, lookupFile, existsSyncDir in *.
  destruct (dir w); [done|]. cbn [negb dir mbind option_bind].
  by destruct (nameFits file _).
Qed.

End CacheKeysAndTtl.

Lemma colliding_keys_share_entry_witness :
  let w1 := advance 10
              (set stringifyEntry (str "video_info:https://youtu.be/a?b") 7%Z
                 (Some 500%Z) freshWorld) in
  get parseEntry (str "video_info:https://youtu.be/a&b") w1 = (Some 7%Z, w1) /\
  get parseEntry (str "video_info:https://youtu.be/a?b")
    (delete (str "video_info:https://youtu.be/a&b") w1)
  = (None, delete (str "video_info:https://youtu.be/a&b") w1).
Proof.
  apply (colliding_keys_share_entry stringifyEntry parseEntry).
  - vm_compute. reflexivity.
  - reflexivity.
  - reflexivity.
  - lia.
  - lia.
  - vm_compute. reflexivity.
Defined.

Lemma zero_or_missing_ttl_is_one_day_witness :
  let w1 := advance 3600000 (set stringifyEntry videoKey 7%Z (Some 0%Z) freshWorld) in
  get parseEntry videoKey w1 = (Some 7%Z, w1).
Proof.
  apply (zero_or_missing_ttl_is_one_day stringifyEntry parseEntry).
  - by right.
  - reflexivity.
  - reflexivity.
  - lia.
  - vm_compute. reflexivity.
Defined.

Lemma negative_ttl_expires_at_once_witness :
  exists w',
    get parseEntry videoKey (set stringifyEntry videoKey 7%Z (Some (-1)%Z) freshWorld)
    = (None, w') /\
    lookupFile (getCacheFile videoKey) w' = None.
Proof.
  apply (negative_ttl_expires_at_once stringifyEntry parseEntry).
  - lia.
  - reflexivity.
  - vm_compute. reflexivity.
Defined.

Lemma missing_directory_is_tolerated_witness :
  set stringifyEntry videoKey 7%Z None noCacheDir = noCacheDir /\
  get parseEntry videoKey noCacheDir = (None, noCacheDir) /\
  delete videoKey noCacheDir = noCacheDir /\
  clear noCacheDir = noCacheDir /\
  cleanup parseEntry noCacheDir = noCacheDir /\
  existsSyncDir (ensureCacheDir noCacheDir) = true /\
  forall file, lookupFile file (ensureCacheDir noCacheDir) = None.
Proof. apply (missing_directory_is_tolerated stringifyEntry parseEntry). reflexivity. Defined.

(** ** More about [withRetry] and the classification *)

Section RetrySchedule.

Context {W T : Type}.
Variable setTimeout : Z -> W -> W.
Implicit Types (operation : @Operation W T) (w : W) (log : list Event).

Lemma scheduleFrom_more delay attempt n :
  (1 <= n)%nat ->
  scheduleFrom delay attempt (S n)
  = Invoked :: Waited (delay * attempt)%Z :: scheduleFrom delay (attempt + 1)%Z n.
Proof. destruct n; [lia|done]. Qed.

Lemma scheduleFrom_invocations delay n : forall attempt,
  invocations (scheduleFrom delay attempt n) = n.
Proof.
  induction n as [|n IH]; intros attempt; [done|].
  destruct n as [|n]; [done|].
  rewrite scheduleFrom_more by lia. cbn [invocations]. by rewrite IH.
Qed.

Lemma scheduleFrom_waits delay n : forall k,
  waits (scheduleFrom delay (Z.of_nat k) n)
  = map (fun i => (delay * Z.of_nat i)%Z) (seq k (n - 1)).
Proof.
  induction n as [|n IH]; intros k; [done|].
  destruct n as [|n]; [done|].
  rewrite scheduleFrom_more by lia. cbn [waits flat_map app].
  replace (Z.of_nat k + 1)%Z with (Z.of_nat (S k)) by lia.
  fold (waits (scheduleFrom delay (Z.of_nat (S k)) (S n))).
  rewrite IH. by replace (S (S n) - 1)%nat with (S (S n - 1)) by lia.
Qed.

(** Whatever the operation does, the loop invokes and waits by the
    schedule. *)
Lemma attempts_schedule operation maxRetries delay fuel :
  forall attempt lastError w log r w' log',
    attempts setTimeout fuel operation maxRetries delay attempt lastError w log
    = Some (r, w', log') ->
    exists n,
      log' = log ++ scheduleFrom delay attempt n /\
      (Z.of_nat n <= Z.max 0 (maxRetries - attempt + 1))%Z /\
      ((attempt <= maxRetries)%Z -> (1 <= n)%nat).
Proof.
  induction fuel as [|fuel IH]; intros attempt lastError w log r w' log' Hrun;
    simpl in Hrun.
  - destruct (Z.leb_spec attempt maxRetries); [done|].
    injection Hrun as <- <- <-. exists 0%nat. rewrite app_nil_r. split; [done|lia].
  - destruct (Z.leb_spec attempt maxRetries);
      [|injection Hrun as <- <- <-; exists 0%nat; rewrite app_nil_r; split; [done|lia]].
    destruct (operation w) as [[v|error] w1].
    { injection Hrun as <- <- <-. exists 1%nat. split; [done|lia]. }
    destruct (isNonRetryable error).
    { injection Hrun as <- <- <-. exists 1%nat. split; [done|lia]. }
    destruct (Z.eqb_spec attempt maxRetries) as [Heq|Hneq].
    { injection Hrun as <- <- <-. exists 1%nat. split; [done|lia]. }
    apply IH in Hrun as (n & -> & Hbound & Hpos).
    exists (S n). rewrite scheduleFrom_more by (apply Hpos; lia).
    split; [by rewrite <- app_assoc|lia].
Qed.

(** X11: whatever the operation does, [withRetry] completes, having invoked
    it at most [maxRetries] times (never for a budget below 1) with a wait
    of [delay * k] after the [k]-th failed attempt and no wait after the
    last invocation. *)
Theorem withRetry_follows_schedule (operation : @Operation W T)
    (maxRetries delay : option Z) (w : W) :
  exists r w' n,
    withRetry setTimeout operation maxRetries delay w
    = Some (r, w', scheduleFrom (default 1000%Z delay) 1 n) /\
    (Z.of_nat n <= Z.max 0 (default 3%Z maxRetries))%Z /\
    invocations (scheduleFrom (default 1000%Z delay) 1 n) = n /\
    waits (scheduleFrom (default 1000%Z delay) 1 n)
    = map (fun k => (default 1000%Z delay * Z.of_nat k)%Z) (seq 1 (n - 1)).
Proof.
  destruct (withRetry_returns setTimeout operation maxRetries delay w)
    as [[[r w'] log] Hrun].
  pose proof Hrun as Hsched. unfold withRetry in Hsched.
  apply attempts_schedule in Hsched as (n & -> & Hbound & _).
  exists r, w', n. split; [done|]. split; [lia|].
  split; [apply scheduleFrom_invocations|apply (scheduleFrom_waits _ n 1)].
Qed.

Lemma attempts_succeedsAfter operation maxRetries delay attempt w v w' n :
  succeedsAfter setTimeout operation maxRetries delay attempt w v w' n ->
  forall fuel lastError log,
    (maxRetries - attempt + 1 <= Z.of_nat fuel)%Z ->
    attempts setTimeout fuel operation maxRetries delay attempt lastError w log
    = Some (Return v, w', log ++ scheduleFrom delay attempt n) /\
    (1 <= n)%nat /\ (Z.of_nat n <= maxRetries - attempt + 1)%Z.
Proof.
  induction 1 as [attempt w v w' Hle Hop
                 |attempt w error w1 v w' n Hlt Hop Hretry Hrest IH];
    intros fuel lastError log Hfuel.
  - destruct fuel as [|fuel]; [lia|]. cbn [attempts].
    rewrite (proj2 (Z.leb_le attempt maxRetries)) by lia. rewrite Hop.
    split; [done|lia].
  - destruct fuel as [|fuel]; [lia|]. cbn [attempts].
    rewrite (proj2 (Z.leb_le attempt maxRetries)) by lia.
    rewrite Hop, Hretry.
    rewrite (proj2 (Z.eqb_neq attempt maxRetries)) by lia.
    destruct (IH fuel error (log ++ [Invoked; Waited (delay * attempt)%Z]))
      as (Hrun & Hpos & Hbound); [lia|].
    rewrite Hrun, scheduleFrom_more by done.
    split; [by rewrite <- app_assoc|lia].
Qed.

(** X12: when the operation fails without a non-retryable classification
    until its [n]-th invocation, which is within the budget and resolves
    with [v], [withRetry] returns [v] after exactly [n] invocations and the
    [n - 1] waits of the schedule between them. *)
Theorem withRetry_returns_first_success (operation : @Operation W T)
    (maxRetries : Z) (delay : option Z) (w w' : W) (v : T) (n : nat) :
  succeedsAfter setTimeout operation maxRetries (default 1000%Z delay) 1 w v w' n ->
  withRetry setTimeout operation (Some maxRetries) delay w
  = Some (Return v, w', scheduleFrom (default 1000%Z delay) 1 n) /\
  invocations (scheduleFrom (default 1000%Z delay) 1 n) = n /\
  (Z.of_nat n <= maxRetries)%Z.
Proof.
  intros Hsucc. unfold withRetry.
  change (default 3%Z (Some maxRetries)) with maxRetries.
  destruct (attempts_succeedsAfter _ _ _ _ _ _ _ _ Hsucc (Z.to_nat maxRetries) Undefined [])
    as (Hrun & Hpos & Hbound); [lia|].
  split; [done|]. split; [apply scheduleFrom_invocations|lia].
Qed.

(** What the loop throws from an attempt within the budget is classified
    non-retryable, or is the TypeError of reading the message of
    [undefined]. *)
Lemma attempts_throws_terminal operation maxRetries delay fuel :
  forall attempt lastError w log t w' log',
    (attempt <= maxRetries)%Z ->
    attempts setTimeout fuel operation maxRetries delay attempt lastError w log
    = Some (Throw t, w', log') ->
    isNonRetryable t = true \/ t = Err (PlainError READ_OF_UNDEFINED).
Proof.
  induction fuel as [|fuel IH]; intros attempt lastError w log t w' log' Hle Hrun;
    simpl in Hrun; rewrite (proj2 (Z.leb_le attempt maxRetries)) in Hrun by lia;
    [done|].
  destruct (operation w) as [[v|error] w1]; [done|].
  destruct (isNonRetryable error) eqn:Hnr.
  { injection Hrun as <- <- <-. by left. }
  destruct (Z.eqb_spec attempt maxRetries) as [Heq|Hneq].
  { injection Hrun as <- <- <-. destruct error as [|e]; [by right|by left]. }
  apply IH in Hrun; [done|lia].
Qed.

(** X13: with a budget of at least one attempt, everything [withRetry]
    throws is terminal: a [YouTubeMCPError] that is not retryable (a
    non-retryable failure of the operation, passed on as it is, or the
    wrapper of the last failure), or the TypeError raised when the last
    rejection was [undefined]; it never throws [undefined] or a retryable
    failure. *)
Theorem withRetry_throws_terminal (operation : @Operation W T)
    (maxRetries : Z) (delay : option Z) (w : W) :
  (1 <= maxRetries)%Z ->
  exists r w' log,
    withRetry setTimeout operation (Some maxRetries) delay w = Some (r, w', log) /\
    match r with
    | Return _ => True
    | Throw t =>
        t <> Undefined /\
        (isNonRetryable t = true \/ t = Err (PlainError READ_OF_UNDEFINED))
    end.
Proof.
  intros Hbudget.
  destruct (withRetry_returns setTimeout operation (Some maxRetries) delay w)
    as [[[r w'] log] Hrun].
  exists r, w', log. split; [done|].
  destruct r as [v|t]; [done|].
  unfold withRetry in Hrun. apply attempts_throws_terminal in Hrun; [|done].
  split; [|done]. by destruct Hrun as [H| ->]; [destruct t|].
Qed.

End RetrySchedule.

Lemma withRetry_returns_first_success_witness :
  withRetry noWait (flaky 3) (Some 5%Z) (Some 200%Z) 0%nat
  = Some (Return 42%Z, 4%nat, scheduleFrom 200 1 4) /\
  invocations (scheduleFrom 200 1 4) = 4%nat /\
  (Z.of_nat 4 <= 5)%Z.
Proof.
  apply (withRetry_returns_first_success noWait (flaky 3) 5 (Some 200%Z) 0%nat 4%nat 42%Z 4).
  apply (succeeds_later noWait (flaky 3) 5 200 1 0%nat
           (Err (PlainError (str "network unreachable"))) 1%nat);
    [lia|reflexivity|reflexivity|].
  apply (succeeds_later noWait (flaky 3) 5 200 2 1%nat
           (Err (PlainError (str "network unreachable"))) 2%nat);
    [lia|reflexivity|reflexivity|].
  apply (succeeds_later noWait (flaky 3) 5 200 3 2%nat
           (Err (PlainError (str "network unreachable"))) 3%nat);
    [lia|reflexivity|reflexivity|].
  apply (succeeds_now noWait (flaky 3) 5 200 4 3%nat); [lia|reflexivity].
Defined.

Lemma withRetry_throws_terminal_witness :
  exists r w' log,
    withRetry noWait (flaky 5) (Some 2%Z) None 0%nat = Some (r, w', log) /\
    match r with
    | Return _ => True
    | Throw t =>
        t <> Undefined /\
        (isNonRetryable t = true \/ t = Err (PlainError READ_OF_UNDEFINED))
    end.
Proof. apply (withRetry_throws_terminal noWait (flaky 5) 2 None 0%nat). lia. Defined.

Ltac in_table := repeat first [by apply list_elem_of_here | apply list_elem_of_further].

(** X14: [handleYtDlpError] always gives a [YouTubeMCPError] that wraps the
    error it was given, with one of six pairs of code and retryable flag
    (the flag is set exactly for [FORMAT_NOT_AVAILABLE], [NETWORK_ERROR] and
    [UNKNOWN_ERROR]); a message with a not-found pattern is [VIDEO_NOT_FOUND]
    whatever else it contains; and the [catch] block's classification
    leaves what it produced unchanged when applied again. *)
Theorem classification_wraps_and_tabulates (toLowerCase : jsstring -> jsstring)
    (error : JsError) (url url' : jsstring) :
  (exists msg c r,
     handleYtDlpError toLowerCase error url = YouTubeMCPError msg c r (Some error) /\
     (c, r) ∈ [(VIDEO_NOT_FOUND, false); (PERMISSION_DENIED, false);
               (SUBTITLES_NOT_AVAILABLE, false); (FORMAT_NOT_AVAILABLE, true);
               (NETWORK_ERROR, true); (UNKNOWN_ERROR, true)] /\
     (isVideoNotFound (toLowerCase (message error)) = true ->
      c = VIDEO_NOT_FOUND /\ r = false)) /\
  classifyCaught toLowerCase (classifyCaught toLowerCase error url) url'
  = classifyCaught toLowerCase error url.
Proof.
  split.
  - unfold handleYtDlpError.
    destruct (isVideoNotFound (toLowerCase (message error))) eqn:E1.
    { eexists _, _, _. split; [reflexivity|]. split; [in_table|done]. }
    repeat (match goal with
            | |- context [if ?b then _ else _] => destruct b
            end;
            [eexists _, _, _; split; [reflexivity|]; split; [in_table|done]|]).
    eexists _, _, _. split; [reflexivity|]. split; [in_table|done].
  - destruct error as [m|m c r o]; [|done]. cbn [classifyCaught].
    pose proof (handleYtDlpError_codes toLowerCase (PlainError m) url) as H.
    cbv zeta in H.
    destruct (handleYtDlpError toLowerCase (PlainError m) url) as [m'|m' c' r' o'];
      [|done].
    cbn [code retryable] in H.
    repeat (apply elem_of_cons in H as [H|H]; [done|]). by apply elem_of_nil in H.
Qed.

(** ** More about the caption normaliser *)

Section VttMore.

Implicit Types (doc line u s t : jsstring) (lines : list jsstring).

Lemma digit_solid (c : N) : isDigit c = true -> isWhiteSpace c = false.
Proof.
  unfold isDigit, isWhiteSpace. intros [H1 H2]%andb_prop.
  apply N.leb_le in H1, H2.
  repeat match goal with
         | |- context [N.eqb c ?k] => rewrite (proj2 (N.eqb_neq c k)) by lia
         end.
  rewrite (proj2 (N.leb_gt 8192 c)) by lia. done.
Qed.

(** A text whose first and last code unit are no white space is what
    [trim] returns for it. *)
Lemma trim_solid s : headSolid s -> headSolid (rev s) -> trim s = s.
Proof.
  intros H1 H2. unfold trim, trimEnd.
  rewrite (trimStart_id s H1), (trimStart_id (rev s) H2). apply rev_involutive.
Qed.

Lemma trim_headSolid s : headSolid (trim s) /\ headSolid (rev (trim s)).
Proof.
  split.
  - unfold trim.
    rewrite <- (trimStart_trimEnd (trimStart s)) by apply trimStart_headSolid.
    apply trimStart_headSolid.
  - unfold trim, trimEnd. rewrite rev_involutive. apply trimStart_headSolid.
Qed.

(** What a fixed-width pattern matched, code unit by code unit. *)
Lemma matchAtoms_Forall2 (re : list atom) : forall s m r,
  fixedWidth re = true -> matchAtoms re s = Some (m, r) -> Forall2 atomMatches re m.
Proof.
  induction re as [|a re IH]; intros s m r Hfix H; simpl in *.
  - injection H as <- <-. constructor.
  - apply andb_prop in Hfix as [Ha Hre]. destruct a; [| |done].
    + destruct s as [|c s]; [done|]. destruct (isDigit c) eqn:Ec; [|done].
      destruct (matchAtoms re s) as [[m' r0]|] eqn:E; [|done].
      injection H as <- <-. constructor; [done|]. by apply (IH s m' r0).
    + destruct s as [|c' s]; [done|]. destruct (N.eqb_spec c' c) as [->|]; [|done].
      destruct (matchAtoms re s) as [[m' r0]|] eqn:E; [|done].
      injection H as <- <-. constructor; [done|]. by apply (IH s m' r0).
Qed.

Lemma timestamp_solid t r s :
  matchAtoms TIMESTAMP s = Some (t, r) ->
  t <> [] /\ headSolid t /\ headSolid (rev t) /\ (forall c, c ∈ t -> isWhiteSpace c = false).
Proof.
  intros H. apply matchAtoms_Forall2 in H; [|done].
  unfold TIMESTAMP, literal in H. simpl in H.
  repeat match goal with
         | H : Forall2 _ (_ :: _) _ |- _ =>
             apply Forall2_cons_inv_l in H as (? & ? & ? & H & ->)
         | H : Forall2 _ [] _ |- _ => apply Forall2_nil_inv_l in H as ->
         end.
  unfold atomMatches in *. subst.
  repeat match goal with
         | H : isDigit _ = true |- _ => apply digit_solid in H
         end.
  split; [done|]. split; [done|]. split; [done|].
  intros c Hc. repeat (apply elem_of_cons in Hc as [->|Hc]; [done|]).
  by apply elem_of_nil in Hc.
Qed.

(** A timing line of the exact shape is not empty and is its own trim. *)
Lemma timingShape_trimmed u : isTimingShape u = true -> u <> [] /\ trim u = u.
Proof.
  intros H. apply bool_decide_eq_true in H.
  rewrite matchAtoms_app in H.
  destruct (matchAtoms TIMESTAMP u) as [[t1 r1]|] eqn:E1; [|done].
  cbn [mbind option_bind] in H. rewrite matchAtoms_app in H.
  destruct (matchAtoms (literal " --> ") r1) as [[sep r2]|] eqn:E2; [|done].
  cbn [mbind option_bind] in H.
  destruct (matchAtoms TIMESTAMP r2) as [[t2 r3]|] eqn:E3; [|done].
  cbn [mbind option_bind] in H. injection H as Hu ->.
  destruct (timestamp_solid _ _ _ E1) as (Hne1 & Hh1 & _).
  destruct (timestamp_solid _ _ _ E3) as (Hne2 & _ & Hl2 & _).
  split; [rewrite <- Hu; by destruct t1|].
  apply trim_solid.
  - rewrite <- Hu. by destruct t1.
  - rewrite <- Hu, !rev_app_distr. destruct (rev t2) eqn:E; [|done].
    apply (f_equal (@rev N)) in E. rewrite rev_involutive in E. done.
Qed.

(** In preserve-timing mode the result is the join of non-empty lines that
    are their own trim. *)
Lemma normalize_preserve_structure doc :
  exists pushed,
    normalize doc true = joinLines pushed /\
    Forall noLF pushed /\
    forall u, u ∈ pushed -> u <> [] /\ trim u = u.
Proof.
  destruct (normalize_cases doc true) as [->|(first & second & rest & E & _ & _ & ->)].
  { exists []. split; [done|]. split; [constructor|]. by intros u ?%elem_of_nil. }
  rewrite <- E. set (contentLines := drop _ (splitLines doc)).
  exists (flat_map preserveLine contentLines).
  split; [done|]. split.
  { apply (flat_map_Forall noLF); [apply preserveLine_noLF|].
    apply Forall_drop, splitLines_noLF. }
  intros u (line & _ & Hu)%elem_of_flat_map.
  apply preserveLine_elem in Hu as [[_ Hshape]|(_ & -> & Hne)].
  - by apply timingShape_trimmed.
  - split; [done|apply trim_idemp].
Qed.

(** X15: in both modes every line of the output is its own trim (no
    leading or trailing white space), and a non-empty output has no empty
    line: it neither starts nor ends with a line feed and has no two line
    feeds in a row. *)
Theorem output_lines_are_trimmed (doc : jsstring) (preserveTiming : bool) :
  exists out,
    stripVttNonContent doc preserveTiming = Some out /\
    (forall u, u ∈ splitLines out -> trim u = u) /\
    (out <> [] -> forall u, u ∈ splitLines out -> u <> []).
Proof.
  exists (normalize doc preserveTiming).
  split; [apply stripVttNonContent_normalize|].
  assert (exists pushed,
            normalize doc preserveTiming = joinLines pushed /\
            Forall noLF pushed /\
            forall u, u ∈ pushed -> u <> [] /\ trim u = u)
    as (pushed & -> & HLF & Hlines).
  { destruct preserveTiming; [apply normalize_preserve_structure|].
    destruct (normalize_discard_structure doc) as (pushed & E & HLF & _ & Hsrc).
    exists pushed. split; [done|]. split; [done|].
    intros u Hu. by destruct (Hsrc u Hu) as (? & ? & _). }
  destruct pushed as [|l pushed].
  { split; [|done]. by intros u ->%list_elem_of_singleton. }
  rewrite splitLines_joinLines by done.
  split; intros; by apply Hlines.
Qed.


Lemma headerScan_first_boundary (header : list jsstring) blank next tail : forall i,
  hasCueBoundary (header ++ [blank]) = false ->
  trim blank = [] -> includes ARROW next = true ->
  headerScan (header ++ blank :: next :: tail) i = (i + length header + 1)%nat.
Proof.
  induction header as [|h header IH]; intros i Hnone Hblank Harrow.
  - simpl. rewrite Hblank, Harrow. simpl. lia.
  - cbn [app hasCueBoundary headerScan] in *.
    apply orb_false_elim in Hnone as [Hh Hnone].
    assert (streq (trim h) [] &&
            match header ++ blank :: next :: tail with
            | [] => false
            | next0 :: _ => includes ARROW next0
            end = false) as ->.
    { destruct header; exact Hh. }
    rewrite IH by done. cbn [length]. lia.
Qed.

Lemma drop_past {A : Type} (header : list A) (blank : A) (rest : list A) :
  drop (length header + 1) (header ++ blank :: rest) = rest.
Proof. induction header as [|h header IH]; [done|]. simpl. apply IH. Qed.

(** What [normalize] does with a document given by its lines. *)
Lemma normalize_of_lines first second rest preserveTiming :
  Forall noLF (first :: second :: rest) ->
  includes WEBVTT first = true ->
  normalize (joinLines (first :: second :: rest)) preserveTiming
  = let contentLines :=
      drop (headerScan (second :: rest) 1) (first :: second :: rest) in
    if preserveTiming then joinLines (flat_map preserveLine contentLines)
    else joinLines (dedupAdjacent (flat_map discardLine contentLines)).
Proof.
  intros HLF Hmark. unfold normalize.
  assert (splitLines (joinLines (first :: second :: rest)) = first :: second :: rest)
    as Hsplit by (by apply splitLines_joinLines).
  rewrite (proj2 (streq_false _ [])).
  - by rewrite Hsplit, Hmark.
  - apply marked_not_blank. unfold isWebVtt. by rewrite Hsplit.
Qed.

(** X16: when a blank line followed by a line with an arrow exists, nothing
    before the first such pair reaches the output: the document gives, in
    both modes, the output of the bare document made of the marker line, an
    empty line and the lines from that arrow line on. *)
Theorem header_never_reaches_output (first blank next : jsstring)
    (header tail : list jsstring) (preserveTiming : bool) :
  Forall noLF (first :: header ++ blank :: next :: tail) ->
  includes WEBVTT first = true ->
  hasCueBoundary (header ++ [blank]) = false ->
  trim blank = [] ->
  includes ARROW next = true ->
  stripVttNonContent (joinLines (first :: header ++ blank :: next :: tail)) preserveTiming
  = stripVttNonContent (joinLines (WEBVTT :: [] :: next :: tail)) preserveTiming.
Proof.
  intros HLF Hmark Hnone Hblank Harrow.
  rewrite !stripVttNonContent_normalize. f_equal.
  assert (Forall noLF (next :: tail)) as Hcues.
  { apply Forall_cons in HLF as [_ HLF]. apply Forall_app in HLF as [_ HLF].
    by apply Forall_cons in HLF as [_ HLF]. }
  assert (exists second rest, header ++ blank :: next :: tail = second :: rest)
    as (second & rest & E) by (destruct header; by eexists _, _).
  rewrite E in HLF |- *.
  rewrite (normalize_of_lines first second rest) by done.
  assert (Forall noLF (WEBVTT :: [] :: next :: tail)) as Hbare.
  { apply Forall_cons. split.
    - unfold noLF, WEBVTT. simpl. repeat (constructor; [done|]). constructor.
    - apply Forall_cons. split; [constructor|done]. }
  rewrite (normalize_of_lines WEBVTT [] (next :: tail)) by done.
  cbv zeta. rewrite <- E.
  rewrite (headerScan_first_boundary header blank next tail 1) by done.
  pose proof (headerScan_first_boundary [] [] next tail 1 eq_refl eq_refl Harrow) as Hb.
  cbn [app length] in Hb. rewrite Hb.
  replace (1 + length header + 1)%nat with (S (length header + 1)) by lia.
  change (drop (1 + 0 + 1) (WEBVTT :: [] :: next :: tail)) with (next :: tail).
  cbn [drop]. by rewrite drop_past.
Qed.

(** Both modes work on the same content lines. *)
Lemma normalize_content doc :
  exists contentLines,
    Forall noLF contentLines /\
    normalize doc true = joinLines (flat_map preserveLine contentLines) /\
    normalize doc false = joinLines (dedupAdjacent (flat_map discardLine contentLines)).
Proof.
  unfold normalize.
  destruct (streq (trim doc) []); [by exists []|].
  pose proof (splitLines_noLF doc) as HLF.
  destruct (splitLines doc) as [|first [|second rest]]; [by exists []..|].
  destruct (includes WEBVTT first); [|by exists []].
  eexists. split; [|done]. by apply Forall_drop.
Qed.

(** X17: the preserve-timing mode only adds to the text: every non-empty
    line of the discard-timing output is a line of the preserve-timing
    output of the same document. *)
Theorem discard_lines_appear_in_preserve (doc : jsstring) :
  exists outDiscard outPreserve,
    stripVttNonContent doc false = Some outDiscard /\
    stripVttNonContent doc true = Some outPreserve /\
    forall u, u ∈ splitLines outDiscard -> u <> [] -> u ∈ splitLines outPreserve.
Proof.
  exists (normalize doc false), (normalize doc true).
  split; [apply stripVttNonContent_normalize|].
  split; [apply stripVttNonContent_normalize|].
  destruct (normalize_content doc) as (contentLines & Hcl & -> & ->).
  intros u Hu Hne.
  apply splitLines_joinLines_elem in Hu; [|
    apply Forall_forall; intros v Hv%dedupAdjacent_subset; revert v Hv;
    by apply Forall_forall, (flat_map_Forall noLF); [apply discardLine_noLF|]
    | done].
  apply dedupAdjacent_subset, elem_of_flat_map in Hu as (line & Hline & Hu).
  apply discardLine_elem in Hu as (Htok & -> & Hne').
  destruct (content_line_pushed line Htok Hne') as [_ Hp].
  assert (trim (cleanLine line) ∈ flat_map preserveLine contentLines) as Hin.
  { apply elem_of_flat_map. exists line. split; [done|]. rewrite Hp. by left. }
  rewrite splitLines_joinLines; [done| |].
  - intros Hnil. rewrite Hnil in Hin. by apply elem_of_nil in Hin.
  - by apply (flat_map_Forall noLF); [apply preserveLine_noLF|].
Qed.


Lemma removeAllFrom_sublist (m : jsstring -> option nat) s : forall k,
  removeAllFrom m k s `sublist_of` s.
Proof.
  induction s as [|c s IH]; intros k; simpl; [constructor|].
  destruct k; [|by apply sublist_cons].
  destruct (m (c :: s)) as [[|n]|]; first [by apply sublist_skip | by apply sublist_cons].
Qed.

Lemma trimStart_sublist s : trimStart s `sublist_of` s.
Proof.
  destruct (trimStart_suffix s) as [pre E]. rewrite E at 2.
  by apply sublist_inserts_l.
Qed.

Lemma trimEnd_sublist s : trimEnd s `sublist_of` s.
Proof.
  destruct (trimEnd_prefix s) as [post E]. rewrite E at 2.
  by apply sublist_inserts_r.
Qed.

Lemma trim_sublist s : trim s `sublist_of` s.
Proof.
  unfold trim. transitivity (trimStart s); [apply trimEnd_sublist|apply trimStart_sublist].
Qed.

(** No tag matches at a code unit that is not [<]. *)
Lemma no_tag_without_lt (c : N) s :
  c <> LT ->
  firstAlternative INLINE_TAGS (c :: s) = None /\ firstAlternative OPEN_C (c :: s) = None.
Proof.
  intros Hc. unfold INLINE_TAGS, OPEN_C, firstAlternative, literal. cbn [str map app].
  cbn [matchAtoms]. change (N_of_ascii "<") with LT.
  by rewrite (proj2 (N.eqb_neq c LT)).
Qed.

Lemma removeAll_without_lt (alts : list (list atom)) s :
  (forall c s', c <> LT -> firstAlternative alts (c :: s') = None) ->
  Forall (fun c => c <> LT) s ->
  removeAll (firstAlternative alts) s = s.
Proof.
  intros Halts. unfold removeAll.
  induction 1 as [|c s Hc Hs IH]; simpl; [done|].
  rewrite (Halts c s Hc). by rewrite IH.
Qed.

(** X18: tag removal and trimming only delete: the text emitted for a
    content line is a subsequence of the line, in order; and a line without
    [<] is not changed by tag removal at all. *)
Theorem cleaning_only_deletes (line : jsstring) :
  cleanLine line `sublist_of` line /\
  trim (cleanLine line) `sublist_of` line /\
  (Forall (fun c => c <> LT) line -> cleanLine line = line).
Proof.
  assert (cleanLine line `sublist_of` line) as Hsub.
  { unfold cleanLine, removeAll.
    etransitivity; apply removeAllFrom_sublist. }
  split; [done|]. split; [by etransitivity; [apply trim_sublist|]|].
  intros Hlt. unfold cleanLine.
  rewrite (removeAll_without_lt INLINE_TAGS line); [|intros; by apply no_tag_without_lt|done].
  apply removeAll_without_lt; [intros; by apply no_tag_without_lt|done].
Qed.

Lemma trimStart_white_app (ws s : jsstring) :
  Forall (fun c => isWhiteSpace c = true) ws -> trimStart (ws ++ s) = trimStart s.
Proof. induction 1 as [|c ws Hc _ IH]; [done|]. simpl. by rewrite Hc. Qed.

Lemma search_here {A : Type} (f : jsstring -> option A) s x :
  f s = Some x -> search f s = Some x.
Proof. intros H. destruct s; simpl; by rewrite H. Qed.

Lemma includes_here (p s : jsstring) : startsWith p s = true -> includes p s = true.
Proof. intros H. destruct s; simpl; by rewrite H. Qed.

Lemma includes_skip (p a s : jsstring) : includes p s = true -> includes p (a ++ s) = true.
Proof.
  intros H. induction a as [|c a IH]; [done|]. simpl. rewrite IH. apply orb_true_r.
Qed.

Lemma matchAtoms_Spaces s : exists m, matchAtoms [Spaces] s = Some (m, trimStart s).
Proof. simpl. by eexists. Qed.

(** [\s*-->\s*] consumes the white space around an arrow. *)
Lemma matchAtoms_arrow (ws1 ws2 rest : jsstring) :
  Forall (fun c => isWhiteSpace c = true) ws1 ->
  Forall (fun c => isWhiteSpace c = true) ws2 ->
  headSolid rest ->
  exists m,
    matchAtoms ([Spaces] ++ literal "-->" ++ [Spaces]) (ws1 ++ ARROW ++ ws2 ++ rest)
    = Some (m, rest).
Proof.
  intros Hws1 Hws2 Hrest.
  rewrite matchAtoms_app.
  destruct (matchAtoms_Spaces (ws1 ++ ARROW ++ ws2 ++ rest)) as [m1 ->].
  cbn [mbind option_bind]. rewrite (trimStart_white_app ws1) by done.
  change (trimStart (ARROW ++ ws2 ++ rest)) with (ARROW ++ ws2 ++ rest).
  rewrite matchAtoms_app.
  rewrite (matchAtoms_rematch (literal "-->") eq_refl ARROW ARROW [] (ws2 ++ rest) eq_refl).
  cbn [mbind option_bind].
  destruct (matchAtoms_Spaces (ws2 ++ rest)) as [m2 ->].
  cbn [mbind option_bind]. rewrite (trimStart_white_app ws2) by done.
  rewrite (trimStart_id rest) by done. by eexists.
Qed.

(** The timing expression at the head of a line that begins with two
    timestamps around an arrow. *)
Lemma timingAt_cue (t1 t2 ws1 ws2 settings : jsstring) :
  isTimestamp t1 = true -> isTimestamp t2 = true ->
  Forall (fun c => isWhiteSpace c = true) ws1 ->
  Forall (fun c => isWhiteSpace c = true) ws2 ->
  timingAt (t1 ++ ws1 ++ ARROW ++ ws2 ++ t2 ++ settings) = Some (t1, t2).
Proof.
  intros H1%bool_decide_eq_true H2%bool_decide_eq_true Hws1 Hws2.
  unfold timingAt.
  rewrite (matchAtoms_rematch TIMESTAMP eq_refl _ _ _
             (ws1 ++ ARROW ++ ws2 ++ t2 ++ settings) H1).
  cbn [mbind option_bind].
  destruct (timestamp_solid _ _ _ H2) as (Hne & Hhead & _).
  destruct (matchAtoms_arrow ws1 ws2 (t2 ++ settings) Hws1 Hws2) as [m ->];
    [by destruct t2|].
  cbn [mbind option_bind].
  by rewrite (matchAtoms_rematch TIMESTAMP eq_refl _ _ _ settings H2).
Qed.

(** X19: a cue timing line that begins with two well-formed timestamps
    around an arrow, with any white space around the arrow and anything
    behind the second timestamp (cue settings such as [align:start]), is
    reduced by the preserve-timing loop to the two timestamps around
    [" --> "], and pushes nothing in discard-timing mode. *)
Theorem cue_settings_are_dropped (t1 t2 ws1 ws2 settings : jsstring)
    (processedLines : list jsstring) :
  isTimestamp t1 = true -> isTimestamp t2 = true ->
  Forall (fun c => isWhiteSpace c = true) ws1 ->
  Forall (fun c => isWhiteSpace c = true) ws2 ->
  let line := t1 ++ ws1 ++ ARROW ++ ws2 ++ t2 ++ settings in
  preserveBody [line] 0 processedLines
  = Some (processedLines ++ [t1 ++ str " --> " ++ t2]) /\
  discardBody [line] 0 processedLines = Some processedLines.
Proof.
  intros H1 H2 Hws1 Hws2 line.
  assert (includes ARROW line = true) as Harrow.
  { subst line. do 2 apply includes_skip. apply includes_here, startsWith_prefix. }
  assert (timingMatch line = Some (t1, t2)) as Hmatch
    by (by apply search_here, timingAt_cue).
  unfold preserveBody, discardBody. cbn [lookup list_lookup mbind option_bind].
  by rewrite Harrow, Hmatch.
Qed.

End VttMore.

Lemma header_never_reaches_output_witness :
  stripVttNonContent
    (joinLines (str "WEBVTT" :: [str "Kind: captions"; str "Language: en"]
                ++ str " " :: str "00:00:01.000 --> 00:00:02.000" :: [str "Hello world"]))
    false
  = stripVttNonContent
      (joinLines (WEBVTT :: [] :: str "00:00:01.000 --> 00:00:02.000" :: [str "Hello world"]))
      false.
Proof.
  apply (header_never_reaches_output (str "WEBVTT") (str " ")
           (str "00:00:01.000 --> 00:00:02.000")
           [str "Kind: captions"; str "Language: en"] [str "Hello world"] false).
  - apply Forall_forall. intros l Hl. apply Forall_forall. intros c Hc.
    vm_compute in Hl.
    repeat (apply elem_of_cons in Hl as [->|Hl];
            [repeat (apply elem_of_cons in Hc as [->|Hc]; [done|]);
             by apply elem_of_nil in Hc|]).
    by apply elem_of_nil in Hl.
  - vm_compute. reflexivity.
  - vm_compute. reflexivity.
  - vm_compute. reflexivity.
  - vm_compute. reflexivity.
Defined.

Lemma cue_settings_are_dropped_witness :
  let line := str "00:00:01.000" ++ str " " ++ ARROW ++ str " " ++ str "00:00:02.000"
              ++ str " align:start position:0%" in
  preserveBody [line] 0 [] = Some ([] ++ [str "00:00:01.000" ++ str " --> " ++ str "00:00:02.000"]) /\
  discardBody [line] 0 [] = Some [].
Proof.
  apply (cue_settings_are_dropped (str "00:00:01.000") (str "00:00:02.000")
           (str " ") (str " ") (str " align:start position:0%") []).
  - vm_compute. reflexivity.
  - vm_compute. reflexivity.
  - repeat constructor.
  - repeat constructor.
Defined.

(** ** Helpers of index.ts *)

Section JsonExtraction.

Implicit Types (s pre post body : jsstring) (c : N).

Lemma indexOfFrom_none c s : forall i,
  Forall (fun x => x <> c) s -> indexOfFrom c s i = (-1)%Z.
Proof.
  induction s as [|x s IH]; intros i H; [done|].
  apply Forall_cons in H as [Hx H]. simpl.
  rewrite (proj2 (N.eqb_neq x c)) by done. by apply IH.
Qed.

Lemma indexOfFrom_first c pre rest : forall i,
  Forall (fun x => x <> c) pre ->
  indexOfFrom c (pre ++ c :: rest) i = (i + Z.of_nat (length pre))%Z.
Proof.
  induction pre as [|x pre IH]; intros i H; simpl.
  - rewrite N.eqb_refl. lia.
  - apply Forall_cons in H as [Hx H].
    rewrite (proj2 (N.eqb_neq x c)) by done. rewrite IH by done. lia.
Qed.

Lemma lastIndexOfFrom_none c s : forall i,
  Forall (fun x => x <> c) s -> lastIndexOfFrom c s i = (-1)%Z.
Proof.
  induction s as [|x s IH]; intros i H; [done|].
  apply Forall_cons in H as [Hx H]. simpl.
  rewrite IH by done. simpl. by rewrite (proj2 (N.eqb_neq x c)).
Qed.

Lemma lastIndexOfFrom_last c pre post : forall i,
  (0 <= i)%Z ->
  Forall (fun x => x <> c) post ->
  lastIndexOfFrom c (pre ++ c :: post) i = (i + Z.of_nat (length pre))%Z.
Proof.
  induction pre as [|x pre IH]; intros i Hi H; simpl.
  - rewrite lastIndexOfFrom_none by done. simpl. rewrite N.eqb_refl. lia.
  - rewrite IH by (done || lia).
    rewrite (proj2 (Z.eqb_neq _ (-1))) by lia. lia.
Qed.

(** Trimming a text with a solid, non-empty middle leaves the middle in
    place, between a rest of what was before it and a rest of what was
    behind it. *)
Lemma trimStart_before_solid (a b : jsstring) :
  b <> [] -> headSolid b ->
  exists a0 a', a = a0 ++ a' /\ trimStart (a ++ b) = a' ++ b.
Proof.
  intros Hb Hsolid. induction a as [|x a (a0 & a' & -> & IH)].
  - exists [], []. split; [done|]. by apply trimStart_id.
  - simpl. destruct (isWhiteSpace x).
    + exists (x :: a0), a'. by rewrite IH.
    + by exists [], (x :: a0 ++ a').
Qed.

Lemma trim_around (a mid b : jsstring) :
  mid <> [] -> headSolid mid -> headSolid (rev mid) ->
  exists a0 a' b' b0,
    a = a0 ++ a' /\ b = b' ++ b0 /\ trim (a ++ mid ++ b) = a' ++ mid ++ b'.
Proof.
  intros Hne Hhead Hlast.
  destruct (trimStart_before_solid a (mid ++ b)) as (a0 & a' & Ha & Hstart);
    [by destruct mid|by destruct mid|].
  destruct (trimStart_before_solid (rev b) (rev (a' ++ mid))) as (r0 & r' & Hb & Hend).
  { intros E. apply (f_equal (@rev N)) in E. rewrite rev_involutive in E.
    by destruct a'. }
  { rewrite rev_app_distr. destruct (rev mid) eqn:E; [|done].
    apply (f_equal (@rev N)) in E. by rewrite rev_involutive in E. }
  exists a0, a', (rev r'), (rev r0).
  split; [done|]. split.
  { rewrite <- rev_app_distr, <- Hb. by rewrite rev_involutive. }
  unfold trim, trimEnd. rewrite Hstart.
  replace (a' ++ mid ++ b) with ((a' ++ mid) ++ b) by by rewrite <- app_assoc.
  rewrite rev_app_distr, Hend, rev_app_distr, rev_involutive.
  by rewrite <- app_assoc.
Qed.

Lemma substring_middle (a mid b : jsstring) :
  substring (a ++ mid ++ b) (Z.of_nat (length a)) (Z.of_nat (length a + length mid)) = mid.
Proof.
  unfold substring. cbv zeta. rewrite !length_app.
  match goal with
  | |- take (Z.to_nat ?n) (drop (Z.to_nat ?k) _) = _ =>
      replace (Z.to_nat n) with (length mid) by lia;
      replace (Z.to_nat k) with (length a) by lia
  end.
  rewrite drop_app_length. by rewrite take_app_length.
Qed.

(** X20: yt-dlp's JSON object is cut out of the output whatever surrounds
    it: when nothing before the object contains an opening brace and
    nothing behind it a closing brace, the extraction returns exactly the
    text from the first opening brace to the last closing brace; and an
    output without an opening brace, or without a closing brace, is just
    trimmed. *)
Theorem json_is_cut_out_of_output (pre body post result : jsstring) :
  (Forall (fun c => c <> LBRACE) pre -> Forall (fun c => c <> RBRACE) post ->
   extractJsonText (pre ++ LBRACE :: body ++ RBRACE :: post)
   = LBRACE :: body ++ [RBRACE]) /\
  (Forall (fun c => c <> LBRACE) result \/ Forall (fun c => c <> RBRACE) result ->
   extractJsonText result = trim result).
Proof.
  split.
  - intros Hpre Hpost.
    set (json := LBRACE :: body ++ [RBRACE]).
    replace (pre ++ LBRACE :: body ++ RBRACE :: post) with (pre ++ json ++ post)
      by (subst json; f_equal; cbn [app]; f_equal; symmetry; apply (app_assoc body [RBRACE] post)).
    destruct (trim_around pre json post) as (a0 & a' & b' & b0 & -> & -> & Htrim).
    { done. }
    { done. }
    { subst json. rewrite app_comm_cons, rev_app_distr. done. }
    apply Forall_app in Hpre as [_ Hpre]. apply Forall_app in Hpost as [Hpost _].
    unfold extractJsonText. rewrite Htrim.
    assert (indexOf LBRACE (a' ++ json ++ b') = Z.of_nat (length a')) as ->.
    { unfold indexOf. subst json. cbn [app]. by rewrite indexOfFrom_first. }
    assert (lastIndexOf RBRACE (a' ++ json ++ b')
            = Z.of_nat (length a' + length json) - 1)%Z as ->.
    { unfold lastIndexOf. subst json.
      replace (a' ++ (LBRACE :: body ++ [RBRACE]) ++ b')
        with ((a' ++ LBRACE :: body) ++ RBRACE :: b')
        by (rewrite <- (app_assoc a'); f_equal; cbn [app]; f_equal;
            apply (app_assoc body [RBRACE] b')).
      rewrite lastIndexOfFrom_last by (done || lia).
      rewrite !length_app. simpl. rewrite length_app. simpl. lia. }
    assert (1 <= length json)%nat by (subst json; simpl; lia).
    assert (2 <= length json)%nat by (subst json; simpl; rewrite length_app; simpl; lia).
    rewrite (proj2 (Z.eqb_neq (Z.of_nat (length a')) (-1))) by lia.
    rewrite (proj2 (Z.eqb_neq (Z.of_nat (length a' + length json) - 1) (-1))) by lia.
    rewrite (proj2 (Z.gtb_lt _ _)) by lia. cbn [negb andb].
    replace (Z.of_nat (length a' + length json) - 1 + 1)%Z
      with (Z.of_nat (length a' + length json)) by lia.
    apply substring_middle.
  - intros Hnone. unfold extractJsonText.
    destruct Hnone as [H|H]; apply (trim_Forall _ result) in H.
    + unfold indexOf. rewrite indexOfFrom_none by done. done.
    + unfold lastIndexOf. rewrite lastIndexOfFrom_none by done.
      cbn [Z.eqb negb]. by rewrite andb_false_r.
Qed.

End JsonExtraction.

Lemma json_is_cut_out_of_output_witness :
  extractJsonText (str "WARNING: slow
" ++ LBRACE :: sampleBody ++ RBRACE :: str "
") = LBRACE :: sampleBody ++ [RBRACE] /\
  extractJsonText (str "  ERROR: no video  ") = trim (str "  ERROR: no video  ").
Proof.
  split.
  - apply (proj1 (json_is_cut_out_of_output _ _ _ [])).
    + repeat (constructor; [done|]). constructor.
    + repeat (constructor; [done|]). constructor.
  - apply (proj2 (json_is_cut_out_of_output [] [] [] _)). left.
    repeat (constructor; [done|]). constructor.
Defined.

Section TimeFormat.

Implicit Types (s a b : jsstring).

Lemma string_of_uint_digits (d : Decimal.uint) :
  Forall (fun c => isDigit c = true) (str (NilEmpty.string_of_uint d)).
Proof. induction d; simpl; constructor; done. Qed.

(** The decimal text of a natural number is made of digits, at least one. *)
Lemma numberToString_digits (z : Z) :
  (0 <= z)%Z ->
  numberToString z <> [] /\ Forall (fun c => isDigit c = true) (numberToString z).
Proof.
  intros Hz. unfold numberToString.
  destruct z as [|p|p]; [by split; [|repeat constructor]| |lia].
  simpl. unfold NilZero.string_of_uint.
  pose proof (string_of_uint_digits (Pos.to_uint p)) as Hd.
  destruct (Pos.to_uint p) eqn:E; [by split; [|repeat constructor]|..];
    (split; [done|exact Hd]).
Qed.

Lemma padStart2_digits s :
  Forall (fun c => isDigit c = true) s -> Forall (fun c => isDigit c = true) (padStart2 s).
Proof.
  intros H. unfold padStart2. apply Forall_app. split; [|done].
  apply Forall_forall. intros c Hc. apply list_elem_of_In, repeat_spec in Hc. by subst.
Qed.

Lemma padStart2_two (k : nat) :
  (k < 60)%nat -> length (padStart2 (numberToString (Z.of_nat k))) = 2%nat.
Proof.
  intros Hk. do 60 (destruct k as [|k]; [by vm_compute|]). lia.
Qed.

Lemma digits_no_colon s : Forall (fun c => isDigit c = true) s -> Forall (fun c => c <> COLON) s.
Proof. intros H. eapply Forall_impl; [exact H|]. by intros c Hc ->. Qed.

Lemma splitOn_one (sep : N) s : Forall (fun c => c <> sep) s -> splitOn sep s = [s].
Proof.
  induction 1 as [|c s Hc Hs IH]; simpl; [done|].
  rewrite (proj2 (N.eqb_neq c sep)) by done. by rewrite IH.
Qed.

Lemma splitOn_app (sep : N) a b :
  Forall (fun c => c <> sep) a -> splitOn sep (a ++ sep :: b) = a :: splitOn sep b.
Proof.
  induction 1 as [|c a Hc Ha IH]; simpl; [by rewrite N.eqb_refl|].
  rewrite (proj2 (N.eqb_neq c sep)) by done. by rewrite IH.
Qed.

(** X21: for a whole, non-negative number of seconds up to
    [MAX_SAFE_INTEGER], where the arithmetic of the source is exact, the
    formatted time shows hours, minutes and seconds that add up to the input, with minutes
    and seconds below 60 and the seconds on two digits; it has three parts
    when there is at least one hour and two otherwise, so
    [parseTimeToSeconds] accepts every formatted time. *)
Theorem formatted_time_is_well_formed (seconds : Z)
    (num : Type) (Number : jsstring -> num) (ofZ : Z -> num)
    (add mul : num -> num -> num) :
  (0 <= seconds <= MAX_SAFE_INTEGER)%Z ->
  let hours := (seconds / 3600)%Z in
  let minutes := (Z.rem seconds 3600 / 60)%Z in
  let secs := Z.rem seconds 60 in
  (seconds = hours * 3600 + minutes * 60 + secs)%Z /\
  (0 <= minutes < 60)%Z /\ (0 <= secs < 60)%Z /\
  splitOn COLON (formatSecondsToTime seconds)
  = (if (hours >? 0)%Z
     then [numberToString hours; padStart2 (numberToString minutes);
           padStart2 (numberToString secs)]
     else [numberToString minutes; padStart2 (numberToString secs)]) /\
  length (padStart2 (numberToString secs)) = 2%nat /\
  exists v, parseTimeToSeconds num Number ofZ add mul (formatSecondsToTime seconds) = Return v.
Proof.
  intros [Hs _] hours minutes secs.
  assert (Z.rem seconds 3600 = seconds mod 3600)%Z as E1 by (apply Z.rem_mod_nonneg; lia).
  assert (Z.rem seconds 60 = seconds mod 60)%Z as E2 by (apply Z.rem_mod_nonneg; lia).
  assert (0 <= hours)%Z as Hh by (subst hours; apply Z.div_pos; lia).
  assert (0 <= minutes < 60)%Z as Hm.
  { subst minutes. rewrite E1.
    pose proof (Z.mod_pos_bound seconds 3600 ltac:(lia)).
    split; [apply Z.div_pos; lia|apply Z.div_lt_upper_bound; lia]. }
  assert (0 <= secs < 60)%Z as Hsec.
  { subst secs. rewrite E2. apply Z.mod_pos_bound. lia. }
  assert (seconds = hours * 3600 + minutes * 60 + secs)%Z as Hsum.
  { subst hours minutes secs. rewrite E1, E2.
    pose proof (Z.div_mod seconds 3600 ltac:(lia)).
    pose proof (Z.div_mod (seconds mod 3600) 60 ltac:(lia)).
    pose proof (Z.div_mod seconds 60 ltac:(lia)).
    pose proof (Z.mod_pos_bound seconds 3600 ltac:(lia)).
    pose proof (Z.mod_pos_bound (seconds mod 3600) 60 ltac:(lia)).
    pose proof (Z.mod_pos_bound seconds 60 ltac:(lia)).
    lia. }
  destruct (numberToString_digits hours Hh) as [_ Dh].
  destruct (numberToString_digits minutes (proj1 Hm)) as [_ Dm].
  destruct (numberToString_digits secs (proj1 Hsec)) as [_ Ds].
  assert (splitOn COLON (formatSecondsToTime seconds)
          = if (hours >? 0)%Z
            then [numberToString hours; padStart2 (numberToString minutes);
                  padStart2 (numberToString secs)]
            else [numberToString minutes; padStart2 (numberToString secs)]) as Hparts.
  { unfold formatSecondsToTime. fold hours minutes secs.
    destruct (hours >? 0)%Z.
    - rewrite splitOn_app by by apply digits_no_colon.
      rewrite splitOn_app by by apply digits_no_colon, padStart2_digits.
      by rewrite splitOn_one by by apply digits_no_colon, padStart2_digits.
    - rewrite splitOn_app by by apply digits_no_colon.
      by rewrite splitOn_one by by apply digits_no_colon, padStart2_digits. }
  split; [done|]. split; [done|]. split; [done|]. split; [done|]. split.
  - rewrite <- (Z2Nat.id secs) by lia. apply padStart2_two. lia.
  - apply parseTimeToSeconds_accepts. rewrite Hparts.
    destruct (hours >? 0)%Z; [by right|by left].
Qed.

End TimeFormat.

Lemma formatted_time_is_well_formed_witness :
  splitOn COLON (formatSecondsToTime 3725)
  = [numberToString 1; padStart2 (numberToString 2); padStart2 (numberToString 5)] /\
  formatSecondsToTime 3725 = str "1:02:05" /\ formatSecondsToTime 125 = str "2:05".
Proof.
  destruct (formatted_time_is_well_formed 3725 unit (fun _ => tt) (fun _ => tt)
              (fun _ _ => tt) (fun _ _ => tt)) as (_ & _ & _ & Hparts & _);
    [unfold MAX_SAFE_INTEGER; lia|].
  split; [exact Hparts|]. split; vm_compute; reflexivity.
Defined.

(** ** A handler: [handleListAvailableSubtitles] *)

Section HandlerFacts.

Context {W : Type}.
Variable setTimeout : Z -> W -> W.
Variable toLowerCase : jsstring -> jsstring.
Variable spawnPromise : jsstring -> list jsstring -> jsstring -> W -> Completion jsstring * W.
Variable mkdtempSync : W -> Completion jsstring * W.
Variable rimrafSync : jsstring -> W -> Completion unit * W.

Abbreviation handler :=
  (handleListAvailableSubtitles setTimeout toLowerCase spawnPromise mkdtempSync rimrafSync).

(** With the default budget [withRetry] completes and never throws
    [undefined]. *)
Lemma withRetry_default_completes {T : Type} (operation : @Operation W T) (w : W) :
  exists r w' log,
    withRetry setTimeout operation None None w = Some (r, w', log) /\
    r <> Throw Undefined.
Proof.
  destruct (withRetry_returns setTimeout operation None None w) as [[[r w'] log] Hrun].
  exists r, w', log. split; [done|]. intros ->.
  unfold withRetry in Hrun. cbn [default] in Hrun.
  apply attempts_throws_terminal in Hrun; [|lia]. by destruct Hrun.
Qed.

(** An operation that settles at its first invocation, with a value or a
    non-retryable failure, is invoked once. *)
Lemma withRetry_settles_at_once {T : Type} (operation : @Operation W T) (w w' : W)
    (r : Completion T) :
  operation w = (r, w') ->
  match r with Return _ => True | Throw t => isNonRetryable t = true end ->
  withRetry setTimeout operation None None w = Some (r, w', [Invoked]).
Proof.
  intros Hop Hr. unfold withRetry. change (Z.to_nat (default 3%Z None)) with 3%nat.
  cbn [attempts default]. change (1 <=? 3)%Z with true. cbv iota. rewrite Hop.
  destruct r as [v|t]; [done|]. by rewrite Hr.
Qed.

Lemma catchBlock_responds (t : Thrown) (url : jsstring) :
  t <> Undefined ->
  exists msg, catchBlock toLowerCase t url
              = Return {| text := str "Error: " ++ msg; isError := true |}.
Proof. destruct t as [|e]; [done|]. intros _. by eexists. Qed.

(** X22: once the temporary directory is made and provided its removal
    does not fail, the handler returns a response whatever the child
    processes do, even if they reject with [undefined]: no failure is
    thrown past it, a failure is reported as a response with [isError] and
    a text beginning with [Error: ], and the temporary directory is removed
    last on every path. *)
Theorem list_subtitles_always_responds (url tempDir : jsstring) (w w1 : W) :
  mkdtempSync w = (Return tempDir, w1) ->
  (forall w3, exists w4, rimrafSync tempDir w3 = (Return tt, w4)) ->
  exists response w3 w4 log,
    handler url w = Some (Return response, w4, log) /\
    rimrafSync tempDir w3 = (Return tt, w4) /\
    (isError response = true -> exists msg, text response = str "Error: " ++ msg).
Proof.
  intros Hmk Hrm. unfold handleListAvailableSubtitles. rewrite Hmk.
  destruct (withRetry_default_completes (checkYtDlp spawnPromise tempDir) w1)
    as (checked & w2 & log1 & -> & Hchecked).
  cbn [mbind option_bind].
  destruct checked as [[]|t].
  - destruct (withRetry_default_completes (listSubs spawnPromise url tempDir) w2)
      as (listed & w3 & log2 & -> & Hlisted).
    cbn [mbind option_bind].
    destruct (Hrm w3) as [w4 Hw4].
    destruct listed as [result|t]; cbn [mbind option_bind]; rewrite Hw4.
    + eexists _, w3, w4, _. split; [done|]. split; [done|]. done.
    + destruct (catchBlock_responds t url) as [msg ->]; [congruence|].
      eexists _, w3, w4, _. split; [done|]. split; [done|]. intros _. by exists msg.
  - cbn [mbind option_bind].
    destruct (Hrm w2) as [w4 Hw4]. rewrite Hw4.
    destruct (catchBlock_responds t url) as [msg ->]; [congruence|].
    eexists _, w2, w4, _. split; [done|]. split; [done|]. intros _. by exists msg.
Qed.

(** X23: when the availability check of yt-dlp fails, in whatever way, the
    handler starts exactly one child process (the non-retryable failure is
    not retried and the listing is not attempted), removes the temporary
    directory and answers with the installation hint. *)
Theorem list_subtitles_without_tool (url tempDir : jsstring) (w w1 w2 w4 : W)
    (err : Thrown) :
  mkdtempSync w = (Return tempDir, w1) ->
  spawnPromise (str "yt-dlp") [str "--version"; str "--no-warnings"] tempDir w1
  = (Throw err, w2) ->
  rimrafSync tempDir w2 = (Return tt, w4) ->
  handler url w
  = Some (Return {| text := str "Error: " ++ YT_DLP_MISSING; isError := true |},
          w4, [Invoked]).
Proof.
  intros Hmk Hspawn Hrm. unfold handleListAvailableSubtitles. rewrite Hmk.
  rewrite (withRetry_settles_at_once (checkYtDlp spawnPromise tempDir) w1 w2
             (Throw (Err (YouTubeMCPError YT_DLP_MISSING YT_DLP_NOT_FOUND false
                            (asOriginal err)))));
    [|by unfold checkYtDlp; rewrite Hspawn|done].
  cbn [mbind option_bind]. by rewrite Hrm.
Qed.

(** X24: when yt-dlp is available and the listing succeeds at once, the
    response is the listing behind its heading, after two child processes;
    when the listing fails on all three attempts, the response carries the
    message of the exhausted retry with the last failure's message, after one
    process for the check and three for the listing. *)
Theorem list_subtitles_outcomes (url tempDir version : jsstring) (w w1 w2 : W) :
  mkdtempSync w = (Return tempDir, w1) ->
  spawnPromise (str "yt-dlp") [str "--version"; str "--no-warnings"] tempDir w1
  = (Return version, w2) ->
  (forall result w3 w4,
     listSubs spawnPromise url tempDir w2 = (Return result, w3) ->
     rimrafSync tempDir w3 = (Return tt, w4) ->
     handler url w
     = Some (Return {| text := str "Available Subtitles:
" ++ result; isError := false |}, w4, [Invoked; Invoked])) /\
  (forall last w3 w4,
     allFail setTimeout (listSubs spawnPromise url tempDir) 3 1000 1 w2 last w3 ->
     rimrafSync tempDir w3 = (Return tt, w4) ->
     exists log,
       handler url w
       = Some (Return {| text := str "Error: Operation failed after 3 attempts: "
                                 ++ message last;
                         isError := true |}, w4, log) /\
       invocations log = 4%nat).
Proof.
  intros Hmk Hversion.
  assert (withRetry setTimeout (checkYtDlp spawnPromise tempDir) None None w1
          = Some (Return tt, w2, [Invoked])) as Hcheck.
  { apply withRetry_settles_at_once; [|done].
    unfold checkYtDlp. by rewrite Hversion. }
  split.
  - intros result w3 w4 Hlist Hrm.
    unfold handleListAvailableSubtitles. rewrite Hmk, Hcheck.
    cbn [mbind option_bind].
    rewrite (withRetry_settles_at_once _ _ _ _ Hlist I).
    cbn [mbind option_bind app]. by rewrite Hrm.
  - intros last w3 w4 Hfail Hrm.
    destruct (attempts_allFail setTimeout _ _ _ _ _ _ _ Hfail 3 Undefined [])
      as (log & Hrun & Hcount); [lia|].
    exists ([Invoked] ++ log).
    unfold handleListAvailableSubtitles. rewrite Hmk, Hcheck.
    cbn [mbind option_bind].
    unfold withRetry. cbn [default]. change (Z.to_nat 3) with 3%nat.
    rewrite Hrun. cbn [mbind option_bind exhausted catchBlock classifyCaught createMCPError message].
    rewrite Hrm. split; [done|].
    rewrite invocations_app. cbn [invocations]. lia.
Qed.

End HandlerFacts.

Lemma list_subtitles_always_responds_witness :
  exists response w3 w4 log,
    handleListAvailableSubtitles noWait toLowerCaseAscii spawnOffline tempDirMade
      tempDirRemoved (str "https://youtu.be/x") 0%nat
    = Some (Return response, w4, log) /\
    tempDirRemoved (str "/tmp/youtube-a1b2c3") w3 = (Return tt, w4) /\
    (isError response = true -> exists msg, text response = str "Error: " ++ msg).
Proof.
  apply (list_subtitles_always_responds noWait toLowerCaseAscii spawnOffline tempDirMade
           tempDirRemoved (str "https://youtu.be/x") (str "/tmp/youtube-a1b2c3") 0%nat 0%nat).
  - reflexivity.
  - intros w3. by exists w3.
Defined.

Lemma list_subtitles_without_tool_witness :
  handleListAvailableSubtitles noWait toLowerCaseAscii spawnFails tempDirMade
    tempDirRemoved (str "https://youtu.be/x") 0%nat
  = Some (Return {| text := str "Error: " ++ YT_DLP_MISSING; isError := true |},
          1%nat, [Invoked]).
Proof.
  apply (list_subtitles_without_tool noWait toLowerCaseAscii spawnFails tempDirMade
           tempDirRemoved (str "https://youtu.be/x") (str "/tmp/youtube-a1b2c3")
           0%nat 0%nat 1%nat 1%nat (Err (PlainError (str "spawn yt-dlp ENOENT"))));
    reflexivity.
Defined.

Lemma list_subtitles_outcomes_witness :
  exists log,
    handleListAvailableSubtitles noWait toLowerCaseAscii spawnOffline tempDirMade
      tempDirRemoved (str "https://youtu.be/x") 0%nat
    = Some (Return {| text := str "Error: Operation failed after 3 attempts: "
                              ++ str "network unreachable";
                      isError := true |}, 4%nat, log) /\
    invocations log = 4%nat.
Proof.
  apply (proj2 (list_subtitles_outcomes noWait toLowerCaseAscii spawnOffline tempDirMade
                  tempDirRemoved (str "https://youtu.be/x") (str "/tmp/youtube-a1b2c3")
                  (str "2024.08.06") 0%nat 0%nat 1%nat eq_refl eq_refl)
           (PlainError (str "network unreachable")) 4%nat 4%nat).
  - apply (allFail_more noWait _ 3 1000 1 1%nat
             (Err (PlainError (str "network unreachable"))) 2%nat);
      [lia|reflexivity|reflexivity|].
    apply (allFail_more noWait _ 3 1000 2 2%nat
             (Err (PlainError (str "network unreachable"))) 3%nat);
      [lia|reflexivity|reflexivity|].
    apply (allFail_last noWait _ 3 1000 3%nat); reflexivity.
  - reflexivity.
Defined.

(** ** A handler: [handleDownloadSubtitles] *)

Section DownloadSubtitlesFacts.

Context {W : Type}.
Variable setTimeout : Z -> W -> W.
Variable toLowerCase : jsstring -> jsstring.
Variable spawnPromise : jsstring -> list jsstring -> jsstring -> W -> Completion jsstring * W.
Variable mkdtempSync : W -> Completion jsstring * W.
Variable rimrafSync : jsstring -> W -> Completion unit * W.
Variable num : Type.
Variable Number : jsstring -> num.
Variable ofZ : Z -> num.
Variable add mul : num -> num -> num.
Variable isTruthy : num -> bool.
Variable geq : num -> num -> bool.
Variable numToString : num -> jsstring.
Variable fs_readdirSync : jsstring -> W -> Completion (list jsstring) * W.
Variable fs_readFileSync : jsstring -> W -> Completion jsstring * W.
Variable path_join : jsstring -> jsstring -> jsstring.
Variable describeVideo : jsstring -> Completion (jsstring * jsstring).
Variable thrownToString : Thrown -> jsstring.

Abbreviation parseTime := (parseTimeToSeconds num Number ofZ add mul).

Abbreviation downloadHandler :=
  (handleDownloadSubtitles setTimeout toLowerCase spawnPromise mkdtempSync rimrafSync
     num Number ofZ add mul isTruthy geq numToString fs_readdirSync fs_readFileSync
     path_join describeVideo thrownToString).

(** X25: a time range whose end is a number other than 0 and NaN and whose
    start is not before it is refused before yt-dlp is started: the
    response is the error [Start time must be before end time], no child
    process is run, and the temporary directory is removed.  A start left
    out counts as 0. *)
Theorem time_range_must_be_ordered (args : SubtitleArgs) (endStr tempDir : jsstring)
    (startSeconds endSeconds : num) (w w1 w2 : W) :
  (truthy (time_start args) = false /\ startSeconds = ofZ 0) \/
  (exists startStr,
     time_start args = Some startStr /\ startStr <> [] /\
     parseTime startStr = Return startSeconds) ->
  time_end args = Some endStr -> endStr <> [] ->
  parseTime endStr = Return endSeconds ->
  isTruthy endSeconds = true ->
  geq startSeconds endSeconds = true ->
  mkdtempSync w = (Return tempDir, w1) ->
  rimrafSync tempDir w1 = (Return tt, w2) ->
  downloadHandler args w
  = Some (Return {| text := str "Error: Start time must be before end time";
                    isError := true |}, w2, []).
Proof.
  intros Hstart Hend Hne Hparsed Htruthy Hgeq Hmk Hrm.
  assert (timeRangeArgs num Number ofZ add mul isTruthy geq numToString
            (time_start args) (time_end args)
          = Throw (Err (YouTubeMCPError (str "Start time must be before end time")
                          UNKNOWN_ERROR false None))) as Hrange.
  { unfold timeRangeArgs. rewrite Hend.
    destruct endStr as [|c s]; [done|]. cbn [truthy]. rewrite orb_true_r.
    rewrite Hparsed.
    destruct Hstart as [[Hfalsy ->]|(startStr & -> & Hne' & Hstart)].
    - destruct (time_start args) as [[|c' s']|]; [|done|];
        cbn [default from_option id]; by rewrite Htruthy, Hgeq.
    - destruct startStr as [|c' s']; [done|]. rewrite Hstart.
      cbn [default from_option id]. by rewrite Htruthy, Hgeq. }
  unfold handleDownloadSubtitles. rewrite Hmk.
  unfold downloadSubtitlesBody, buildYtDlpArgs. cbv zeta. rewrite Hrange.
  cbn [mbind option_bind catchBlock classifyCaught message]. by rewrite Hrm.
Qed.

(** The loop over the subtitle files, when every file can be read and
    reading leaves the world as it is: the sections of the files, in order,
    behind the text gathered before. *)
Lemma readSubtitleFiles_sections (formats : list jsstring) (tempDir : jsstring)
    (contentOf : jsstring -> jsstring) (w : W) (subtitleFiles : list jsstring) :
  forall content,
    (forall file, file ∈ subtitleFiles ->
       fs_readFileSync (path_join tempDir file) w = (Return (contentOf file), w)) ->
    readSubtitleFiles fs_readFileSync path_join formats tempDir subtitleFiles content w
    = Some (Return (content
                    ++ concat (map (fun file => subtitleSection formats file (contentOf file))
                                 subtitleFiles)), w).
Proof.
  induction subtitleFiles as [|file rest IH]; intros content Hread.
  { cbn [readSubtitleFiles map concat]. by rewrite app_nil_r. }
  cbn [readSubtitleFiles]. rewrite (Hread file) by by left.
  rewrite stripVttNonContent_normalize. cbn [mbind option_bind].
  rewrite IH by (intros f Hf; apply Hread; by right).
  cbn [map concat]. unfold subtitleSection. by rewrite <- !app_assoc.
Qed.

(** X26: when no time range is refused, the download succeeds at its first
    attempt, metadata is not asked for and every subtitle file of the
    temporary directory can be read, the response is the heading followed,
    for each file whose name ends in [.vtt] or [.srt], in the order of the
    directory listing, by the name of the file, a rule and the text of the
    file normalised without timing; files with other names are left out;
    one child process has run. *)
Theorem download_subtitles_assembles_tracks (args : SubtitleArgs)
    (ytDlpArgs files : list jsstring) (tempDir output : jsstring)
    (contentOf : jsstring -> jsstring) (w w1 w2 w3 w4 : W) :
  buildYtDlpArgs num Number ofZ add mul isTruthy geq numToString args = Return ytDlpArgs ->
  include_metadata args = Some false ->
  mkdtempSync w = (Return tempDir, w1) ->
  spawnPromise (str "yt-dlp") ytDlpArgs tempDir w1 = (Return output, w2) ->
  fs_readdirSync tempDir w2 = (Return files, w3) ->
  (forall file, file ∈ files -> isSubtitleFile file = true ->
     fs_readFileSync (path_join tempDir file) w3 = (Return (contentOf file), w3)) ->
  (exists file, file ∈ files /\ isSubtitleFile file = true) ->
  rimrafSync tempDir w3 = (Return tt, w4) ->
  downloadHandler args w
  = Some (Return {| text :=
                      str "Downloaded Subtitles:
"
                      ++ concat (map (fun file =>
                                        subtitleSection (default [str "vtt"] (formats args))
                                          file (contentOf file))
                                   (List.filter isSubtitleFile files));
                    isError := false |}, w4, [Invoked]).
Proof.
  intros Hargs Hmeta Hmk Hspawn Hdir Hread (file & Hin & Hsub) Hrm.
  unfold handleDownloadSubtitles. rewrite Hmk.
  unfold downloadSubtitlesBody. rewrite Hargs.
  rewrite (withRetry_settles_at_once setTimeout (downloadSubs spawnPromise ytDlpArgs tempDir)
             w1 w2 (Return output) Hspawn I).
  cbn [mbind option_bind]. unfold videoMetadata. rewrite Hmeta.
  cbn [default from_option id mbind option_bind]. rewrite Hdir.
  assert (List.filter isSubtitleFile files <> []) as Hsome.
  { intros Hnone. assert (In file (List.filter isSubtitleFile files)) as Habs.
    { apply filter_In. split; [by apply list_elem_of_In|done]. }
    by rewrite Hnone in Habs. }
  rewrite (readSubtitleFiles_sections _ tempDir contentOf w3 (List.filter isSubtitleFile files)).
  - destruct (List.filter isSubtitleFile files) as [|f rest]; [done|].
    cbn [mbind option_bind app]. by rewrite Hrm.
  - intros f Hf. apply list_elem_of_In, filter_In in Hf as [Hf1 Hf2].
    apply Hread; [by apply list_elem_of_In|done].
Qed.

End DownloadSubtitlesFacts.

Lemma time_range_must_be_ordered_witness :
  handleDownloadSubtitles noWait toLowerCaseAscii spawnFails tempDirMade tempDirRemoved
    Z wholeNumber (fun z => z) Z.add Z.mul nonZero Z.geb numberToString
    noFiles emptyFile joinPath (fun _ => Throw Undefined) (fun _ => str "undefined")
    backwardsArgs 0%nat
  = Some (Return {| text := str "Error: Start time must be before end time";
                    isError := true |}, 0%nat, []).
Proof.
  apply (time_range_must_be_ordered noWait toLowerCaseAscii spawnFails tempDirMade
           tempDirRemoved Z wholeNumber (fun z => z) Z.add Z.mul nonZero Z.geb
           numberToString noFiles emptyFile joinPath (fun _ => Throw Undefined)
           (fun _ => str "undefined")
           backwardsArgs (str "1:30") (str "/tmp/youtube-a1b2c3") 120%Z 90%Z
           0%nat 0%nat 0%nat).
  - right. exists (str "2:00"). split; [reflexivity|]. split; [discriminate|].
    vm_compute. reflexivity.
  - reflexivity.
  - discriminate.
  - vm_compute. reflexivity.
  - reflexivity.
  - reflexivity.
  - reflexivity.
  - reflexivity.
Defined.

Lemma download_subtitles_assembles_tracks_witness :
  handleDownloadSubtitles noWait toLowerCaseAscii spawnDone tempDirMade tempDirRemoved
    Z wholeNumber (fun z => z) Z.add Z.mul nonZero Z.geb numberToString
    oneTrack helloTrack joinPath (fun _ => Throw Undefined) (fun _ => str "undefined")
    plainArgs 0%nat
  = Some (Return {| text := str "Downloaded Subtitles:
video.en.vtt
====================
Hello world

";
                    isError := false |}, 1%nat, [Invoked]).
Proof.
  rewrite (download_subtitles_assembles_tracks noWait toLowerCaseAscii spawnDone
             tempDirMade tempDirRemoved Z wholeNumber (fun z => z) Z.add Z.mul nonZero
             Z.geb numberToString oneTrack helloTrack joinPath (fun _ => Throw Undefined)
             (fun _ => str "undefined") plainArgs
             [str "--skip-download"; str "--write-subs"; str "--write-auto-subs";
              str "--sub-langs"; str "en"; str "--sub-format"; str "vtt";
              str "https://youtu.be/x"]
             [str "video.en.vtt"; str "video.info.json"]
             (str "/tmp/youtube-a1b2c3") (str "done")
             (fun _ => str "WEBVTT

00:00:01.000 --> 00:00:02.000
Hello <c>world</c>")
             0%nat 0%nat 1%nat 1%nat 1%nat).
  - vm_compute. reflexivity.
  - vm_compute. reflexivity.
  - reflexivity.
  - reflexivity.
  - reflexivity.
  - reflexivity.
  - intros file _ _. reflexivity.
  - exists (str "video.en.vtt"). split; [by left|]. vm_compute. reflexivity.
  - reflexivity.
Defined.
